(** * Borealis: the application run loop, focus routing and view stack

    A shallow embedding of [library/lib/application.cpp] and of
    [library/lib/platform_drivers/platform_driver.cpp].

    - Button masks are [unsigned long] values, kept as [Z] in [0, 2^64).
    - A [View*] is a view identity together with the chain of parent
      pointers above it; the code under study follows parent pointers and
      never writes them.
    - [std::function] values are defunctionalised: every lambda of
      [application.cpp] is a constructor of [Callback] or [ActionListener],
      caller-supplied closures are numbered.
    - The [View] class, the animation engine, the renderer and the task
      manager are collaborators.  Their state is an abstract world [W];
      every call on them is an [Event] that is appended to a trace and
      applied to the world by [perform]; every query reads the world. *)

From Stdlib Require Import String ZArith List Bool Lia SpecFloat.
Import ListNotations.
Local Open Scope Z_scope.

(** ** Keys ([platform_driver.hpp]) *)

Definition Key := Z.

Definition KEY_A      : Key := Z.shiftl 1 0.
Definition KEY_B      : Key := Z.shiftl 1 1.
Definition KEY_X      : Key := Z.shiftl 1 2.
Definition KEY_Y      : Key := Z.shiftl 1 3.
Definition KEY_LSTICK : Key := Z.shiftl 1 4.
Definition KEY_RSTICK : Key := Z.shiftl 1 5.
Definition KEY_L      : Key := Z.shiftl 1 6.
Definition KEY_R      : Key := Z.shiftl 1 7.
Definition KEY_PLUS   : Key := Z.shiftl 1 8.
Definition KEY_MINUS  : Key := Z.shiftl 1 9.
Definition KEY_DLEFT  : Key := Z.shiftl 1 10.
Definition KEY_DUP    : Key := Z.shiftl 1 11.
Definition KEY_DRIGHT : Key := Z.shiftl 1 12.
Definition KEY_DDOWN  : Key := Z.shiftl 1 13.

(** ** Platform driver ([platform_driver.cpp]) *)

(** Width of [unsigned long] on the two targets (LP64). *)
Definition ulong_bits : Z := 64.
Definition ulong_modulus : Z := 2 ^ ulong_bits.

(** [~x] on an [unsigned long]. *)
Definition ulong_not (x : Z) : Z := (Z.lnot x) mod ulong_modulus.

Record PlatformDriver := mkPlatformDriver {
  quitFlag : bool;
  gamepadDown : Z;
  gamepadDownOld : Z
}.

Module Driver.

Definition quit (d : PlatformDriver) : PlatformDriver :=
  mkPlatformDriver true (gamepadDown d) (gamepadDownOld d).

Definition isAnyKeyDown (d : PlatformDriver) : bool :=
  gamepadDown d >? 0.

Definition haveKeyStatesChanged (d : PlatformDriver) : bool :=
  negb (gamepadDown d =? gamepadDownOld d).

Definition keysDown (d : PlatformDriver) : Z :=
  Z.land (ulong_not (gamepadDownOld d)) (gamepadDown d).

Definition keysUp (d : PlatformDriver) : Z :=
  Z.land (gamepadDownOld d) (ulong_not (gamepadDown d)).

Definition keysHeld (d : PlatformDriver) : Z :=
  gamepadDown d.

(** The part of [update] shared by both drivers once the poll succeeded:
    the current snapshot becomes the old one and [polled] the current. *)
Definition update (polled : Z) (d : PlatformDriver) : PlatformDriver :=
  mkPlatformDriver (quitFlag d) polled (gamepadDown d).

(** The four classes of a button bit across two consecutive snapshots,
    read off the driver's three queries. *)
Definition newlyDown (d : PlatformDriver) (i : Z) : bool :=
  Z.testbit (keysDown d) i.
Definition stillHeld (d : PlatformDriver) (i : Z) : bool :=
  Z.testbit (keysHeld d) i && negb (Z.testbit (keysDown d) i).
Definition newlyUp (d : PlatformDriver) (i : Z) : bool :=
  Z.testbit (keysUp d) i.
Definition neither (d : PlatformDriver) (i : Z) : bool :=
  negb (Z.testbit (keysHeld d) i) && negb (Z.testbit (keysUp d) i).

Definition classCount (d : PlatformDriver) (i : Z) : nat :=
  (Nat.b2n (newlyDown d i) + Nat.b2n (stillHeld d i)
   + Nat.b2n (newlyUp d i) + Nat.b2n (neither d i))%nat.

Definition wellFormed (d : PlatformDriver) : Prop :=
  0 <= gamepadDown d < ulong_modulus /\ 0 <= gamepadDownOld d < ulong_modulus.

End Driver.

(** ** Views, actions, callbacks *)

(** A view handle: its identity and its parent pointer. *)
Unset Elimination Schemes.
Inductive View : Type :=
  MkView (view_id : nat) (view_parent : option View).
Set Elimination Schemes.

Definition getParent (v : View) : option View :=
  match v with MkView _ p => p end.

Definition hasParent (v : View) : bool :=
  match getParent v with Some _ => true | None => false end.

Fixpoint view_eqb (a b : View) {struct a} : bool :=
  match a, b with
  | MkView i p, MkView j q =>
      Nat.eqb i j &&
      match p, q with
      | None, None => true
      | Some p', Some q' => view_eqb p' q'
      | _, _ => false
      end
  end.

Definition focus_eqb (a b : option View) : bool :=
  match a, b with
  | None, None => true
  | Some x, Some y => view_eqb x y
  | _, _ => false
  end.

(** The node itself followed by its ancestors, nearest first. *)
Fixpoint chain (v : View) : list View :=
  v :: match v with
       | MkView _ (Some p) => chain p
       | MkView _ None => []
       end.

Inductive FocusDirection := UP | DOWN | LEFT | RIGHT.

(** [application.cpp] only ever compares an animation with [FADE]. *)
Inductive ViewAnimation := FADE | OtherAnimation (tag : nat).

Definition isFade (a : ViewAnimation) : bool :=
  match a with FADE => true | OtherAnimation _ => false end.

(** [void*] user data handed back to the parent. *)
Definition UserData := nat.

(** [ActionListener] closures: the two lambdas of [pushView], and
    caller-supplied listeners. *)
Inductive ActionListener :=
  | QuitListener
  | FpsListener
  | UserListener (id : nat).

(** [struct Action] ([actions.hpp]). *)
Record Action := mkAction {
  key : Key;
  hintText : string;
  available : bool;
  hidden : bool;
  actionListener : ActionListener
}.

(** [std::function<void(void)>] closures created in [application.cpp]. *)
Inductive Callback :=
  | UserCallback (id : nat)
  | UnblockCallback
  | PushHideDone (animation : ViewAnimation) (wait : bool)
  | PopHideDone (last : View) (animation : ViewAnimation) (wait : bool) (cb : Callback).

(** Calls on collaborators, and the Application's own token and stack
    steps, in the order they happen. *)
Inductive Event :=
  | EvWillAppear (v : View) (resetState : bool)
  | EvWillDisappear (v : View) (resetState : bool)
  | EvSetForceTranslucent (v : View) (b : bool)
  | EvShow (v : View) (cb : Callback) (animate : bool) (animation : ViewAnimation)
  | EvHide (v : View) (cb : Callback) (animate : bool) (animation : ViewAnimation)
  | EvSetAlphaZero (v : View)                    (* view->alpha = 0.0f *)
  | EvSetBoundaries (v : View)                   (* to the content area *)
  | EvInvalidate (v : View) (immediate : bool)
  | EvRegisterAction (v : View) (hint : string) (k : Key)
      (listener : ActionListener) (hiddenAction : bool)
  | EvDelete (v : View)
  | EvOnFocusLost (v : View)
  | EvOnFocusGained (v : View)
  | EvFocusChange (newFocus : option View)
  | EvShakeHighlight (v : View) (direction : FocusDirection)
  | EvActionListener (owner : View) (a : Action) (verdict : bool)
  | EvUserCallback (id : nat)
  | EvViewFrame (v : View)
  | EvResizeFramerateCounter
  | EvFramerateCounterFrame
  | EvNotificationFrame
  | EvDriverFrame
  | EvBeginFrame
  | EvEndFrame
  | EvSwapBuffers
  | EvDriverExit
  | EvAnimationUpdate
  | EvAnimationFree
  | EvTaskFrame
  | EvSleep (usec : Z)
  | EvBlockInputs
  | EvUnblockInputs
  | EvPopBack (v : View).

(** Modelled from the spec: the [View] class, the animation engine, the
    renderer, the task manager and the caller's closures are not among
    the sources.  What the Application needs of them is this interface:
    [perform] is the effect of a call on their own state, the other
    fields are the queries [application.cpp] makes.  A call changes the
    collaborators' state only.  In particular [show] and [hide], which
    [application.cpp] always calls with [animate = true], schedule their
    animation and return; the completion callback handed to them is
    invoked later, when the animation engine's update finishes the
    animation (see [runCallback] and [mainLoopWork]).  Listeners and
    callbacks supplied by the caller do not call back into the
    Application. *)
Class Collaborators (W : Type) := {
  perform : Event -> W -> W;
  getDefaultFocus : W -> View -> option View;
  getNextFocus : W -> View -> FocusDirection -> UserData -> option View;
  getParentUserData : W -> View -> UserData;
  getActions : W -> View -> list Action;
  isTranslucent : W -> View -> bool;
  isHidden : W -> View -> bool;
  listenerVerdict : nat -> W -> bool
}.

(** ** IEEE binary32, the type of [Application::frameTime] *)

Definition float_prec : Z := 24.
Definition float_emax : Z := 128.

(** Integer to [float] conversion (round to nearest, ties to even). *)
Definition float_of_Z (n : Z) : spec_float :=
  binary_normalize float_prec float_emax n 0 false.

Definition float_zero : spec_float := S754_zero false.

Definition float_div (x y : spec_float) : spec_float :=
  SFdiv float_prec float_emax x y.

Definition float_mul (x y : spec_float) : spec_float :=
  SFmul float_prec float_emax x y.

(** [x > y] on floats. *)
Definition float_gt (x y : spec_float) : bool := SFltb y x.

(** [(retro_time_t) f]: truncation toward zero.  The conversion of an
    infinity or a NaN is undefined in C++; it does not occur for the
    values [setMaximumFPS] stores. *)
Definition float_to_long (f : spec_float) : Z :=
  match f with
  | S754_finite sgn m e =>
      let a := match e with
               | Zneg p => Z.pos m / 2 ^ Z.pos p
               | _ => Z.pos m * 2 ^ e
               end in
      if sgn then - a else a
  | _ => 0
  end.

(** ** Small helpers for [std::vector] and the error monad *)

(** [v[v.size() - 1]]; [None] when the index is out of range. *)
Definition back {A : Type} (l : list A) : option A :=
  nth_error l (length l - 1).

(** [None] stands for undefined behaviour (a null or out-of-range
    dereference). *)
Definition bind {A B : Type} (m : option A) (f : A -> option B) : option B :=
  match m with Some a => f a | None => None end.

Notation "x <- m ;; k" := (bind m (fun x => k))
  (at level 61, m at next level, right associativity).

Definition BUTTON_REPEAT_DELAY : Z := 15.
Definition BUTTON_REPEAT_CADENCY : Z := 5.
Definition DEFAULT_FPS : Z := 60.

(** [action.key & button] as a condition. *)
Definition intersects (a b : Z) : bool := negb (Z.land a b =? 0).

(** [std::set<Key>] of consumed keys: only membership, insertion and
    emptiness are used. *)
Definition consumedFind (k : Key) (consumedKeys : list Key) : bool :=
  existsb (Z.eqb k) consumedKeys.

Definition consumedInsert (k : Key) (consumedKeys : list Key) : list Key :=
  if consumedFind k consumedKeys then consumedKeys else k :: consumedKeys.

(** ** The Application ([application.cpp]) *)

Section Model.

Context {W : Type} {C : Collaborators W}.

(** The static members of [Application] the modelled functions touch,
    the two [static] locals of [mainLoop], the collaborators' world and
    the trace.  [blockInputsTokens] and [repeatingButtonTimer] are kept
    as unbounded integers: the former's declaration is in
    [application.hpp], outside the sources at hand, and neither can be
    driven to a machine bound by less than 2^31 calls. *)
Record Application := mkApplication {
  currentFocus : option View;
  repetitionOldFocus : option View;
  viewStack : list View;
  focusStack : list View;
  blockInputsTokens : Z;
  frameTime : spec_float;
  framerateCounter : bool;
  platformDriver : PlatformDriver;
  buttonPressTime : Z;
  repeatingButtonTimer : Z;
  world : W;
  trace : list Event
}.

Definition set_currentFocus (x : option View) (s : Application) :=
  mkApplication x (repetitionOldFocus s) (viewStack s) (focusStack s)
    (blockInputsTokens s) (frameTime s) (framerateCounter s)
    (platformDriver s) (buttonPressTime s) (repeatingButtonTimer s)
    (world s) (trace s).

Definition set_repetitionOldFocus (x : option View) (s : Application) :=
  mkApplication (currentFocus s) x (viewStack s) (focusStack s)
    (blockInputsTokens s) (frameTime s) (framerateCounter s)
    (platformDriver s) (buttonPressTime s) (repeatingButtonTimer s)
    (world s) (trace s).

Definition set_viewStack (x : list View) (s : Application) :=
  mkApplication (currentFocus s) (repetitionOldFocus s) x (focusStack s)
    (blockInputsTokens s) (frameTime s) (framerateCounter s)
    (platformDriver s) (buttonPressTime s) (repeatingButtonTimer s)
    (world s) (trace s).

Definition set_focusStack (x : list View) (s : Application) :=
  mkApplication (currentFocus s) (repetitionOldFocus s) (viewStack s) x
    (blockInputsTokens s) (frameTime s) (framerateCounter s)
    (platformDriver s) (buttonPressTime s) (repeatingButtonTimer s)
    (world s) (trace s).

Definition set_blockInputsTokens (x : Z) (s : Application) :=
  mkApplication (currentFocus s) (repetitionOldFocus s) (viewStack s)
    (focusStack s) x (frameTime s) (framerateCounter s)
    (platformDriver s) (buttonPressTime s) (repeatingButtonTimer s)
    (world s) (trace s).

Definition set_frameTime (x : spec_float) (s : Application) :=
  mkApplication (currentFocus s) (repetitionOldFocus s) (viewStack s)
    (focusStack s) (blockInputsTokens s) x (framerateCounter s)
    (platformDriver s) (buttonPressTime s) (repeatingButtonTimer s)
    (world s) (trace s).

Definition set_framerateCounter (x : bool) (s : Application) :=
  mkApplication (currentFocus s) (repetitionOldFocus s) (viewStack s)
    (focusStack s) (blockInputsTokens s) (frameTime s) x
    (platformDriver s) (buttonPressTime s) (repeatingButtonTimer s)
    (world s) (trace s).

Definition set_platformDriver (x : PlatformDriver) (s : Application) :=
  mkApplication (currentFocus s) (repetitionOldFocus s) (viewStack s)
    (focusStack s) (blockInputsTokens s) (frameTime s) (framerateCounter s)
    x (buttonPressTime s) (repeatingButtonTimer s) (world s) (trace s).

Definition set_repeatTimers (t r : Z) (s : Application) :=
  mkApplication (currentFocus s) (repetitionOldFocus s) (viewStack s)
    (focusStack s) (blockInputsTokens s) (frameTime s) (framerateCounter s)
    (platformDriver s) t r (world s) (trace s).

(** A call on a collaborator: recorded, and applied to the world. *)
Definition call (e : Event) (s : Application) : Application :=
  mkApplication (currentFocus s) (repetitionOldFocus s) (viewStack s)
    (focusStack s) (blockInputsTokens s) (frameTime s) (framerateCounter s)
    (platformDriver s) (buttonPressTime s) (repeatingButtonTimer s)
    (perform e (world s)) (trace s ++ [e]).

(** A step of the Application itself: recorded only. *)
Definition note (e : Event) (s : Application) : Application :=
  mkApplication (currentFocus s) (repetitionOldFocus s) (viewStack s)
    (focusStack s) (blockInputsTokens s) (frameTime s) (framerateCounter s)
    (platformDriver s) (buttonPressTime s) (repeatingButtonTimer s)
    (world s) (trace s ++ [e]).

(** *** Input-block tokens *)

Definition blockInputs (s : Application) : Application :=
  note EvBlockInputs (set_blockInputsTokens (blockInputsTokens s + 1) s).

Definition unblockInputs (s : Application) : Application :=
  note EvUnblockInputs
    (if blockInputsTokens s >? 0
     then set_blockInputsTokens (blockInputsTokens s - 1) s
     else s).

(** *** quit, frame-rate overlay *)

Definition quit (s : Application) : Application :=
  set_platformDriver (Driver.quit (platformDriver s)) s.

Definition resizeFramerateCounter (s : Application) : Application :=
  if negb (framerateCounter s) then s else call EvResizeFramerateCounter s.

Definition setDisplayFramerate (enabled : bool) (s : Application) : Application :=
  if negb (framerateCounter s) && enabled
  then resizeFramerateCounter (set_framerateCounter true s)
  else if framerateCounter s && negb enabled
       then set_framerateCounter false s
       else s.

Definition toggleFramerateDisplay (s : Application) : Application :=
  setDisplayFramerate (negb (framerateCounter s)) s.

(** *** giveFocus *)

Definition giveFocus (view : option View) (s : Application) : Application :=
  let oldFocus := currentFocus s in
  let newFocus := match view with
                  | Some v => getDefaultFocus (world s) v
                  | None => None
                  end in
  if negb (focus_eqb oldFocus newFocus) then
    let s := match oldFocus with
             | Some o => call (EvOnFocusLost o) s
             | None => s
             end in
    let s := set_currentFocus newFocus s in
    let s := call (EvFocusChange newFocus) s in
    match newFocus with
    | Some n => call (EvOnFocusGained n) s
    | None => s
    end
  else s.

(** *** navigate *)

(** The upward walk of [navigate]: [cur] is the local [currentFocus]
    and is known to have a parent on entry. *)
Fixpoint findNextFocus (w : W) (direction : FocusDirection) (cur : View)
  : option View :=
  match cur with
  | MkView _ None => None
  | MkView _ (Some parent) =>
      match getNextFocus w parent direction (getParentUserData w cur) with
      | Some nextFocus => Some nextFocus
      | None =>
          if negb (hasParent cur) || negb (hasParent parent) then None
          else findNextFocus w direction parent
      end
  end.

Definition navigate (direction : FocusDirection) (s : Application) : Application :=
  match currentFocus s with
  | None => s
  | Some focus =>
      if negb (hasParent focus) then s
      else
        match findNextFocus (world s) direction focus with
        | None => call (EvShakeHighlight focus direction) s
        | Some nextFocus => giveFocus (Some nextFocus) s
        end
  end.

(** *** handleAction *)

Definition runListener (owner : View) (a : Action) (s : Application)
  : bool * Application :=
  match actionListener a with
  | QuitListener => (true, quit (call (EvActionListener owner a true) s))
  | FpsListener =>
      (true, toggleFramerateDisplay (call (EvActionListener owner a true) s))
  | UserListener id =>
      let verdict := listenerVerdict id (world s) in
      (verdict, call (EvActionListener owner a verdict) s)
  end.

(** One turn of the [for] loop over a node's actions. *)
Definition actionStep (button : Z) (owner : View)
  (acc : list Key * Application) (action : Action) : list Key * Application :=
  let '(consumedKeys, s) := acc in
  if negb (intersects (key action) button) then acc
  else if consumedFind (key action) consumedKeys then acc
  else if available action then
    let '(verdict, s') := runListener owner action s in
    if verdict then (consumedInsert (key action) consumedKeys, s')
    else (consumedKeys, s')
  else acc.

(** The [for] loop over the actions of one node. *)
Definition visitNode (button : Z) (hintParent : View)
  (acc : list Key * Application) : list Key * Application :=
  fold_left (actionStep button hintParent)
    (getActions (world (snd acc)) hintParent) acc.

(** The [while (hintParent != nullptr)] loop. *)
Fixpoint handleActionFrom (button : Z) (hintParent : View)
  (acc : list Key * Application) : list Key * Application :=
  let acc' := visitNode button hintParent acc in
  match hintParent with
  | MkView _ (Some parent) => handleActionFrom button parent acc'
  | MkView _ None => acc'
  end.

(** [consumedKeys.empty()] *)
Definition consumedEmpty (consumedKeys : list Key) : bool :=
  match consumedKeys with [] => true | _ :: _ => false end.

Definition handleAction (button : Z) (s : Application) : bool * Application :=
  match currentFocus s with
  | None => (false, s)
  | Some focus =>
      let '(consumedKeys, s') := handleActionFrom button focus ([], s) in
      (negb (consumedEmpty consumedKeys), s')
  end.

(** The ancestor-first reading of the dispatch: the same loop over the
    same nodes, taken from the root of the chain down to the focus.
    This is NOT what [handleAction] does; it is kept to be compared
    with it. *)
Definition handleActionAncestorFirst (button : Z) (s : Application)
  : bool * Application :=
  match currentFocus s with
  | None => (false, s)
  | Some focus =>
      let '(consumedKeys, s') :=
        fold_left (fun acc node => visitNode button node acc)
          (rev (chain focus)) ([], s) in
      (negb (consumedEmpty consumedKeys), s')
  end.

(** *** onGamepadButtonPressed *)

(** The body of [onGamepadButtonPressed] below its two early returns. *)
Definition dispatchButton (button : Z) (s : Application) : Application :=
  let s := set_repetitionOldFocus (currentFocus s) s in
  let '(consumed, s) := handleAction button s in
  if consumed then s
  else if intersects button KEY_DDOWN then navigate DOWN s
  else if intersects button KEY_DUP then navigate UP s
  else if intersects button KEY_DLEFT then navigate LEFT s
  else if intersects button KEY_DRIGHT then navigate RIGHT s
  else s.

Definition onGamepadButtonPressed (button : Z) (repeating : bool)
  (s : Application) : Application :=
  if negb (blockInputsTokens s =? 0) then s
  else if repeating && focus_eqb (repetitionOldFocus s) (currentFocus s) then s
  else dispatchButton button s.

(** *** popView, pushView and their completion callbacks *)

(** [popView] from [blockInputs] down to its "Focus" block. *)
Definition popViewAnimate (animation : ViewAnimation) (cb : Callback)
  (s : Application) : Application :=
  let s := blockInputs s in
  match back (viewStack s) with
  | None => s
  | Some last =>
      let s := call (EvWillDisappear last true) s in
      let s := call (EvSetForceTranslucent last true) s in
      let wait := isFade animation in
      let s := call (EvHide last (PopHideDone last animation wait cb)
                       true animation) s in
      if negb wait && (1 <? length (viewStack s))%nat then
        match nth_error (viewStack s) (length (viewStack s) - 2) with
        | Some toShow =>
            let s := call (EvWillAppear toShow false) s in
            call (EvShow toShow cb true animation) s
        | None => s
        end
      else s
  end.

(** The "Focus" block of [popView]. *)
Definition popViewFocus (s : Application) : Application :=
  if (0 <? length (focusStack s))%nat then
    match back (focusStack s) with
    | Some newFocus =>
        let s := giveFocus (Some newFocus) s in
        set_focusStack (removelast (focusStack s)) s
    | None => s
    end
  else s.

Definition popView (animation : ViewAnimation) (cb : Callback)
  (s : Application) : Application :=
  if (length (viewStack s) <=? 1)%nat then s
  else popViewFocus (popViewAnimate animation cb s).

(** [pushView] from [blockInputs] down to its "Focus" block. *)
Definition pushViewAnimate (view : View) (animation : ViewAnimation)
  (s : Application) : Application :=
  let s := blockInputs s in
  let last := back (viewStack s) in
  let fadeOut :=
    match last with
    | Some l => negb (isTranslucent (world s) l)
                && negb (isTranslucent (world s) view)
    | None => false
    end in
  let wait := isFade animation in
  let s := call (EvRegisterAction view "Exit" KEY_PLUS QuitListener false) s in
  let s := call (EvRegisterAction view "FPS" KEY_MINUS FpsListener true) s in
  let s :=
    if fadeOut then
      let s := call (EvSetForceTranslucent view true) s in
      let s := if negb wait
               then call (EvShow view UnblockCallback true animation) s
               else s in
      match last with
      | Some l => call (EvHide l (PushHideDone animation wait) true animation) s
      | None => s
      end
    else s in
  let s := call (EvSetBoundaries view) s in
  if negb fadeOut
  then call (EvShow view UnblockCallback true animation) s
  else call (EvSetAlphaZero view) s.

(** The "Focus" block of [pushView].  [None]:
    [Application::currentFocus->describe()] on a null focus. *)
Definition pushViewFocus (s : Application) : option Application :=
  if (0 <? length (viewStack s))%nat then
    match currentFocus s with
    | Some focus => Some (set_focusStack (focusStack s ++ [focus]) s)
    | None => None
    end
  else Some s.

Definition pushView (view : View) (animation : ViewAnimation)
  (s : Application) : option Application :=
  let s := pushViewAnimate view animation s in
  s <- pushViewFocus s ;;
  let s := call (EvInvalidate view true) s in
  let s := call (EvWillAppear view true) s in
  let s := giveFocus (getDefaultFocus (world s) view) s in
  Some (set_viewStack (viewStack s ++ [view]) s).

(** What each closure does when it is invoked.  [None]: indexing or
    popping an empty [viewStack]. *)
Fixpoint runCallback (cb : Callback) (s : Application) : option Application :=
  match cb with
  | UserCallback id => Some (call (EvUserCallback id) s)
  | UnblockCallback => Some (unblockInputs s)
  | PushHideDone animation wait =>
      newLast <- back (viewStack s) ;;
      let s := call (EvSetForceTranslucent newLast false) s in
      Some (if wait
            then call (EvShow newLast UnblockCallback true animation) s
            else s)
  | PopHideDone last animation wait cb' =>
      let s := call (EvSetForceTranslucent last false) s in
      popped <- back (viewStack s) ;;
      let s := note (EvPopBack popped)
                 (set_viewStack (removelast (viewStack s)) s) in
      let s := call (EvDelete last) s in
      s <- (if (0 <? length (viewStack s))%nat && wait then
              newLast <- back (viewStack s) ;;
              if isHidden (world s) newLast then
                let s := call (EvWillAppear newLast false) s in
                Some (call (EvShow newLast cb' true animation) s)
              else runCallback cb' s
            else Some s) ;;
      Some (unblockInputs s)
  end.

(** *** frame, clear, exit *)

(** Top of the stack first, down to and including the first view that
    is not translucent. *)
Fixpoint collectViews (w : W) (topFirst : list View) : list View :=
  match topFirst with
  | [] => []
  | view :: below =>
      view :: (if negb (isTranslucent w view) then [] else collectViews w below)
  end.

Definition viewsToDraw (s : Application) : list View :=
  collectViews (world s) (rev (viewStack s)).

Definition frame (s : Application) : Application :=
  let s := call EvDriverFrame s in
  let s := call EvBeginFrame s in
  let s := fold_left (fun s v => call (EvViewFrame v) s) (rev (viewsToDraw s)) s in
  let s := if framerateCounter s then call EvFramerateCounterFrame s else s in
  let s := call EvNotificationFrame s in
  call EvEndFrame s.

Definition clear (s : Application) : Application :=
  let s := fold_left (fun s v => call (EvDelete v) (call (EvWillDisappear v true) s))
             (viewStack s) s in
  set_viewStack [] s.

Definition exit (s : Application) : Application :=
  let s := clear s in
  let s := call EvDriverExit s in
  call EvAnimationFree s.

(** *** Frame-rate cap *)

Definition setMaximumFPS (fps : Z) (s : Application) : Application :=
  if fps =? 0 then set_frameTime float_zero s
  else set_frameTime (float_div (float_of_Z 1000) (float_of_Z fps)) s.

(** [(retro_time_t)(Application::frameTime * 1000)], in microseconds. *)
Definition frameBudget (s : Application) : Z :=
  float_to_long (float_mul (frameTime s) (float_of_Z 1000)).

(** The "Sleep if necessary" block at the end of [mainLoop]. *)
Definition sleepIfNecessary (frameStart now : Z) (s : Application) : Application :=
  if float_gt (frameTime s) float_zero then
    let currentFrameTime := now - frameStart in
    let frameTime := frameBudget s in
    if frameTime >? currentFrameTime
    then call (EvSleep (frameTime - currentFrameTime)) s
    else s
  else s.

(** *** mainLoop *)

(** What one iteration reads from outside: the four clock readings it
    may take, the outcome of the driver's poll, and the animations the
    engine finishes during [menu_animation_update]. *)
Record FrameInput := mkFrameInput {
  clockStart : Z;
  clockRepeatTest : Z;
  clockRepeatSet : Z;
  clockEnd : Z;
  pollOk : bool;
  polled : Z;
  finished : list Callback
}.

(** The "Trigger gamepad events" block. *)
Definition triggerGamepadEvents (s : Application) : Application :=
  let kDown := Driver.keysDown (platformDriver s) in
  let kHeld := Driver.keysHeld (platformDriver s) in
  if negb (kHeld =? 0) then
    let repeating := (repeatingButtonTimer s >? BUTTON_REPEAT_DELAY)
                     && (Z.rem (repeatingButtonTimer s) BUTTON_REPEAT_CADENCY =? 0) in
    if negb (kDown =? 0) || repeating
    then onGamepadButtonPressed kHeld repeating s
    else s
  else s.

Definition updateRepeatTimer (inp : FrameInput) (anyButtonPressed : bool)
  (s : Application) : Application :=
  let s := if Driver.haveKeyStatesChanged (platformDriver s)
           then set_repeatTimers 0 0 s else s in
  if anyButtonPressed && (clockRepeatTest inp - buttonPressTime s >? 1000)
  then set_repeatTimers (clockRepeatSet inp) (repeatingButtonTimer s + 1) s
  else s.

Fixpoint runCallbacks (cbs : list Callback) (s : Application) : option Application :=
  match cbs with
  | [] => Some s
  | cb :: rest => s' <- runCallback cb s ;; runCallbacks rest s'
  end.

(** One iteration from the driver's successful poll down to
    [swapBuffers]. *)
Definition mainLoopWork (inp : FrameInput) (s : Application)
  : option Application :=
  let s := set_platformDriver (Driver.update (polled inp) (platformDriver s)) s in
  let anyButtonPressed := negb (Driver.keysHeld (platformDriver s) =? 0) in
  let s := triggerGamepadEvents s in
  let s := updateRepeatTimer inp anyButtonPressed s in
  s <- runCallbacks (finished inp) (call EvAnimationUpdate s) ;;
  let s := call EvTaskFrame s in
  let s := frame s in
  Some (call EvSwapBuffers s).

Definition mainLoop (inp : FrameInput) (s : Application)
  : option (bool * Application) :=
  let frameStart := if float_gt (frameTime s) float_zero
                    then clockStart inp else 0 in
  if negb (pollOk inp) then Some (false, exit s)
  else
    s <- mainLoopWork inp s ;;
    Some (true, sleepIfNecessary frameStart (clockEnd inp) s).

(** *** Sequences of block and unblock calls *)




End Model.

Arguments Application W : clear implicits.

(** [Application::init], as far as the modelled state goes: null focus,
    empty stacks, no token, the default frame-rate cap. *)
Definition init {W : Type} {C : Collaborators W} (w : W) : Application W :=
  setMaximumFPS DEFAULT_FPS
    (mkApplication None None [] [] 0 float_zero false
       (mkPlatformDriver false 0 0) 0 0 w []).

(** ** Vocabulary of the properties *)

(** A listener invocation, as read off the trace. *)
Record Firing := mkFiring {
  owner : View;
  action : Action;
  verdict : bool
}.

Definition firingOf (e : Event) : option Firing :=
  match e with
  | EvActionListener o a v => Some (mkFiring o a v)
  | _ => None
  end.

Fixpoint firings (tr : list Event) : list Firing :=
  match tr with
  | [] => []
  | e :: rest =>
      match firingOf e with
      | Some x => x :: firings rest
      | None => firings rest
      end
  end.

(** The later invocation's node is the earlier one's node or one of its
    ancestors. *)
Definition focusFirst (x y : Firing) : Prop :=
  In (owner y) (chain (owner x)).

(** After an invocation that returned true, no action bound to the same
    key is invoked. *)
Definition consumedSkips (x y : Firing) : Prop :=
  verdict x = true -> key (action y) <> key (action x).

(** The action lists of the views do not change under the two steps a
    dispatch takes on the collaborators: the invocation of a listener
    and the resizing of the frame-rate overlay.  Any other step, the
    registering of an action among them, may change them. *)
Definition stableActions {W : Type} (C : Collaborators W) : Prop :=
  (forall node a verdict w v,
      getActions (perform (EvActionListener node a verdict) w) v
      = getActions w v)
  /\ (forall w v,
        getActions (perform EvResizeFramerateCounter w) v = getActions w v).

(** The events one dispatch appends to the trace. *)
Definition dispatchTrace {W : Type} {C : Collaborators W}
  (button : Z) (s : Application W) : list Event :=
  skipn (length (trace s)) (trace (snd (handleAction button s))).

(** The reading under which, of two available actions bound to one key at
    different depths, the farther one is never invoked. *)
Definition onlyClosestFires {W : Type} {C : Collaborators W}
  (button : Z) (s : Application W) : Prop :=
  forall focus near far aNear aFar,
    currentFocus s = Some focus ->
    In near (chain focus) -> In far (chain near) -> far <> near ->
    In aNear (getActions (world s) near) -> In aFar (getActions (world s) far) ->
    available aNear = true -> available aFar = true ->
    key aNear = key aFar -> intersects (key aNear) button = true ->
    forall v, ~ In (mkFiring far aFar v) (firings (dispatchTrace button s)).

(** Every ancestor step of the upward walk of [navigate] comes back empty. *)
Fixpoint walkExhausted {W : Type} {C : Collaborators W}
  (w : W) (direction : FocusDirection) (cur : View) : Prop :=
  match cur with
  | MkView _ None => True
  | MkView _ (Some parent) =>
      getNextFocus w parent direction (getParentUserData w cur) = None
      /\ walkExhausted w direction parent
  end.



(** The frame budget in microseconds that [mainLoop] derives from the
    frame time [setMaximumFPS fps] stores. *)
Definition capBudget (fps : Z) : Z :=
  float_to_long
    (float_mul (float_div (float_of_Z 1000) (float_of_Z fps)) (float_of_Z 1000)).

(** For this cap the stored frame time is positive and the budget is the
    whole number of microseconds in [1/fps] seconds. *)
Definition capIsExact (fps : Z) : bool :=
  float_gt (float_div (float_of_Z 1000) (float_of_Z fps)) float_zero
  && (capBudget fps =? 1000000 / fps).

Definition checkedCaps : list Z := map Z.of_nat (seq 1 (Z.to_nat 1000)).

(** The events appended between two states of one run. *)
Definition traceSince {W : Type} (before after : Application W) : list Event :=
  skipn (length (trace before)) (trace after).

(** The reading under which an iteration whose cost, in microseconds, is
    below [1000 / fps] milliseconds always sleeps. *)
Definition sleepsWhenUnderBudget {W : Type} {C : Collaborators W}
  (fps : Z) (inp : FrameInput) (s : Application W) : Prop :=
  (clockEnd inp - clockStart inp) * fps < 1000000 ->
  exists s' usec,
    mainLoop inp (setMaximumFPS fps s) = Some (true, s')
    /\ In (EvSleep usec) (traceSince (setMaximumFPS fps s) s').

(** The order of the completion path of a cross-fade pop as the
    description gives it: the callback is invoked before input is
    unblocked, whether or not the exposed view had to be shown. *)
Definition popFadeOrderAsDescribed (last newLast : View) (wasHidden : bool)
  (id : nat) : list Event :=
  [EvSetForceTranslucent last false; EvPopBack last; EvDelete last]
  ++ (if wasHidden
      then [EvWillAppear newLast false; EvShow newLast (UserCallback id) true FADE]
      else [])
  ++ [EvUserCallback id; EvUnblockInputs].

(** The order the code follows. *)
Definition popFadeOrder (last newLast : View) (wasHidden : bool)
  (id : nat) : list Event :=
  [EvSetForceTranslucent last false; EvPopBack last; EvDelete last]
  ++ (if wasHidden
      then [EvWillAppear newLast false; EvShow newLast (UserCallback id) true FADE]
      else [EvUserCallback id])
  ++ [EvUnblockInputs].

(** What a dispatch leaves alone: listeners act on the collaborators'
    world, on the quit flag and on the frame-rate overlay only. *)
Definition untouched {W : Type} (s s' : Application W) : Prop :=
  currentFocus s' = currentFocus s
  /\ repetitionOldFocus s' = repetitionOldFocus s
  /\ viewStack s' = viewStack s
  /\ focusStack s' = focusStack s
  /\ blockInputsTokens s' = blockInputsTokens s
  /\ frameTime s' = frameTime s.

(** The invariant of the two loops of [handleAction], with [s0] the state
    at entry, [focus] the focus at entry and [node] the node being
    visited: the consumed keys are the keys of the invocations that
    returned true, no invocation follows a true one on the same key,
    invocations go from the focus upwards, and only available actions
    matching the button, on nodes of the focus chain, were invoked. *)
Definition dispatchInv {W : Type} {C : Collaborators W} (button : Z)
  (s0 : Application W) (focus node : View) (acc : list Key * Application W)
  : Prop :=
  In node (chain focus)
  /\ exists tr,
    trace (snd acc) = trace s0 ++ tr
    /\ (forall x, In x (firings tr) -> verdict x = true ->
          consumedFind (key (action x)) (fst acc) = true)
    /\ (forall k, consumedFind k (fst acc) = true ->
          exists x, In x (firings tr) /\ verdict x = true /\ key (action x) = k)
    /\ ForallOrdPairs consumedSkips (firings tr)
    /\ ForallOrdPairs focusFirst (firings tr)
    /\ (forall x, In x (firings tr) ->
          In node (chain (owner x)) /\ In (owner x) (chain focus)
          /\ available (action x) = true
          /\ intersects (key (action x)) button = true)
    /\ untouched s0 (snd acc)
    /\ (stableActions C ->
        forall v, getActions (world (snd acc)) v = getActions (world s0) v).

(** An action has been dealt with: it was invoked, or its key is consumed. *)
Definition answered {W : Type} (s0 : Application W) (node : View) (a : Action)
  (acc : list Key * Application W) : Prop :=
  (exists v tr, trace (snd acc) = trace s0 ++ tr
                /\ In (mkFiring node a v) (firings tr))
  \/ consumedFind (key a) (fst acc) = true.

(** A push directly followed by a pop brings back the focus and the
    size of the focus stack. *)
Definition pushPopRestoresFocus {W : Type} {C : Collaborators W}
  (view : View) (animation animation' : ViewAnimation) (cb : Callback)
  (s : Application W) : Prop :=
  exists s1,
    pushView view animation s = Some s1
    /\ currentFocus (popView animation' cb s1) = currentFocus s
    /\ length (focusStack (popView animation' cb s1)) = length (focusStack s).

(** ** A concrete scene *)

Module Scene.

Definition root : View := MkView 0 None.
Definition item : View := MkView 1 (Some root).
Definition dialog : View := MkView 2 None.

Definition nearAction : Action := mkAction KEY_A "near" true false (UserListener 1).
Definition farAction : Action := mkAction KEY_A "far" true false (UserListener 0).

Definition actionsOf (v : View) : list Action :=
  match v with
  | MkView 0 _ => [farAction]
  | MkView 1 _ => [nearAction]
  | _ => []
  end.

(** The world of the scene: the identities of the views that are
    hidden.  As in the spec's view states, [hide] hides its view and
    [show] reveals it; the near listener answers [nearVerdict], every
    other listener true; the root designates [item] as its default
    focus; no view is translucent and no parent offers a next focus. *)
Definition scenePerform (e : Event) (w : list nat) : list nat :=
  match e with
  | EvHide (MkView i _) _ _ _ => i :: w
  | EvShow (MkView i _) _ _ _ => filter (fun j => negb (Nat.eqb i j)) w
  | _ => w
  end.

Definition collaborators (nearVerdict : bool) : Collaborators (list nat) :=
  {| perform := scenePerform;
     getDefaultFocus := fun _ v =>
       match v with MkView 0 _ => Some item | _ => Some v end;
     getNextFocus := fun _ _ _ _ => None;
     getParentUserData := fun _ _ => 0%nat;
     getActions := fun _ v => actionsOf v;
     isTranslucent := fun _ _ => false;
     isHidden := fun w v =>
       match v with MkView i _ => existsb (Nat.eqb i) w end;
     listenerVerdict := fun id _ =>
       match id with 1%nat => nearVerdict | _ => true end |}.

(** The focus is on [item], inside the only view of the stack. *)
Definition focused : Application (list nat) :=
  mkApplication (Some item) None [root] [] 0 float_zero false
    (mkPlatformDriver false 0 0) 0 0 [] [].

(** [dialog] on top of [root]; [root] was hidden when [dialog] was
    pushed over it, and [item] waits on the focus stack. *)
Definition twoViews : Application (list nat) :=
  mkApplication (Some dialog) None [root; dialog] [item] 0 float_zero false
    (mkPlatformDriver false 0 0) 0 0 [0%nat] [].

(** [root] pushed and shown, then [dialog] pushed with a cross-fade and
    both of its animations finished. *)
Definition afterTwoPushes : option (Application (list nat)) :=
  let C := collaborators true in
  s <- pushView (C := C) root FADE (init (C := C) []) ;;
  s <- runCallback (C := C) UnblockCallback s ;;
  s <- pushView (C := C) dialog FADE s ;;
  s <- runCallback (C := C) (PushHideDone FADE true) s ;;
  runCallback (C := C) UnblockCallback s.

End Scene.

(** ** A scene in which registering works *)

Module Registry.

Definition root : View := MkView 0 None.

Definition exitAction : Action :=
  mkAction KEY_PLUS "Exit" true false QuitListener.

(** The world: the actions registered so far, each with the identity of
    its view.  [registerAction] adds one; no other step changes them. *)
Definition registryPerform (e : Event) (w : list (nat * Action))
  : list (nat * Action) :=
  match e with
  | EvRegisterAction (MkView i _) hint k listener hiddenAction =>
      w ++ [(i, mkAction k hint true hiddenAction listener)]
  | _ => w
  end.

Definition registered (w : list (nat * Action)) (v : View) : list Action :=
  match v with
  | MkView i _ => map snd (filter (fun entry => Nat.eqb (fst entry) i) w)
  end.

Definition collaborators : Collaborators (list (nat * Action)) :=
  {| perform := registryPerform;
     getDefaultFocus := fun _ v => Some v;
     getNextFocus := fun _ _ _ _ => None;
     getParentUserData := fun _ _ => 0%nat;
     getActions := registered;
     isTranslucent := fun _ _ => false;
     isHidden := fun _ _ => false;
     listenerVerdict := fun _ _ => true |}.

(** [root] holds the focus and has had its exit action registered. *)
Definition focused : Application (list (nat * Action)) :=
  call (C := collaborators)
    (EvRegisterAction root "Exit" KEY_PLUS QuitListener false)
    (mkApplication (Some root) None [root] [] 0 float_zero false
       (mkPlatformDriver false 0 0) 0 0 [] []).

End Registry.

(** ** A scene in which a default focus moves *)

Module Shifting.

Definition root : View := MkView 0 None.
Definition menu : View := MkView 1 (Some root).
Definition entry : View := MkView 2 (Some menu).
Definition dialog : View := MkView 3 None.

(** The world: whether [menu] has lost the focus.  Until then [menu] is
    its own default focus; from then on it designates [entry]. *)
Definition shiftingPerform (e : Event) (w : bool) : bool :=
  match e with
  | EvOnFocusLost (MkView 1 _) => true
  | _ => w
  end.

Definition collaborators : Collaborators bool :=
  {| perform := shiftingPerform;
     getDefaultFocus := fun w v =>
       match v with
       | MkView 1 _ => if w then Some entry else Some v
       | _ => Some v
       end;
     getNextFocus := fun _ _ _ _ => None;
     getParentUserData := fun _ _ => 0%nat;
     getActions := fun _ _ => [];
     isTranslucent := fun _ _ => false;
     isHidden := fun _ _ => false;
     listenerVerdict := fun _ _ => true |}.

(** [menu] holds the focus, inside the only view of the stack. *)
Definition focused : Application bool :=
  mkApplication (Some menu) None [root] [] 0 float_zero false
    (mkPlatformDriver false 0 0) 0 0 false [].

End Shifting.

(** * The drivers, the content area and the scenes *)

(** ** The content area ([Application::onWindowSizeChanged]) *)

Module Window.

Definition WINDOW_WIDTH : Z := 1280.
Definition WINDOW_HEIGHT : Z := 720.

Definition uint_modulus : Z := 2 ^ 32.

(** [(unsigned)roundf(x)]: [roundf] rounds to the nearest whole number,
    halves away from zero.  [None]: the cast of a value that is not
    finite or not in the range of [unsigned]. *)
Definition roundf_to_unsigned (x : spec_float) : option Z :=
  match x with
  | S754_zero _ => Some 0
  | S754_finite sign m e =>
      let magnitude :=
        match e with
        | Zneg p => (Z.pos m + 2 ^ (Z.pos p - 1)) / 2 ^ Z.pos p
        | _ => Z.pos m * 2 ^ e
        end in
      let r := if sign then - magnitude else magnitude in
      if (0 <=? r) && (r <? uint_modulus) then Some r else None
  | _ => None
  end.

Record Sizes := mkSizes {
  windowScale : spec_float;
  contentWidth : Z;
  contentHeight : Z;
  windowWidth : Z;
  windowHeight : Z
}.

(** The five sizes [onWindowSizeChanged] stores, before it passes the
    content size to every view of the stack. *)
Definition onWindowSizeChanged (width height : Z) : option Sizes :=
  let windowScale := float_div (float_of_Z width) (float_of_Z WINDOW_WIDTH) in
  let contentHeight :=
    float_mul
      (float_div (float_of_Z height)
         (float_mul windowScale (float_of_Z WINDOW_HEIGHT)))
      (float_of_Z WINDOW_HEIGHT) in
  h <- roundf_to_unsigned contentHeight ;;
  Some (mkSizes windowScale WINDOW_WIDTH h width height).

(** The window of [k] times [a] by [b] gets a content area of 1280 by
    [1280 * b / a]. *)
Definition keepsAspect (a b k : Z) : bool :=
  match onWindowSizeChanged (a * k) (b * k) with
  | Some sizes =>
      (contentWidth sizes =? 1280) && (contentHeight sizes =? 1280 * b / a)
  | None => false
  end.

Definition checkedAspects : list (Z * Z) := [(16, 9); (16, 10); (4, 3)].

Definition checkedFactors : list Z := map Z.of_nat (seq 1 (Z.to_nat 300)).

End Window.

(** ** The desktop driver ([platform_driver_glfw.cpp]) *)

Module GLFW.

(** The fourteen entries of [GLFWgamepadstate::buttons] that [update]
    reads, each an [unsigned char]. *)
Record GamepadButtons := mkGamepadButtons {
  BUTTON_A : Z;
  BUTTON_B : Z;
  BUTTON_X : Z;
  BUTTON_Y : Z;
  BUTTON_LEFT_BUMPER : Z;
  BUTTON_RIGHT_BUMPER : Z;
  BUTTON_BACK : Z;
  BUTTON_START : Z;
  BUTTON_LEFT_THUMB : Z;
  BUTTON_RIGHT_THUMB : Z;
  BUTTON_DPAD_UP : Z;
  BUTTON_DPAD_RIGHT : Z;
  BUTTON_DPAD_DOWN : Z;
  BUTTON_DPAD_LEFT : Z
}.

(** [(!!button) * static_cast<unsigned short>(KEY)] *)
Definition pressed (button : Z) (k : Key) : Z :=
  (if button =? 0 then 0 else 1) * (k mod 65536).

(** The chain of [gamepadDown |= ...] statements, in the order of the
    source, starting from [gamepadDown = 0]. *)
Definition gamepadMask (g : GamepadButtons) : Z :=
  let m := 0 in
  let m := Z.lor m (pressed (BUTTON_DPAD_LEFT g) KEY_DLEFT) in
  let m := Z.lor m (pressed (BUTTON_DPAD_RIGHT g) KEY_DRIGHT) in
  let m := Z.lor m (pressed (BUTTON_DPAD_UP g) KEY_DUP) in
  let m := Z.lor m (pressed (BUTTON_DPAD_DOWN g) KEY_DDOWN) in
  let m := Z.lor m (pressed (BUTTON_START g) KEY_PLUS) in
  let m := Z.lor m (pressed (BUTTON_BACK g) KEY_MINUS) in
  let m := Z.lor m (pressed (BUTTON_A g) KEY_A) in
  let m := Z.lor m (pressed (BUTTON_B g) KEY_B) in
  let m := Z.lor m (pressed (BUTTON_X g) KEY_X) in
  let m := Z.lor m (pressed (BUTTON_Y g) KEY_Y) in
  let m := Z.lor m (pressed (BUTTON_LEFT_THUMB g) KEY_LSTICK) in
  let m := Z.lor m (pressed (BUTTON_RIGHT_THUMB g) KEY_RSTICK) in
  let m := Z.lor m (pressed (BUTTON_LEFT_BUMPER g) KEY_L) in
  Z.lor m (pressed (BUTTON_RIGHT_BUMPER g) KEY_R).

(** What one turn of the [do ... while (!is_active)] loop observes:
    whether the window is iconified when the turn starts, and whether a
    close has been requested once the turn has polled or waited for
    events. *)
Record Observation := mkObservation {
  iconified : bool;
  shouldClose : bool
}.

(** The event loop at the head of [update]: [Some false] when it returns
    false, [Some true] when it falls through to the gamepad code, [None]
    while the window stays iconified for all the turns observed. *)
Fixpoint waitActive (quit : bool) (turns : list Observation) : option bool :=
  match turns with
  | [] => None
  | turn :: later =>
      let is_active := negb (iconified turn) in
      if shouldClose turn || quit then Some false
      else if negb is_active then waitActive quit later
      else Some true
  end.

(** A turn that neither ends [update] nor leaves its loop while the quit
    flag is clear: the window is iconified and not asked to close. *)
Definition idle (turn : Observation) : bool :=
  iconified turn && negb (shouldClose turn).

(** The first turn that is not idle. *)
Definition firstDecisive (turns : list Observation) : option Observation :=
  find (fun turn => negb (idle turn)) turns.

(** [update].  [gamepad] is what [glfwGetGamepadState] delivered, if a
    gamepad is present; [keyboard] holds the state of the fourteen mapped
    keys, read with [glfwGetKey] when there is none. *)
Definition update (turns : list Observation) (gamepad : option GamepadButtons)
  (keyboard : GamepadButtons) (d : PlatformDriver)
  : option (bool * PlatformDriver) :=
  match waitActive (quitFlag d) turns with
  | None => None
  | Some false => Some (false, d)
  | Some true =>
      let buttons := match gamepad with
                     | Some g => g
                     | None => keyboard
                     end in
      Some (true, mkPlatformDriver (quitFlag d) (gamepadMask buttons)
                    (gamepadDown d))
  end.

(** The button that drives bit [i] of the mask. *)
Definition buttonOfBit (g : GamepadButtons) (i : Z) : Z :=
  if i =? 0 then BUTTON_A g
  else if i =? 1 then BUTTON_B g
  else if i =? 2 then BUTTON_X g
  else if i =? 3 then BUTTON_Y g
  else if i =? 4 then BUTTON_LEFT_THUMB g
  else if i =? 5 then BUTTON_RIGHT_THUMB g
  else if i =? 6 then BUTTON_LEFT_BUMPER g
  else if i =? 7 then BUTTON_RIGHT_BUMPER g
  else if i =? 8 then BUTTON_START g
  else if i =? 9 then BUTTON_BACK g
  else if i =? 10 then BUTTON_DPAD_LEFT g
  else if i =? 11 then BUTTON_DPAD_UP g
  else if i =? 12 then BUTTON_DPAD_RIGHT g
  else if i =? 13 then BUTTON_DPAD_DOWN g
  else 0.

(** What the framebuffer-size callback does with a size. *)
Inductive Resize :=
| Ignored
| Forwarded (sizes : option Window.Sizes).

(** [windowFramebufferSizeCallback]: the sizes are [int]s, passed on as
    [unsigned]. *)
Definition windowFramebufferSizeCallback (width height : Z) : Resize :=
  if (width =? 0) || (height =? 0) then Ignored
  else Forwarded (Window.onWindowSizeChanged (width mod Window.uint_modulus)
                    (height mod Window.uint_modulus)).

End GLFW.

(** ** The console driver ([platform_driver_dk.cpp]) *)

Module DK.

(** What one turn of the [do ... while (focused != Focused)] loop
    observes: the result of [appletMainLoop] and whether the applet
    callback has left the application focused. *)
Record Turn := mkTurn {
  appletMainLoop : bool;
  focused : bool
}.

Fixpoint waitFocused (quit : bool) (turns : list Turn) : option bool :=
  match turns with
  | [] => None
  | turn :: later =>
      if negb (appletMainLoop turn) || quit then Some false
      else if negb (focused turn) then waitFocused quit later
      else Some true
  end.

(** A turn that neither ends [update] nor leaves its loop while the quit
    flag is clear: [appletMainLoop] succeeds and the application is not
    focused. *)
Definition idle (turn : Turn) : bool :=
  appletMainLoop turn && negb (focused turn).

(** The first turn that is not idle. *)
Definition firstDecisive (turns : list Turn) : option Turn :=
  find (fun turn => negb (idle turn)) turns.

(** [update]; [held] is what [hidKeysHeld] returns. *)
Definition update (turns : list Turn) (held : Z) (d : PlatformDriver)
  : option (bool * PlatformDriver) :=
  match waitFocused (quitFlag d) turns with
  | None => None
  | Some false => Some (false, d)
  | Some true => Some (true, mkPlatformDriver (quitFlag d) held (gamepadDown d))
  end.

Inductive OperationMode := Handheld | Docked.

(** The framebuffer size [initialize] and the applet callback choose. *)
Definition framebufferSize (mode : OperationMode) : Z * Z :=
  match mode with
  | Docked => (1920, 1080)
  | Handheld => (1280, 720)
  end.

(** The call that ends [initialize] and the operation-mode branch of
    [AppletCallback]. *)
Definition onOperationMode (mode : OperationMode) : option Window.Sizes :=
  let '(width, height) := framebufferSize mode in
  Window.onWindowSizeChanged width height.

End DK.

(** ** The main loop over a driver *)

(** One iteration of [mainLoop] with the poll done by a driver's [update]:
    [clocks] and [animations] supply the clock readings and the finished
    animations, the driver the outcome of the poll. *)
Definition mainLoopOver {W : Type} {C : Collaborators W}
  (driverUpdate : PlatformDriver -> option (bool * PlatformDriver))
  (clocks : Z * Z * Z * Z) (animations : list Callback) (s : Application W)
  : option (bool * Application W) :=
  match driverUpdate (platformDriver s) with
  | None => None
  | Some (ok, d) =>
      let '(t0, t1, t2, t3) := clocks in
      mainLoop (mkFrameInput t0 t1 t2 t3 ok (gamepadDown d) animations) s
  end.

(** ** Vocabulary of the further properties *)

(** The quit flag, once set, is still set. *)
Definition quitKept {W : Type} (s s' : Application W) : Prop :=
  quitFlag (platformDriver s) = true -> quitFlag (platformDriver s') = true.

(** The completion callbacks handed to [show] and [hide], read off a
    trace in the order of the calls. *)
Fixpoint scheduled (t : list Event) : list Callback :=
  match t with
  | [] => []
  | EvShow _ cb _ _ :: rest => cb :: scheduled rest
  | EvHide _ cb _ _ :: rest => cb :: scheduled rest
  | _ :: rest => scheduled rest
  end.

(** One round of the animation engine: every completion callback handed
    to [show] and [hide] between [before] and [after] is invoked, in the
    order of the calls. *)
Definition completeRound {W : Type} {C : Collaborators W}
  (before after : Application W) : option (Application W) :=
  runCallbacks (scheduled (traceSince before after)) after.

(** The events of [giveFocus]. *)
Definition focusEvent (e : Event) : bool :=
  match e with
  | EvOnFocusLost _ | EvFocusChange _ | EvOnFocusGained _ => true
  | _ => false
  end.

Definition isShowOf (v : View) (e : Event) : bool :=
  match e with EvShow u _ _ _ => view_eqb u v | _ => false end.

Definition isDeleteOf (v : View) (e : Event) : bool :=
  match e with EvDelete u => view_eqb u v | _ => false end.

Definition isUserCallback (id : nat) (e : Event) : bool :=
  match e with EvUserCallback j => Nat.eqb j id | _ => false end.

Definition occurrences (p : Event -> bool) (t : list Event) : nat :=
  length (filter p t).

(** The two stacks in step: one saved focus for every view but the
    first. *)
Definition stacksAligned {W : Type} (s : Application W) : Prop :=
  length (viewStack s) = S (length (focusStack s))
  \/ (viewStack s = [] /\ focusStack s = []).

(** The calls [clear] makes on the views of a stack. *)
Definition teardown (views : list View) : list Event :=
  flat_map (fun v => [EvWillDisappear v true; EvDelete v]) views.

(** A scene with an overlay: [panel] is translucent, the views under it
    are not. *)
Module Overlay.

Definition base : View := MkView 0 None.
Definition middle : View := MkView 1 None.
Definition panel : View := MkView 2 None.

Definition collaborators : Collaborators unit :=
  {| perform := fun _ w => w;
     getDefaultFocus := fun _ v => Some v;
     getNextFocus := fun _ _ _ _ => None;
     getParentUserData := fun _ _ => 0%nat;
     getActions := fun _ _ => [];
     isTranslucent := fun _ v => match v with MkView 2 _ => true | _ => false end;
     isHidden := fun _ _ => false;
     listenerVerdict := fun _ _ => true |}.

Definition stacked : Application unit :=
  mkApplication (Some panel) None [base; middle; panel] [base; middle] 0
    float_zero true (mkPlatformDriver false 0 0) 0 0 tt [].

End Overlay.

(** What the repeat timer of [mainLoop] depends on: the driver's two
    snapshots and the two timers. *)
Definition inputState {W : Type} (s : Application W) : Z * Z * Z * Z :=
  (gamepadDown (platformDriver s), gamepadDownOld (platformDriver s),
   buttonPressTime s, repeatingButtonTimer s).

(** A scene to navigate: [cell] sits in [row], [row] and [sibling] in
    [container]; [row] offers no next focus, [container] offers
    [sibling]. *)
Module Grid.

Definition container : View := MkView 0 None.
Definition row : View := MkView 1 (Some container).
Definition cell : View := MkView 2 (Some row).
Definition sibling : View := MkView 3 (Some container).

Definition collaborators : Collaborators unit :=
  {| perform := fun _ w => w;
     getDefaultFocus := fun _ v => Some v;
     getNextFocus := fun _ parent _ _ =>
       match parent with MkView 0 _ => Some sibling | _ => None end;
     getParentUserData := fun _ _ => 0%nat;
     getActions := fun _ _ => [];
     isTranslucent := fun _ _ => false;
     isHidden := fun _ _ => false;
     listenerVerdict := fun _ _ => true |}.

Definition focused : Application unit :=
  mkApplication (Some cell) None [container] [] 0 float_zero false
    (mkPlatformDriver false 0 0) 0 0 tt [].

End Grid.

(** [KEY_A] has been held for twenty counts, [KEY_B] is newly pressed;
    the focus is where the last dispatch found it. *)
Definition secondPress : Application (list nat) :=
  mkApplication (Some Scene.item) (Some Scene.item) [Scene.root] [] 0
    float_zero false (mkPlatformDriver false (Z.lor KEY_A KEY_B) KEY_A)
    0 20 [] [].

(** [KEY_A] newly pressed, read 5000 microseconds after the start. *)
Definition firstPress : FrameInput :=
  mkFrameInput 0 5000 5000 0 true KEY_A [].

(** * Properties *)

(** ** Edge-triggered button queries *)

Lemma ulong_not_spec (x i : Z) :
  0 <= i ->
  Z.testbit (ulong_not x) i = (i <? ulong_bits) && negb (Z.testbit x i).
Proof.
  intros Hi. unfold ulong_not, ulong_modulus.
  destruct (Z.ltb_spec i ulong_bits) as [Hlt | Hge]; cbn [andb].
  - rewrite Z.mod_pow2_bits_low by lia. apply Z.lnot_spec; exact Hi.
  - apply Z.mod_pow2_bits_high. unfold ulong_bits in *. lia.
Qed.

Lemma ulong_high_bit (x i : Z) :
  0 <= x < ulong_modulus -> ulong_bits <= i -> Z.testbit x i = false.
Proof.
  intros Hx Hi. rewrite <- (Z.mod_small x ulong_modulus) by exact Hx.
  apply Z.mod_pow2_bits_high. unfold ulong_bits in *. lia.
Qed.

(** [cur & ~prev] on 64-bit values is the set difference of the bits. *)
Lemma land_ulong_not (cur prev : Z) :
  0 <= cur < ulong_modulus ->
  Z.land cur (ulong_not prev) = Z.ldiff cur prev.
Proof.
  intros Hcur. apply Z.bits_inj'. intros i Hi.
  rewrite Z.land_spec, Z.ldiff_spec, ulong_not_spec by exact Hi.
  destruct (Z.ltb_spec i ulong_bits) as [Hlt | Hge]; cbn [andb].
  - reflexivity.
  - rewrite (ulong_high_bit cur i Hcur Hge). reflexivity.
Qed.

Lemma keysDown_ldiff (d : PlatformDriver) :
  Driver.wellFormed d ->
  Driver.keysDown d = Z.ldiff (gamepadDown d) (gamepadDownOld d).
Proof.
  intros [Hcur _]. unfold Driver.keysDown.
  rewrite Z.land_comm. apply land_ulong_not; exact Hcur.
Qed.

Lemma keysUp_ldiff (d : PlatformDriver) :
  Driver.wellFormed d ->
  Driver.keysUp d = Z.ldiff (gamepadDownOld d) (gamepadDown d).
Proof.
  intros [_ Hold]. unfold Driver.keysUp. apply land_ulong_not; exact Hold.
Qed.

(** C5.  For two consecutive 64-bit snapshots, [keysDown] is current AND
    NOT previous, [keysUp] is previous AND NOT current, [keysHeld] is the
    current snapshot, and each bit position falls in exactly one of the
    classes newly-down, still-held, newly-up, neither, which are the four
    combinations of its previous and current value. *)
Theorem keys_edges_partition (d : PlatformDriver) :
  Driver.wellFormed d ->
  Driver.keysDown d = Z.ldiff (gamepadDown d) (gamepadDownOld d)
  /\ Driver.keysUp d = Z.ldiff (gamepadDownOld d) (gamepadDown d)
  /\ Driver.keysHeld d = gamepadDown d
  /\ forall i,
       let cur := Z.testbit (gamepadDown d) i in
       let prev := Z.testbit (gamepadDownOld d) i in
       Driver.classCount d i = 1%nat
       /\ Driver.newlyDown d i = cur && negb prev
       /\ Driver.stillHeld d i = cur && prev
       /\ Driver.newlyUp d i = prev && negb cur
       /\ Driver.neither d i = negb cur && negb prev.
Proof.
  intros Hwf.
  pose proof (keysDown_ldiff d Hwf) as Hdown.
  pose proof (keysUp_ldiff d Hwf) as Hup.
  repeat split; try assumption; try reflexivity;
    unfold Driver.classCount, Driver.newlyDown, Driver.stillHeld,
      Driver.newlyUp, Driver.neither, Driver.keysHeld;
    rewrite ?Hdown, ?Hup;
    (destruct (Z.neg_nonneg_cases i) as [Hneg | Hpos];
     [ rewrite !Z.testbit_neg_r by exact Hneg; reflexivity
     | rewrite ?Z.ldiff_spec;
       destruct (Z.testbit (gamepadDown d) i), (Z.testbit (gamepadDownOld d) i);
       reflexivity ]).
Qed.

(** C5 at the snapshots A|X then B|X. *)
Lemma keys_edges_partition_witness :
  let d := mkPlatformDriver false (Z.lor KEY_B KEY_X) (Z.lor KEY_A KEY_X) in
  Driver.keysDown d = KEY_B /\ Driver.keysUp d = KEY_A
  /\ Driver.keysHeld d = Z.lor KEY_B KEY_X
  /\ Driver.classCount d 2 = 1%nat.
Proof.
  intro d.
  assert (Hwf : Driver.wellFormed d) by (unfold Driver.wellFormed; cbn; lia).
  destruct (keys_edges_partition d Hwf) as (Hd & Hu & Hh & Hbits).
  split; [ | split; [ | split ] ].
  - rewrite Hd. reflexivity.
  - rewrite Hu. reflexivity.
  - exact Hh.
  - exact (proj1 (Hbits 2)).
Defined.

Section Properties.

Context {W : Type} {C : Collaborators W}.

(** ** Input-block tokens *)












(** ** popView on a single view *)

(** C4.  With exactly one view on the stack, [popView] returns the
    state it was given: view stack, current focus, focus stack and
    input-block counter are unchanged, and nothing is called. *)
Theorem popView_single_view_noop (animation : ViewAnimation) (cb : Callback)
  (s : Application W) :
  length (viewStack s) = 1%nat ->
  popView animation cb s = s
  /\ length (viewStack (popView animation cb s)) = length (viewStack s)
  /\ currentFocus (popView animation cb s) = currentFocus s
  /\ focusStack (popView animation cb s) = focusStack s
  /\ blockInputsTokens (popView animation cb s) = blockInputsTokens s.
Proof.
  intros Hlen.
  assert (Heq : popView animation cb s = s).
  { unfold popView. rewrite Hlen. reflexivity. }
  rewrite Heq. repeat split.
Qed.

(** ** Views and vectors *)

Lemma View_parent_ind (P : View -> Prop) :
  (forall i, P (MkView i None)) ->
  (forall i parent, P parent -> P (MkView i (Some parent))) ->
  forall v, P v.
Proof.
  intros Hroot Hstep. fix IH 1. intros [i [parent |]].
  - apply Hstep, IH.
  - apply Hroot.
Qed.

Lemma view_eqb_eq (a b : View) : view_eqb a b = true <-> a = b.
Proof.
  revert b. induction a as [i | i parent IH] using View_parent_ind;
    intros [j [q |]]; cbn [view_eqb]; rewrite andb_true_iff, Nat.eqb_eq.
  - split; [ intros [_ Hf]; discriminate | intros Heq; discriminate ].
  - split; [ intros [-> _]; reflexivity | intros Heq; injection Heq as ->; auto ].
  - rewrite IH. split.
    + intros [-> ->]. reflexivity.
    + intros Heq. injection Heq as -> ->. auto.
  - split; [ intros [_ Hf]; discriminate | intros Heq; discriminate ].
Qed.

Lemma focus_eqb_eq (a b : option View) : focus_eqb a b = true <-> a = b.
Proof.
  destruct a as [x |], b as [y |]; cbn [focus_eqb].
  - rewrite view_eqb_eq. split; [ intros ->; reflexivity | intros Heq; injection Heq; auto ].
  - split; discriminate.
  - split; discriminate.
  - split; reflexivity.
Qed.

Lemma back_snoc {A : Type} (l : list A) (x : A) : back (l ++ [x]) = Some x.
Proof.
  unfold back. rewrite length_app. cbn [length].
  replace (length l + 1 - 1)%nat with (length l) by lia.
  rewrite nth_error_app2 by lia. rewrite Nat.sub_diag. reflexivity.
Qed.

(** ** giveFocus *)

Lemma giveFocus_currentFocus (view : option View) (s : Application W) :
  currentFocus (giveFocus view s)
  = match view with
    | Some v => getDefaultFocus (world s) v
    | None => None
    end.
Proof.
  unfold giveFocus.
  destruct (focus_eqb (currentFocus s)
              (match view with
               | Some v => getDefaultFocus (world s) v
               | None => None
               end)) eqn:Heq; cbn [negb].
  - apply focus_eqb_eq. exact Heq.
  - destruct (match view with
              | Some v => getDefaultFocus (world s) v
              | None => None
              end); reflexivity.
Qed.

Lemma giveFocus_frame (view : option View) (s : Application W) :
  viewStack (giveFocus view s) = viewStack s
  /\ focusStack (giveFocus view s) = focusStack s
  /\ blockInputsTokens (giveFocus view s) = blockInputsTokens s
  /\ repetitionOldFocus (giveFocus view s) = repetitionOldFocus s
  /\ frameTime (giveFocus view s) = frameTime s.
Proof.
  unfold giveFocus.
  destruct (negb _); [ | repeat split ].
  destruct (match view with
            | Some v => getDefaultFocus (world s) v
            | None => None
            end), (currentFocus s); repeat split.
Qed.

(** ** navigate *)

Lemma findNextFocus_None_iff (w : W) (direction : FocusDirection) (cur : View) :
  findNextFocus w direction cur = None <-> walkExhausted w direction cur.
Proof.
  induction cur as [i | i parent IH] using View_parent_ind.
  - cbn. tauto.
  - cbn [findNextFocus walkExhausted].
    destruct (getNextFocus w parent direction
                (getParentUserData w (MkView i (Some parent)))) as [n |].
    + split; [ discriminate | intros [Hf _]; discriminate ].
    + cbn [hasParent getParent negb orb].
      destruct parent as [j [grand |]]; cbn [hasParent getParent negb].
      * rewrite IH. tauto.
      * cbn. tauto.
Qed.

(** C6.  [navigate] returns its state unchanged when there is no
    current focus or the focus has no parent; when every step of the
    upward walk comes back without a candidate, it asks the current
    focus to shake in the given direction, leaves the focus where it
    is, and returns; the focus changes only if the walk found a
    candidate. *)
Theorem navigate_dead_end (direction : FocusDirection) (s : Application W) :
  (currentFocus s = None -> navigate direction s = s)
  /\ (forall focus,
        currentFocus s = Some focus -> hasParent focus = false ->
        navigate direction s = s)
  /\ (forall focus,
        currentFocus s = Some focus -> hasParent focus = true ->
        walkExhausted (world s) direction focus ->
        navigate direction s = call (EvShakeHighlight focus direction) s
        /\ currentFocus (navigate direction s) = currentFocus s
        /\ trace (navigate direction s)
           = trace s ++ [EvShakeHighlight focus direction])
  /\ (currentFocus (navigate direction s) <> currentFocus s ->
      exists focus candidate,
        currentFocus s = Some focus /\ hasParent focus = true
        /\ findNextFocus (world s) direction focus = Some candidate
        /\ ~ walkExhausted (world s) direction focus).
Proof.
  split; [ | split; [ | split ] ].
  - intros Hnone. unfold navigate. rewrite Hnone. reflexivity.
  - intros focus Hfocus Hroot. unfold navigate. rewrite Hfocus, Hroot. reflexivity.
  - intros focus Hfocus Hparent Hwalk.
    apply findNextFocus_None_iff in Hwalk.
    assert (Heq : navigate direction s = call (EvShakeHighlight focus direction) s).
    { unfold navigate. rewrite Hfocus, Hparent, Hwalk. reflexivity. }
    rewrite Heq. repeat split.
  - intros Hchanged. unfold navigate in Hchanged.
    destruct (currentFocus s) as [focus |] eqn:Hfocus; [ | congruence ].
    destruct (hasParent focus) eqn:Hparent; cbn [negb] in Hchanged; [ | congruence ].
    destruct (findNextFocus (world s) direction focus) as [candidate |] eqn:Hfind.
    + exists focus, candidate. repeat split; try assumption.
      intros Hwalk. apply findNextFocus_None_iff in Hwalk. congruence.
    + cbn in Hchanged. congruence.
Qed.

(** ** pushView then popView *)

Lemma pushViewAnimate_frame (view : View) (animation : ViewAnimation)
  (s : Application W) :
  viewStack (pushViewAnimate view animation s) = viewStack s
  /\ focusStack (pushViewAnimate view animation s) = focusStack s
  /\ currentFocus (pushViewAnimate view animation s) = currentFocus s
  /\ blockInputsTokens (pushViewAnimate view animation s)
     = blockInputsTokens s + 1.
Proof.
  unfold pushViewAnimate. cbv zeta.
  destruct (back (viewStack (blockInputs s))) as [l |];
    destruct (isFade animation);
    try destruct (negb (isTranslucent (world (blockInputs s)) l)
                  && negb (isTranslucent (world (blockInputs s)) view));
    repeat split.
Qed.

Lemma popViewAnimate_frame (animation : ViewAnimation) (cb : Callback)
  (s : Application W) :
  viewStack (popViewAnimate animation cb s) = viewStack s
  /\ focusStack (popViewAnimate animation cb s) = focusStack s
  /\ currentFocus (popViewAnimate animation cb s) = currentFocus s
  /\ blockInputsTokens (popViewAnimate animation cb s)
     = blockInputsTokens s + 1.
Proof.
  unfold popViewAnimate. cbv zeta.
  destruct (back (viewStack (blockInputs s))) as [last |]; [ | repeat split ].
  destruct (negb (isFade animation) && _); [ | repeat split ].
  destruct (nth_error _ _); repeat split.
Qed.

Lemma popViewFocus_restores (s : Application W) (below : list View) (focus : View) :
  focusStack s = below ++ [focus] ->
  focusStack (popViewFocus s) = below
  /\ currentFocus (popViewFocus s) = getDefaultFocus (world s) focus
  /\ viewStack (popViewFocus s) = viewStack s
  /\ blockInputsTokens (popViewFocus s) = blockInputsTokens s.
Proof.
  intros Hfs. unfold popViewFocus.
  rewrite Hfs, back_snoc, length_app. cbn [length].
  replace (0 <? length below + 1)%nat with true
    by (symmetry; apply Nat.ltb_lt; lia).
  cbv zeta. cbn [focusStack currentFocus viewStack blockInputsTokens set_focusStack].
  destruct (giveFocus_frame (Some focus) s) as (Hv & Hf & Ht & _).
  rewrite Hf, Hfs, removelast_last, giveFocus_currentFocus, Hv, Ht.
  repeat split.
Qed.

Lemma pushView_stacks (view : View) (animation : ViewAnimation)
  (s : Application W) (focus : View) :
  viewStack s <> [] -> currentFocus s = Some focus ->
  exists s1,
    pushView view animation s = Some s1
    /\ viewStack s1 = viewStack s ++ [view]
    /\ focusStack s1 = focusStack s ++ [focus]
    /\ blockInputsTokens s1 = blockInputsTokens s + 1.
Proof.
  intros Hne Hfocus. unfold pushView. cbv zeta.
  destruct (pushViewAnimate_frame view animation s) as (Hv & Hf & Hc & Ht).
  unfold pushViewFocus. rewrite Hv, Hc, Hfocus.
  destruct (viewStack s) as [| top rest] eqn:Hvs; [ contradiction | ].
  cbn [length Nat.ltb Nat.leb bind].
  eexists. split; [ reflexivity | ].
  cbn [viewStack focusStack blockInputsTokens set_viewStack].
  match goal with
  | |- context [giveFocus ?v ?st] =>
      destruct (giveFocus_frame v st) as (Hv' & Hf' & Ht' & _)
  end.
  rewrite Hv', Hf', Ht'. cbn. rewrite Hv, Hf, Ht. repeat split.
Qed.

(** C2, as the code has it.  When the view stack is not empty and a node
    holds the focus, [pushView] returns, and a [popView] right after it,
    with no animation completed in between, leaves the focus stack as it
    was before the push and gives the focus to the default focus that the
    node which held the focus before the push has at that time.  So the
    focus is back on that node exactly when the node is then its own
    default focus; it is when the node is its own default focus whatever
    the state of the views. *)
Theorem pushView_popView_restores_focus
  (view : View) (animation animation' : ViewAnimation) (cb : Callback)
  (s : Application W) (focus : View) :
  viewStack s <> [] ->
  currentFocus s = Some focus ->
  exists s1,
    pushView view animation s = Some s1
    /\ focusStack (popView animation' cb s1) = focusStack s
    /\ currentFocus (popView animation' cb s1)
       = getDefaultFocus (world (popViewAnimate animation' cb s1)) focus
    /\ (pushPopRestoresFocus view animation animation' cb s
        <-> getDefaultFocus (world (popViewAnimate animation' cb s1)) focus
            = Some focus)
    /\ ((forall w, getDefaultFocus w focus = Some focus) ->
        pushPopRestoresFocus view animation animation' cb s).
Proof.
  intros Hne Hfocus.
  destruct (pushView_stacks view animation s focus Hne Hfocus)
    as (s1 & Hpush & Hvs & Hfs & _).
  assert (Hpop : currentFocus (popView animation' cb s1)
                 = getDefaultFocus (world (popViewAnimate animation' cb s1)) focus
                 /\ focusStack (popView animation' cb s1) = focusStack s).
  { unfold popView.
    destruct (Nat.leb_spec (length (viewStack s1)) 1) as [Hle | Hgt].
    - rewrite Hvs, length_app in Hle. cbn [length] in Hle.
      destruct (viewStack s); [ contradiction | cbn [length] in Hle; lia ].
    - destruct (popViewAnimate_frame animation' cb s1) as (_ & Hf & _).
      rewrite Hfs in Hf.
      destruct (popViewFocus_restores _ _ _ Hf) as (Hstack & Hcur & _).
      rewrite Hstack, Hcur. split; reflexivity. }
  destruct Hpop as (Hcur & Hstack).
  assert (Hiff : pushPopRestoresFocus view animation animation' cb s
                 <-> getDefaultFocus (world (popViewAnimate animation' cb s1)) focus
                     = Some focus).
  { split.
    - intros (s1' & Hpush' & Hcur' & _).
      rewrite Hpush in Hpush'. injection Hpush' as <-.
      rewrite <- Hcur, Hcur'. exact Hfocus.
    - intros Hdefault. exists s1.
      rewrite Hcur, Hstack, Hdefault, Hfocus. repeat split. exact Hpush. }
  exists s1.
  split; [ exact Hpush | ].
  split; [ exact Hstack | ].
  split; [ exact Hcur | ].
  split; [ exact Hiff | ].
  intros Hdefault. apply Hiff. apply Hdefault.
Qed.

(** ** The completion of a cross-fade pop *)

Lemma skipn_length_app {A : Type} (a b : list A) :
  skipn (length a) (a ++ b) = b.
Proof. induction a as [| x a IH]; [ reflexivity | exact IH ]. Qed.

Lemma giveFocus_trace (view : option View) (s : Application W) :
  exists events, trace (giveFocus view s) = trace s ++ events.
Proof.
  unfold giveFocus.
  destruct (negb _); [ | exists []; symmetry; apply app_nil_r ].
  destruct (match view with
            | Some v => getDefaultFocus (world s) v
            | None => None
            end), (currentFocus s); cbn; rewrite <- ?app_assoc;
    eexists; reflexivity.
Qed.

Lemma popViewFocus_frame (s : Application W) :
  viewStack (popViewFocus s) = viewStack s
  /\ blockInputsTokens (popViewFocus s) = blockInputsTokens s
  /\ exists events, trace (popViewFocus s) = trace s ++ events.
Proof.
  unfold popViewFocus.
  destruct (0 <? length (focusStack s))%nat;
    [ | repeat split; exists []; symmetry; apply app_nil_r ].
  destruct (back (focusStack s)) as [newFocus |];
    [ | repeat split; exists []; symmetry; apply app_nil_r ].
  cbv zeta. cbn [viewStack blockInputsTokens trace set_focusStack].
  destruct (giveFocus_frame (Some newFocus) s) as (Hv & _ & Ht & _).
  repeat split; try assumption. apply giveFocus_trace.
Qed.

(** C7, as the code has it.  After [popView] with the cross-fade
    animation on a stack of at least two views, the hide of the top
    view has been started with its completion closure.  When that
    closure runs it clears the popped view's force-translucent flag,
    removes it from the stack and destroys it; then, if the exposed
    view is hidden, it starts that view's show animation with the
    caller's callback as the animation's completion and unblocks input
    without having invoked the callback; if the exposed view is shown
    already, it invokes the callback and then unblocks input. *)
Theorem popView_fade_completion_order (id : nat) (s : Application W)
  (below : list View) (newLast last : View) :
  viewStack s = below ++ [newLast; last] ->
  let cb := UserCallback id in
  let completion := PopHideDone last FADE true cb in
  let s1 := popView FADE cb s in
  (exists focusEvents,
      trace s1 = trace s
                 ++ [EvBlockInputs; EvWillDisappear last true;
                     EvSetForceTranslucent last true;
                     EvHide last completion true FADE]
                 ++ focusEvents)
  /\ exists s2,
       runCallback completion s1 = Some s2
       /\ viewStack s2 = below ++ [newLast]
       /\ let wasHidden :=
            isHidden (perform (EvDelete last)
                        (perform (EvSetForceTranslucent last false) (world s1)))
              newLast in
          trace s2 = trace s1 ++ popFadeOrder last newLast wasHidden id
          /\ traceSince s1 s2 = popFadeOrder last newLast wasHidden id.
Proof.
  intros Hvs cb completion s1.
  assert (Hback : back (viewStack s) = Some last).
  { rewrite Hvs. change [newLast; last] with ([newLast] ++ [last]).
    rewrite app_assoc. apply back_snoc. }
  assert (Hanim : popViewAnimate FADE cb s
                  = call (EvHide last completion true FADE)
                      (call (EvSetForceTranslucent last true)
                         (call (EvWillDisappear last true) (blockInputs s)))).
  { unfold popViewAnimate. cbv zeta.
    change (viewStack (blockInputs s)) with (viewStack s).
    rewrite Hback. reflexivity. }
  assert (Hs1 : s1 = popViewFocus (popViewAnimate FADE cb s)).
  { subst s1. unfold popView. rewrite Hvs, length_app. cbn [length].
    destruct (Nat.leb_spec (length below + 2) 1); [ lia | reflexivity ]. }
  destruct (popViewFocus_frame (popViewAnimate FADE cb s))
    as (Hv1 & _ & focusEvents & Htr1).
  rewrite <- Hs1 in Hv1, Htr1.
  rewrite Hanim in Hv1, Htr1. cbn [viewStack trace call blockInputs note
    set_blockInputsTokens] in Hv1, Htr1.
  split.
  - exists focusEvents. rewrite Htr1, <- !app_assoc. reflexivity.
  - clearbody s1. clear Hs1 Hanim.
    assert (Hback1 : back (viewStack s1) = Some last) by (rewrite Hv1; exact Hback).
    assert (Hrest : removelast (viewStack s1) = below ++ [newLast]).
    { rewrite Hv1, Hvs. change [newLast; last] with ([newLast] ++ [last]).
      rewrite app_assoc. apply removelast_last. }
    unfold completion. cbn [runCallback].
    change (viewStack (call (EvSetForceTranslucent last false) s1))
      with (viewStack s1).
    rewrite Hback1. cbn [bind]. cbv zeta.
    cbn [viewStack call note set_viewStack world trace].
    rewrite Hrest, length_app, back_snoc. cbn [length].
    replace (0 <? length below + 1)%nat with true
      by (symmetry; apply Nat.ltb_lt; lia).
    cbn [andb bind].
    destruct (isHidden (perform (EvDelete last)
                          (perform (EvSetForceTranslucent last false) (world s1)))
                newLast) eqn:Hhidden.
    + cbn [bind]. eexists. split; [ reflexivity | ].
      assert (Htrace : forall st : Application W, trace (unblockInputs st)
                       = trace st ++ [EvUnblockInputs]).
      { intros st. unfold unblockInputs. destruct (_ >? 0); reflexivity. }
      assert (Hstack : forall st : Application W, viewStack (unblockInputs st)
                       = viewStack st).
      { intros st. unfold unblockInputs. destruct (_ >? 0); reflexivity. }
      rewrite Hstack, Htrace. cbn [viewStack trace call note set_viewStack].
      split; [ reflexivity | ].
      split.
      * rewrite <- !app_assoc. reflexivity.
      * unfold traceSince. rewrite Htrace. cbn [trace call note set_viewStack].
        rewrite <- !app_assoc. rewrite skipn_length_app. reflexivity.
    + cbn [runCallback bind]. eexists. split; [ reflexivity | ].
      assert (Htrace : forall st : Application W, trace (unblockInputs st)
                       = trace st ++ [EvUnblockInputs]).
      { intros st. unfold unblockInputs. destruct (_ >? 0); reflexivity. }
      assert (Hstack : forall st : Application W, viewStack (unblockInputs st)
                       = viewStack st).
      { intros st. unfold unblockInputs. destruct (_ >? 0); reflexivity. }
      rewrite Hstack, Htrace. cbn [viewStack trace call note set_viewStack].
      split; [ reflexivity | ].
      split.
      * rewrite <- !app_assoc. reflexivity.
      * unfold traceSince. rewrite Htrace. cbn [trace call note set_viewStack].
        rewrite <- !app_assoc. rewrite skipn_length_app. reflexivity.
Qed.

(** ** handleAction *)

Lemma firings_app (a b : list Event) : firings (a ++ b) = firings a ++ firings b.
Proof.
  induction a as [| e a IH]; cbn [app firings].
  - reflexivity.
  - destruct (firingOf e); cbn [app]; rewrite IH; reflexivity.
Qed.

Lemma ForallOrdPairs_snoc {A : Type} (R : A -> A -> Prop) (l : list A) (y : A) :
  ForallOrdPairs R l -> Forall (fun x => R x y) l -> ForallOrdPairs R (l ++ [y]).
Proof.
  induction 1 as [| x l Hx Hl IH]; intros Hall; cbn [app].
  - constructor; constructor.
  - inversion Hall as [| ? ? Hxy Hrest]; subst. constructor.
    + apply Forall_app. split; [ exact Hx | constructor; [ exact Hxy | constructor ] ].
    + apply IH. exact Hrest.
Qed.

Lemma ForallOrdPairs_split {A : Type} (R : A -> A -> Prop) (pre post : list A) (x : A) :
  ForallOrdPairs R (pre ++ x :: post) -> Forall (R x) post.
Proof.
  induction pre as [| p pre IH]; cbn [app]; intros Hall;
    inversion Hall as [| ? ? Hhead Htail]; subst.
  - exact Hhead.
  - apply IH. exact Htail.
Qed.

Lemma chain_self (v : View) : In v (chain v).
Proof. destruct v as [i [p |]]; left; reflexivity. Qed.

Lemma chain_parent (i : nat) (p : View) : In p (chain (MkView i (Some p))).
Proof. right. apply chain_self. Qed.

Lemma chain_trans (a b c : View) :
  In a (chain b) -> In b (chain c) -> In a (chain c).
Proof.
  induction c as [i | i p IH] using View_parent_ind;
    cbn [chain]; intros Hab [Heq | Hin].
  - subst b. exact Hab.
  - contradiction.
  - subst b. exact Hab.
  - right. apply IH; assumption.
Qed.

Lemma chain_length (a b : View) :
  In a (chain b) ->
  a = b \/ (length (chain a) < length (chain b))%nat.
Proof.
  induction b as [i | i p IH] using View_parent_ind;
    cbn [chain]; intros [Heq | Hin].
  - left. symmetry. exact Heq.
  - contradiction.
  - left. symmetry. exact Heq.
  - right. cbn [length]. destruct (IH Hin) as [-> | Hlt]; lia.
Qed.

Lemma chain_antisym (a b : View) :
  In a (chain b) -> In b (chain a) -> a = b.
Proof.
  intros Hab Hba.
  destruct (chain_length a b Hab) as [Heq | Hlt]; [ exact Heq | ].
  destruct (chain_length b a Hba) as [Heq | Hlt']; [ symmetry; exact Heq | lia ].
Qed.

Lemma consumedFind_cons (k k' : Key) (c : list Key) :
  consumedFind k (k' :: c) = (k =? k') || consumedFind k c.
Proof. reflexivity. Qed.

Lemma untouched_refl (s : Application W) : untouched s s.
Proof. repeat split. Qed.

Lemma untouched_trans (a b c : Application W) :
  untouched a b -> untouched b c -> untouched a c.
Proof.
  unfold untouched. intros (H1 & H2 & H3 & H4 & H5 & H6) (K1 & K2 & K3 & K4 & K5 & K6).
  repeat split; congruence.
Qed.

(** A listener invocation appends its own event, possibly followed by
    events that are not invocations, and leaves the focus state alone. *)
Lemma runListener_shape (node : View) (a : Action) (s : Application W) :
  exists extra,
    trace (snd (runListener node a s))
    = trace s ++ EvActionListener node a (fst (runListener node a s)) :: extra
    /\ firings extra = []
    /\ untouched s (snd (runListener node a s))
    /\ (stableActions C ->
        forall v, getActions (world (snd (runListener node a s))) v
                  = getActions (world s) v).
Proof.
  unfold runListener. destruct (actionListener a) as [| | id]; cbn [fst snd].
  - exists []. repeat split. intros (Hlistener & _) v. apply Hlistener.
  - unfold toggleFramerateDisplay, setDisplayFramerate, resizeFramerateCounter.
    cbn [framerateCounter call].
    destruct (framerateCounter s); cbn [negb andb framerateCounter set_framerateCounter].
    + exists []. repeat split. intros (Hlistener & _) v. apply Hlistener.
    + exists [EvResizeFramerateCounter]. cbn [trace call set_framerateCounter].
      rewrite <- app_assoc. repeat split.
      intros (Hlistener & Hresize) v. cbn [world call set_framerateCounter].
      rewrite Hresize, Hlistener. reflexivity.
  - exists []. repeat split. intros (Hlistener & _) v. apply Hlistener.
Qed.

(** One turn of the inner loop either changes nothing or invokes the
    listener of an available, matching action whose key is not consumed. *)
Lemma actionStep_cases (button : Z) (node : View) (a : Action)
  (c : list Key) (s : Application W) :
  (actionStep button node (c, s) a = (c, s)
   /\ (intersects (key a) button = false \/ consumedFind (key a) c = true
       \/ available a = false))
  \/ (intersects (key a) button = true /\ consumedFind (key a) c = false
      /\ available a = true
      /\ exists (v : bool) (s' : Application W) (extra : list Event),
           actionStep button node (c, s) a
           = ((if v then key a :: c else c), s')
           /\ trace s' = trace s ++ EvActionListener node a v :: extra
           /\ firings extra = []
           /\ untouched s s'
           /\ (stableActions C ->
               forall w, getActions (world s') w = getActions (world s) w)).
Proof.
  unfold actionStep.
  destruct (intersects (key a) button) eqn:Hhit; cbn [negb]; [ | left; auto ].
  destruct (consumedFind (key a) c) eqn:Hfound; [ left; auto | ].
  destruct (available a) eqn:Havail; [ | left; auto ].
  right. do 3 (split; [ reflexivity | ]).
  destruct (runListener_shape node a s) as (extra & Htr & Hextra & Hsame & Hact).
  destruct (runListener node a s) as [v s'] eqn:Hrun. cbn [fst snd] in *.
  exists v, s', extra.
  split; [ unfold consumedInsert; rewrite Hfound; destruct v; reflexivity | ].
  split; [ exact Htr | ]. split; [ exact Hextra | ]. split; [ exact Hsame | exact Hact ].
Qed.

Lemma dispatchInv_start (button : Z) (s : Application W) (focus : View) :
  dispatchInv button s focus focus ([], s).
Proof.
  split; [ apply chain_self | ].
  exists []. cbn [fst snd firings].
  split; [ symmetry; apply app_nil_r | ].
  split; [ intros x [] | ].
  split; [ intros k Hk; discriminate Hk | ].
  split; [ constructor | ].
  split; [ constructor | ].
  split; [ intros x [] | ].
  split; [ apply untouched_refl | reflexivity ].
Qed.

Lemma actionStep_inv (button : Z) (s0 : Application W) (focus node : View)
  (acc : list Key * Application W) (a : Action) :
  dispatchInv button s0 focus node acc ->
  dispatchInv button s0 focus node (actionStep button node acc a).
Proof.
  destruct acc as [c s].
  intros (Hnode & tr & Htr & Hsound & Hcons & Hskip & Horder & Hprops & Hsame & Hact).
  cbn [fst snd] in *.
  destruct (actionStep_cases button node a c s)
    as [[-> _] | (Hhit & Hfound & Havail & v & s' & extra & -> & Htr' & Hextra & Hsame' & Hact')].
  - split; [ exact Hnode | ].
    exists tr. cbn [fst snd]. repeat (split; [ assumption | ]). assumption.
  - split; [ exact Hnode | ].
    exists (tr ++ EvActionListener node a v :: extra). cbn [fst snd].
    assert (Hf : firings (tr ++ EvActionListener node a v :: extra)
                 = firings tr ++ [mkFiring node a v]).
    { rewrite firings_app. cbn [firings firingOf]. rewrite Hextra. reflexivity. }
    rewrite Hf.
    split; [ rewrite Htr', Htr, app_assoc; reflexivity | ].
    split.
    { intros x Hin Hv. apply in_app_or in Hin. destruct Hin as [Hin | [<- | []]].
      - specialize (Hsound x Hin Hv).
        destruct v; [ rewrite consumedFind_cons, Hsound; apply orb_true_r | exact Hsound ].
      - cbn [verdict] in Hv. subst v. cbn [action].
        rewrite consumedFind_cons, Z.eqb_refl. reflexivity. }
    split.
    { assert (Hold : forall k, consumedFind k c = true ->
                exists x, In x (firings tr ++ [mkFiring node a v])
                          /\ verdict x = true /\ key (action x) = k).
      { intros k Hk. destruct (Hcons k Hk) as (x & Hin & Hv & Hkey).
        exists x. split; [ apply in_or_app; left; exact Hin | auto ]. }
      intros k Hk. destruct v; [ | apply Hold; exact Hk ].
      rewrite consumedFind_cons in Hk. apply orb_true_iff in Hk.
      destruct Hk as [Hk | Hk]; [ | apply Hold; exact Hk ].
      apply Z.eqb_eq in Hk. exists (mkFiring node a true).
      split; [ apply in_or_app; right; left; reflexivity | ].
      split; [ reflexivity | symmetry; exact Hk ]. }
    split.
    { apply ForallOrdPairs_snoc; [ exact Hskip | ].
      apply Forall_forall. intros y Hin Hv Heq. cbn [action] in Heq.
      specialize (Hsound y Hin Hv). rewrite <- Heq, Hfound in Hsound.
      discriminate Hsound. }
    split.
    { apply ForallOrdPairs_snoc; [ exact Horder | ].
      apply Forall_forall. intros y Hin. unfold focusFirst. cbn [owner].
      apply (Hprops y Hin). }
    split.
    { intros x Hin. apply in_app_or in Hin. destruct Hin as [Hin | [<- | []]].
      - apply Hprops. exact Hin.
      - cbn [owner action].
        split; [ apply chain_self | split; [ exact Hnode | split; assumption ] ]. }
    split; [ eapply untouched_trans; eassumption | ].
    intros Hstable w. rewrite Hact' by exact Hstable. apply Hact. exact Hstable.
Qed.

Lemma dispatchInv_parent (button : Z) (s0 : Application W) (focus : View)
  (i : nat) (parent : View) (acc : list Key * Application W) :
  dispatchInv button s0 focus (MkView i (Some parent)) acc ->
  dispatchInv button s0 focus parent acc.
Proof.
  intros (Hnode & tr & Htr & Hsound & Hcons & Hskip & Horder & Hprops & Hrest).
  split; [ eapply chain_trans; [ apply chain_parent | exact Hnode ] | ].
  exists tr. repeat (split; [ assumption | ]).
  split; [ | exact Hrest ].
  intros x Hin. destruct (Hprops x Hin) as (Habove & Hothers).
  split; [ | exact Hothers ].
  eapply chain_trans; [ apply chain_parent | exact Habove ].
Qed.

Lemma visitNode_inv (button : Z) (s0 : Application W) (focus node : View)
  (acc : list Key * Application W) :
  dispatchInv button s0 focus node acc ->
  dispatchInv button s0 focus node (visitNode button node acc).
Proof.
  unfold visitNode. generalize (getActions (world (snd acc)) node) as l.
  intros l. revert acc. induction l as [| a l IH]; intros acc Hinv; cbn [fold_left].
  - exact Hinv.
  - apply IH. apply actionStep_inv. exact Hinv.
Qed.

Lemma handleActionFrom_inv (button : Z) (s0 : Application W)
  (focus node : View) :
  forall acc,
    dispatchInv button s0 focus node acc ->
    exists top,
      dispatchInv button s0 focus top (handleActionFrom button node acc).
Proof.
  induction node as [i | i parent IH] using View_parent_ind;
    intros acc Hinv; cbn [handleActionFrom].
  - exists (MkView i None). apply visitNode_inv. exact Hinv.
  - apply IH. eapply dispatchInv_parent. apply visitNode_inv. exact Hinv.
Qed.

(** *** No available, matching action is passed over unless its key is
    consumed *)

Lemma actionStep_answered_mono (button : Z) (s0 : Application W)
  (node o : View) (a a' : Action) (acc : list Key * Application W) :
  answered s0 o a' acc -> answered s0 o a' (actionStep button node acc a).
Proof.
  destruct acc as [c s]. unfold answered. cbn [fst snd].
  destruct (actionStep_cases button node a c s)
    as [[-> _] | (_ & _ & _ & v & s' & extra & -> & Htr' & _)]; [ auto | ].
  cbn [fst snd]. intros [(v' & tr & Htr & Hin) | Hk].
  - left. exists v', (tr ++ EvActionListener node a v :: extra).
    split; [ rewrite Htr', Htr, app_assoc; reflexivity | ].
    rewrite firings_app. apply in_or_app. left. exact Hin.
  - right. destruct v; [ rewrite consumedFind_cons, Hk; apply orb_true_r | exact Hk ].
Qed.

Lemma fold_answered_mono (button : Z) (s0 : Application W)
  (node o : View) (a' : Action) (l : list Action) :
  forall acc,
    answered s0 o a' acc ->
    answered s0 o a' (fold_left (actionStep button node) l acc).
Proof.
  induction l as [| a l IH]; intros acc Hans; cbn [fold_left].
  - exact Hans.
  - apply IH. apply actionStep_answered_mono. exact Hans.
Qed.

Lemma handleActionFrom_answered_mono (button : Z) (s0 : Application W)
  (o : View) (a' : Action) (node : View) :
  forall acc,
    answered s0 o a' acc ->
    answered s0 o a' (handleActionFrom button node acc).
Proof.
  induction node as [i | i parent IH] using View_parent_ind;
    intros acc Hans; cbn [handleActionFrom]; unfold visitNode.
  - apply fold_answered_mono. exact Hans.
  - apply IH. apply fold_answered_mono. exact Hans.
Qed.

Lemma actionStep_answers (button : Z) (s0 : Application W) (focus node : View)
  (a : Action) (acc : list Key * Application W) :
  dispatchInv button s0 focus node acc ->
  available a = true -> intersects (key a) button = true ->
  answered s0 node a (actionStep button node acc a).
Proof.
  destruct acc as [c s]. intros (_ & tr & Htr & _) Havail Hhit. cbn [fst snd] in Htr.
  unfold answered.
  destruct (actionStep_cases button node a c s)
    as [[-> [Hno | [Hk | Hno]]] | (_ & _ & _ & v & s' & extra & -> & Htr' & _)];
    cbn [fst snd]; try congruence.
  - right. exact Hk.
  - left. exists v, (tr ++ EvActionListener node a v :: extra).
    split; [ rewrite Htr', Htr, app_assoc; reflexivity | ].
    rewrite firings_app. apply in_or_app. right. left. reflexivity.
Qed.

Lemma fold_answers (button : Z) (s0 : Application W) (focus node : View)
  (l : list Action) :
  forall acc,
    dispatchInv button s0 focus node acc ->
    forall a, In a l -> available a = true -> intersects (key a) button = true ->
    answered s0 node a (fold_left (actionStep button node) l acc).
Proof.
  induction l as [| a0 l IH]; intros acc Hinv a Hin Havail Hhit; cbn [fold_left].
  - destruct Hin.
  - destruct Hin as [-> | Hin].
    + apply fold_answered_mono. eapply actionStep_answers; eassumption.
    + apply IH; try assumption. apply actionStep_inv. exact Hinv.
Qed.

Lemma handleActionFrom_answers (button : Z) (s0 : Application W)
  (Hstable : stableActions C) (focus node : View) :
  forall acc,
    dispatchInv button s0 focus node acc ->
    forall o a,
      In o (chain node) -> In a (getActions (world s0) o) ->
      available a = true -> intersects (key a) button = true ->
      answered s0 o a (handleActionFrom button node acc).
Proof.
  induction node as [i | i parent IH] using View_parent_ind;
    intros acc Hinv o a Ho Ha Havail Hhit; cbn [handleActionFrom].
  - cbn [chain] in Ho. destruct Ho as [<- | []].
    unfold visitNode.
    assert (Hsame : getActions (world (snd acc)) (MkView i None)
                    = getActions (world s0) (MkView i None)).
    { destruct Hinv as (_ & tr & _ & _ & _ & _ & _ & _ & _ & Hact). apply Hact, Hstable. }
    rewrite Hsame. eapply fold_answers; eassumption.
  - cbn [chain] in Ho. destruct Ho as [<- | Ho].
    + apply handleActionFrom_answered_mono. unfold visitNode.
      assert (Hsame : getActions (world (snd acc)) (MkView i (Some parent))
                      = getActions (world s0) (MkView i (Some parent))).
      { destruct Hinv as (_ & tr & _ & _ & _ & _ & _ & _ & _ & Hact). apply Hact, Hstable. }
      rewrite Hsame. eapply fold_answers; eassumption.
    + apply IH; try assumption.
      eapply dispatchInv_parent. apply visitNode_inv. exact Hinv.
Qed.

Lemma handleAction_inv (button : Z) (s : Application W) (focus : View) :
  currentFocus s = Some focus ->
  exists c s' top,
    handleActionFrom button focus ([], s) = (c, s')
    /\ handleAction button s = (negb (consumedEmpty c), s')
    /\ dispatchInv button s focus top (c, s').
Proof.
  intros Hfocus.
  destruct (handleActionFrom_inv button s focus focus ([], s)
              (dispatchInv_start button s focus)) as (top & Hinv).
  destruct (handleActionFrom button focus ([], s)) as [c s'] eqn:Hrun.
  exists c, s', top. split; [ reflexivity | ]. split; [ | exact Hinv ].
  unfold handleAction. rewrite Hfocus, Hrun. reflexivity.
Qed.

Lemma ForallOrdPairs_and {A : Type} (R1 R2 : A -> A -> Prop) (l : list A) :
  ForallOrdPairs R1 l -> ForallOrdPairs R2 l ->
  ForallOrdPairs (fun x y => R1 x y /\ R2 x y) l.
Proof.
  induction 1 as [| x l Hx Hl IH]; intros H2.
  - constructor.
  - inversion H2 as [| ? ? Hx2 Hl2]; subst. constructor.
    + rewrite Forall_forall in *. intros y Hy. split; [ apply Hx | apply Hx2 ]; exact Hy.
    + apply IH. exact Hl2.
Qed.

(** Of two invocations on one key at different depths, the nearer one
    having returned true, the farther one cannot have happened. *)
Lemma nearer_true_excludes_farther (l : list Firing)
  (near far : View) (aNear aFar : Action) (v : bool) :
  ForallOrdPairs consumedSkips l -> ForallOrdPairs focusFirst l ->
  In far (chain near) -> far <> near -> key aFar = key aNear ->
  In (mkFiring near aNear true) l -> ~ In (mkFiring far aFar v) l.
Proof.
  intros Hskip Horder Habove Hdiff Hkey Hnear Hfar.
  destruct (ForallOrdPairs_In (ForallOrdPairs_and _ _ _ Hskip Horder)
              _ _ Hnear Hfar) as [Heq | [[Hs _] | [_ Ho]]].
  - injection Heq as Heq _ _. apply Hdiff. symmetry. exact Heq.
  - apply (Hs eq_refl). exact Hkey.
  - unfold focusFirst in Ho. cbn [owner] in Ho.
    apply Hdiff. apply chain_antisym; assumption.
Qed.

(** C1, as the code has it.  In one [handleAction] dispatch from a
    focused node: only available actions matching the button, on the
    focus or one of its ancestors, are invoked; when the two steps a
    dispatch takes on the collaborators, the invocation of a listener and
    the resizing of the frame-rate overlay, leave the action lists of the
    views as they are, every available action matching the button on the
    focus or one of its ancestors is invoked unless its key has been
    consumed by an invocation that returned true; after an invocation
    that returned true no action bound to the same key is invoked, on
    that node or any ancestor, so of two actions on one key at different
    depths the farther is not invoked once the nearer has returned true;
    and the dispatch returns true exactly when some invocation returned
    true. *)
Theorem handleAction_consumed_key (button : Z) (s : Application W) (focus : View) :
  currentFocus s = Some focus ->
  exists tr,
    trace (snd (handleAction button s)) = trace s ++ tr
    /\ dispatchTrace button s = tr
    /\ (forall x, In x (firings tr) ->
          In (owner x) (chain focus) /\ available (action x) = true
          /\ intersects (key (action x)) button = true)
    /\ (stableActions C ->
        forall node a,
          In node (chain focus) -> In a (getActions (world s) node) ->
          available a = true -> intersects (key a) button = true ->
          (exists v, In (mkFiring node a v) (firings tr))
          \/ (exists x, In x (firings tr) /\ verdict x = true
                        /\ key (action x) = key a))
    /\ ForallOrdPairs consumedSkips (firings tr)
    /\ (forall near far aNear aFar v,
          In far (chain near) -> far <> near -> key aFar = key aNear ->
          In (mkFiring near aNear true) (firings tr) ->
          ~ In (mkFiring far aFar v) (firings tr))
    /\ (fst (handleAction button s) = true
        <-> exists x, In x (firings tr) /\ verdict x = true).
Proof.
  intros Hfocus.
  destruct (handleAction_inv button s focus Hfocus)
    as (c & s' & top & Hrun & Hresult & Hinv).
  pose proof Hinv as (_ & tr & Htr & Hsound & Hcons & Hskip & Horder & Hprops & _).
  cbn [fst snd] in *.
  exists tr. rewrite Hresult. cbn [fst snd].
  split; [ exact Htr | ].
  split; [ unfold dispatchTrace; rewrite Hresult; cbn [snd]; rewrite Htr;
           apply skipn_length_app | ].
  split; [ intros x Hin; apply (Hprops x Hin) | ].
  split.
  { intros Hstable node a Hnode Ha Havail Hhit.
    pose proof (handleActionFrom_answers button s Hstable focus focus ([], s)
                  (dispatchInv_start button s focus) node a Hnode Ha Havail Hhit)
      as Hans.
    rewrite Hrun in Hans. destruct Hans as [(v & tr' & Htr' & Hin) | Hk].
    - left. exists v. cbn [snd] in Htr'. rewrite Htr in Htr'.
      apply app_inv_head in Htr'. subst tr'. exact Hin.
    - right. apply Hcons. exact Hk. }
  split; [ exact Hskip | ].
  split.
  { intros near far aNear aFar v.
    apply nearer_true_excludes_farther; assumption. }
  split.
  - intros Hret. destruct c as [| k c]; [ discriminate Hret | ].
    destruct (Hcons k) as (x & Hin & Hv & _).
    + rewrite consumedFind_cons, Z.eqb_refl. reflexivity.
    + exists x. split; assumption.
  - intros (x & Hin & Hv). specialize (Hsound x Hin Hv).
    destruct c; [ discriminate Hsound | reflexivity ].
Qed.

(** C8, as the code has it.  Within one [handleAction] dispatch the
    invocations go from the focus upwards: every invoked action sits on
    the focus or one of its ancestors, an invocation that comes later is
    on the same node as an earlier one or on one of its ancestors, and an
    ancestor's action is never invoked before one of a node nearer to the
    focus. *)
Theorem handleAction_focus_first (button : Z) (s : Application W) (focus : View) :
  currentFocus s = Some focus ->
  ForallOrdPairs focusFirst (firings (dispatchTrace button s))
  /\ (forall x, In x (firings (dispatchTrace button s)) ->
        In (owner x) (chain focus))
  /\ (forall pre x mid y post,
        firings (dispatchTrace button s) = pre ++ x :: mid ++ y :: post ->
        In (owner y) (chain (owner x)))
  /\ (forall pre x mid y post,
        firings (dispatchTrace button s) = pre ++ x :: mid ++ y :: post ->
        In (owner x) (chain (owner y)) -> owner x = owner y).
Proof.
  intros Hfocus.
  destruct (handleAction_inv button s focus Hfocus)
    as (c & s' & top & _ & Hresult & Hinv).
  destruct Hinv as (_ & tr & Htr & _ & _ & _ & Horder & Hprops & _).
  cbn [fst snd] in *.
  assert (Hdt : dispatchTrace button s = tr).
  { unfold dispatchTrace. rewrite Hresult. cbn [snd]. rewrite Htr.
    apply skipn_length_app. }
  rewrite Hdt.
  assert (Hpairs : forall pre x mid y post,
             firings tr = pre ++ x :: mid ++ y :: post ->
             In (owner y) (chain (owner x))).
  { intros pre x mid y post Heq. rewrite Heq in Horder.
    apply ForallOrdPairs_split in Horder. rewrite Forall_forall in Horder.
    apply Horder. apply in_or_app. right. left. reflexivity. }
  split; [ exact Horder | ].
  split; [ intros x Hin; apply (Hprops x Hin) | ].
  split; [ exact Hpairs | ].
  intros pre x mid y post Heq Hback.
  apply chain_antisym; [ exact Hback | ].
  eapply Hpairs. exact Heq.
Qed.

(** ** Repeats of a held button *)

Lemma handleAction_untouched (button : Z) (s : Application W) :
  untouched s (snd (handleAction button s)).
Proof.
  destruct (currentFocus s) as [focus |] eqn:Hfocus.
  - destruct (handleAction_inv button s focus Hfocus)
      as (c & s' & top & _ & -> & Hinv).
    destruct Hinv as (_ & tr & _ & _ & _ & _ & _ & _ & Hsame & _). exact Hsame.
  - unfold handleAction. rewrite Hfocus. apply untouched_refl.
Qed.

Lemma navigate_frame (direction : FocusDirection) (s : Application W) :
  repetitionOldFocus (navigate direction s) = repetitionOldFocus s
  /\ frameTime (navigate direction s) = frameTime s.
Proof.
  unfold navigate.
  destruct (currentFocus s) as [focus |]; [ | split; reflexivity ].
  destruct (negb (hasParent focus)); [ split; reflexivity | ].
  destruct (findNextFocus (world s) direction focus) as [nextFocus |];
    [ | split; reflexivity ].
  destruct (giveFocus_frame (Some nextFocus) s) as (_ & _ & _ & Hold & Hft).
  split; assumption.
Qed.

Lemma dispatchButton_frame (button : Z) (s : Application W) :
  repetitionOldFocus (dispatchButton button s) = currentFocus s
  /\ frameTime (dispatchButton button s) = frameTime s.
Proof.
  unfold dispatchButton.
  pose proof (handleAction_untouched button (set_repetitionOldFocus (currentFocus s) s))
    as (_ & Hold & _ & _ & _ & Hft).
  destruct (handleAction button (set_repetitionOldFocus (currentFocus s) s))
    as [consumed s'].
  cbn [snd repetitionOldFocus frameTime set_repetitionOldFocus] in Hold, Hft.
  destruct consumed; [ split; assumption | ].
  repeat match goal with
         | |- context [if ?b then _ else _] => destruct b
         end;
    try (split; assumption);
    match goal with
    | |- context [navigate ?d s'] =>
        destruct (navigate_frame d s') as (Hn & Hf); rewrite Hn, Hf; split; assumption
    end.
Qed.

Lemma repeat_is_suppressed (button : Z) (s : Application W) :
  repetitionOldFocus s = currentFocus s ->
  onGamepadButtonPressed button true s = s.
Proof.
  intros Heq. apply focus_eqb_eq in Heq. unfold onGamepadButtonPressed.
  rewrite Heq. destruct (negb (blockInputsTokens s =? 0)); reflexivity.
Qed.

(** C9.  A repeat call that finds the current focus equal to the focus
    recorded by the last dispatch that ran returns its state unchanged:
    no listener is invoked, nothing is navigated.  A call that is not
    suppressed runs the dispatch and records the focus it started from.
    So after any call that left the focus where it was, every further
    repeat is suppressed, and a frame in which a button is held and none
    is newly pressed dispatches nothing while the focus is the recorded
    one. *)
Theorem held_button_repeats (button : Z) (s : Application W) :
  (repetitionOldFocus s = currentFocus s ->
   onGamepadButtonPressed button true s = s
   /\ trace (onGamepadButtonPressed button true s) = trace s)
  /\ (forall repeating,
        blockInputsTokens s = 0 ->
        repeating = false \/ repetitionOldFocus s <> currentFocus s ->
        onGamepadButtonPressed button repeating s = dispatchButton button s
        /\ repetitionOldFocus (onGamepadButtonPressed button repeating s)
           = currentFocus s)
  /\ (forall repeating button',
        let s1 := onGamepadButtonPressed button repeating s in
        currentFocus s1 = currentFocus s ->
        onGamepadButtonPressed button' true s1 = s1)
  /\ (Driver.keysDown (platformDriver s) = 0 ->
      repetitionOldFocus s = currentFocus s ->
      triggerGamepadEvents s = s).
Proof.
  split; [ | split; [ | split ] ].
  - intros Heq. rewrite (repeat_is_suppressed button s Heq). split; reflexivity.
  - intros repeating Hzero Hrun.
    assert (Heq : onGamepadButtonPressed button repeating s = dispatchButton button s).
    { unfold onGamepadButtonPressed. rewrite Hzero. cbn [Z.eqb negb].
      destruct Hrun as [-> | Hdiff]; [ reflexivity | ].
      destruct (focus_eqb (repetitionOldFocus s) (currentFocus s)) eqn:Hcmp.
      - apply focus_eqb_eq in Hcmp. contradiction.
      - rewrite andb_false_r. reflexivity. }
    rewrite Heq. split; [ reflexivity | apply dispatchButton_frame ].
  - intros repeating button' s1 Hsame. subst s1.
    unfold onGamepadButtonPressed in *.
    destruct (negb (blockInputsTokens s =? 0)) eqn:Hblocked.
    + rewrite Hblocked. reflexivity.
    + destruct (repeating && focus_eqb (repetitionOldFocus s) (currentFocus s))
        eqn:Hguard.
      * rewrite Hblocked. apply andb_true_iff in Hguard. destruct Hguard as [_ ->].
        reflexivity.
      * fold (onGamepadButtonPressed button' true (dispatchButton button s)).
        apply repeat_is_suppressed.
        rewrite (proj1 (dispatchButton_frame button s)). symmetry. exact Hsame.
  - intros Hdown Hsame. unfold triggerGamepadEvents. rewrite Hdown.
    destruct (negb (Driver.keysHeld (platformDriver s) =? 0)); [ | reflexivity ].
    cbn [Z.eqb negb orb].
    destruct ((repeatingButtonTimer s >? BUTTON_REPEAT_DELAY)
              && (Z.rem (repeatingButtonTimer s) BUTTON_REPEAT_CADENCY =? 0));
      [ | reflexivity ].
    apply repeat_is_suppressed. exact Hsame.
Qed.

(** ** The frame-rate cap *)

Lemma frameTime_unblockInputs (s : Application W) :
  frameTime (unblockInputs s) = frameTime s.
Proof. unfold unblockInputs. destruct (_ >? 0); reflexivity. Qed.

Lemma frameTime_runCallback (cb : Callback) :
  forall s s' : Application W,
    runCallback cb s = Some s' -> frameTime s' = frameTime s.
Proof.
  induction cb as [id | | animation wait | last animation wait cb IH];
    intros s s' Hrun; cbn [runCallback] in Hrun.
  - injection Hrun as <-. reflexivity.
  - injection Hrun as <-. apply frameTime_unblockInputs.
  - destruct (back (viewStack s)) as [newLast |]; cbn [bind] in Hrun;
      [ | discriminate Hrun ].
    injection Hrun as <-. destruct wait; reflexivity.
  - change (viewStack (call (EvSetForceTranslucent last false) s))
      with (viewStack s) in Hrun.
    destruct (back (viewStack s)) as [popped |]; cbn [bind] in Hrun;
      [ | discriminate Hrun ].
    cbv zeta in Hrun.
    match type of Hrun with
    | bind ?m _ = _ => destruct m as [s1 |] eqn:Hm
    end; cbn [bind] in Hrun; [ | discriminate Hrun ].
    injection Hrun as <-. rewrite frameTime_unblockInputs.
    destruct (_ && wait) in Hm.
    + match type of Hm with
      | bind ?m _ = _ => destruct m as [newLast |]
      end; cbn [bind] in Hm; [ | discriminate Hm ].
      destruct (isHidden _ newLast) in Hm.
      * injection Hm as <-. reflexivity.
      * apply IH in Hm. rewrite Hm. reflexivity.
    + injection Hm as <-. reflexivity.
Qed.

Lemma frameTime_runCallbacks (cbs : list Callback) :
  forall s s' : Application W,
    runCallbacks cbs s = Some s' -> frameTime s' = frameTime s.
Proof.
  induction cbs as [| cb cbs IH]; intros s s' Hrun; cbn [runCallbacks] in Hrun.
  - injection Hrun as <-. reflexivity.
  - destruct (runCallback cb s) as [s1 |] eqn:Hcb; cbn [bind] in Hrun;
      [ | discriminate Hrun ].
    rewrite (IH _ _ Hrun). apply (frameTime_runCallback _ _ _ Hcb).
Qed.

Lemma frameTime_frame (s : Application W) : frameTime (frame s) = frameTime s.
Proof.
  unfold frame. cbv zeta.
  assert (Hfold : forall (l : list View) (st : Application W),
             frameTime (fold_left (fun s v => call (EvViewFrame v) s) l st)
             = frameTime st
             /\ framerateCounter (fold_left (fun s v => call (EvViewFrame v) s) l st)
                = framerateCounter st).
  { induction l as [| v l IH]; intros st; cbn [fold_left]; [ split; reflexivity | ].
    destruct (IH (call (EvViewFrame v) st)) as (H1 & H2). rewrite H1, H2.
    split; reflexivity. }
  match goal with
  | |- context [fold_left ?f ?l ?st] => destruct (Hfold l st) as (Hft & Hfc)
  end.
  destruct (framerateCounter _); cbn [frameTime call]; rewrite Hft; reflexivity.
Qed.

Lemma frameTime_triggerGamepadEvents (s : Application W) :
  frameTime (triggerGamepadEvents s) = frameTime s.
Proof.
  unfold triggerGamepadEvents, onGamepadButtonPressed.
  repeat match goal with
         | |- context [if ?b then _ else _] => destruct b
         end; try reflexivity; apply dispatchButton_frame.
Qed.

Lemma frameTime_mainLoopWork (inp : FrameInput) (s s' : Application W) :
  mainLoopWork inp s = Some s' -> frameTime s' = frameTime s.
Proof.
  unfold mainLoopWork. cbv zeta. intros Hwork.
  match type of Hwork with
  | bind ?m _ = _ => destruct m as [s1 |] eqn:Hcbs
  end; cbn [bind] in Hwork; [ | discriminate Hwork ].
  injection Hwork as <-. cbn [frameTime call]. rewrite frameTime_frame.
  cbn [frameTime call]. rewrite (frameTime_runCallbacks _ _ _ Hcbs).
  cbn [frameTime call]. unfold updateRepeatTimer.
  repeat match goal with
         | |- context [if ?b then _ else _] => destruct b
         end; cbn [frameTime set_repeatTimers];
    rewrite frameTime_triggerGamepadEvents; reflexivity.
Qed.

Lemma float_to_long_round_negative (mx ex : Z) (lx : location) :
  float_to_long (binary_round_aux float_prec float_emax true mx ex lx) <= 0.
Proof.
  unfold binary_round_aux.
  destruct (shr_fexp float_prec float_emax mx ex lx) as [mrs' e'].
  destruct (shr_fexp float_prec float_emax _ e' loc_Exact) as [mrs'' e''].
  destruct (shr_m mrs'') as [| m | m]; cbn [float_to_long]; try lia.
  destruct (Z.leb e'' (Z.sub float_emax float_prec)); cbn [float_to_long]; try lia.
  assert (Hnonneg : 0 <= match e'' with
                         | Z.neg p => Z.pos m / 2 ^ Z.pos p
                         | _ => Z.pos m * 2 ^ e''
                         end).
  { destruct e'' as [| p | p].
    - lia.
    - apply Z.mul_nonneg_nonneg; [ lia | apply Z.pow_nonneg; lia ].
    - apply Z.div_pos; [ lia | apply Z.pow_pos_nonneg; lia ]. }
  lia.
Qed.

(** A positive budget comes from a positive frame time. *)
Lemma capBudget_positive (fps : Z) :
  0 < capBudget fps ->
  float_gt (float_div (float_of_Z 1000) (float_of_Z fps)) float_zero = true.
Proof.
  unfold capBudget, float_mul.
  generalize (float_div (float_of_Z 1000) (float_of_Z fps)) as x. intros x.
  change (float_of_Z 1000) with (S754_finite false 16384000 (-14)).
  destruct x as [sgn | sgn | | sgn m e]; intros Hpos;
    cbn [SFmul float_to_long] in Hpos; try lia.
  destruct sgn; cbn [xorb] in Hpos.
  - pose proof (float_to_long_round_negative
                  (Z.pos (m * 16384000)) (e + -14) loc_Exact). lia.
  - reflexivity.
Qed.

Lemma checkedCaps_exact : forallb capIsExact checkedCaps = true.
Proof. vm_compute. reflexivity. Qed.

Lemma cap_in_range (fps : Z) :
  1 <= fps <= 1000 ->
  float_gt (float_div (float_of_Z 1000) (float_of_Z fps)) float_zero = true
  /\ capBudget fps = 1000000 / fps.
Proof.
  intros Hrange.
  assert (Hin : In fps checkedCaps).
  { unfold checkedCaps. apply in_map_iff. exists (Z.to_nat fps).
    split; [ lia | apply in_seq; lia ]. }
  pose proof (proj1 (forallb_forall capIsExact checkedCaps) checkedCaps_exact fps Hin)
    as Hexact.
  unfold capIsExact in Hexact. apply andb_true_iff in Hexact.
  destruct Hexact as (Hpos & Hbudget). apply Z.eqb_eq in Hbudget.
  split; assumption.
Qed.

Lemma sleepIfNecessary_capped (fps frameStart now : Z) (s : Application W) :
  1 <= fps <= 1000 ->
  frameTime s = float_div (float_of_Z 1000) (float_of_Z fps) ->
  sleepIfNecessary frameStart now s
  = if 1000000 / fps >? now - frameStart
    then call (EvSleep (1000000 / fps - (now - frameStart))) s
    else s.
Proof.
  intros Hrange Hcap. destruct (cap_in_range fps Hrange) as (Hpos & Hbudget).
  unfold sleepIfNecessary, frameBudget. rewrite Hcap, Hpos.
  fold (capBudget fps). rewrite Hbudget. reflexivity.
Qed.

(** C10, as the code has it.  After [setMaximumFPS 0] no iteration of the
    main loop sleeps.  After [setMaximumFPS fps] with [fps] not zero, an
    iteration that gets to its end, its measured cost a non-negative
    number of microseconds, sleeps exactly when this cost is below the
    budget, the frame time in microseconds truncated to a whole number,
    and then for the difference.  For [fps] between 1 and 1000 the budget
    is [1000000 / fps] rounded down; at 60 frames per second and a cost
    of 4000 microseconds the sleep is 12666 microseconds, and a cost of
    16666 microseconds, although below 1000/60 milliseconds, is followed
    by no sleep. *)
Theorem frame_cap_sleep (inp : FrameInput) (s s' : Application W) :
  mainLoop inp s = Some (true, s') ->
  exists work,
    mainLoopWork inp s = Some work
    /\ (frameTime s = float_zero -> s' = work)
    /\ (forall fps,
          fps <> 0 ->
          frameTime s = frameTime (setMaximumFPS fps s) ->
          let cost := clockEnd inp - clockStart inp in
          0 <= cost ->
          (cost < capBudget fps ->
           s' = call (EvSleep (capBudget fps - cost)) work)
          /\ (capBudget fps <= cost -> s' = work))
    /\ (forall fps,
          1 <= fps <= 1000 ->
          frameTime s = frameTime (setMaximumFPS fps s) ->
          let cost := clockEnd inp - clockStart inp in
          let budget := 1000000 / fps in
          (cost < budget -> s' = call (EvSleep (budget - cost)) work)
          /\ (budget <= cost -> s' = work)
          /\ (fps = 60 -> cost = 4000 -> s' = call (EvSleep 12666) work)
          /\ (fps = 60 -> cost = 16666 -> s' = work)).
Proof.
  unfold mainLoop. intros Hloop. cbv zeta in Hloop.
  destruct (negb (pollOk inp)); [ discriminate Hloop | ].
  destruct (mainLoopWork inp s) as [work |] eqn:Hwork; cbn [bind] in Hloop;
    [ | discriminate Hloop ].
  injection Hloop as <-. exists work. split; [ reflexivity | ].
  pose proof (frameTime_mainLoopWork inp s work Hwork) as Hft.
  split; [ | split ].
  - intros Hzero. unfold sleepIfNecessary. rewrite Hft, Hzero. reflexivity.
  - intros fps Hnz Hcap.
    set (cost := clockEnd inp - clockStart inp). intros Hcost.
    assert (Hset : frameTime (setMaximumFPS fps s)
                   = float_div (float_of_Z 1000) (float_of_Z fps)).
    { unfold setMaximumFPS. destruct (Z.eqb_spec fps 0); [ contradiction | reflexivity ]. }
    rewrite Hset in Hcap. unfold sleepIfNecessary, frameBudget.
    rewrite Hft, Hcap. fold (capBudget fps).
    pose proof (capBudget_positive fps) as Hpositive.
    destruct (float_gt (float_div (float_of_Z 1000) (float_of_Z fps)) float_zero).
    + fold cost. destruct (Z.gtb_spec (capBudget fps) cost);
        split; intros; (reflexivity || lia).
    + split; [ intros Hlt | reflexivity ].
      assert (Htrue : false = true) by (apply Hpositive; lia). discriminate Htrue.
  - intros fps Hrange Hcap.
    set (cost := clockEnd inp - clockStart inp).
    set (budget := 1000000 / fps).
    assert (Hset : frameTime (setMaximumFPS fps s)
                   = float_div (float_of_Z 1000) (float_of_Z fps)).
    { unfold setMaximumFPS. destruct (Z.eqb_spec fps 0); [ lia | reflexivity ]. }
    rewrite Hset in Hcap.
    destruct (cap_in_range fps Hrange) as (Hpos & _).
    rewrite Hcap, Hpos.
    rewrite (sleepIfNecessary_capped fps (clockStart inp) (clockEnd inp) work Hrange)
      by (rewrite Hft; exact Hcap).
    fold cost. fold budget.
    assert (Hcases : (cost < budget ->
                      (if budget >? cost then call (EvSleep (budget - cost)) work
                       else work) = call (EvSleep (budget - cost)) work)
                     /\ (budget <= cost ->
                         (if budget >? cost then call (EvSleep (budget - cost)) work
                          else work) = work)).
    { destruct (Z.gtb_spec budget cost); split; intros; (reflexivity || lia). }
    destruct Hcases as (Hsleep & Hnone).
    split; [ exact Hsleep | ]. split; [ exact Hnone | ]. split.
    + intros -> Hcost. rewrite Hsleep by (subst budget; rewrite Hcost; reflexivity).
      subst budget. rewrite Hcost. reflexivity.
    + intros -> Hcost. apply Hnone. subst budget. rewrite Hcost. discriminate.
Qed.

End Properties.


(** C4 on the scene's single-view stack. *)
Lemma popView_single_view_noop_witness :
  popView (C := Scene.collaborators true) FADE (UserCallback 0) Scene.focused
  = Scene.focused.
Proof.
  exact (proj1 (popView_single_view_noop (C := Scene.collaborators true)
                  FADE (UserCallback 0) Scene.focused eq_refl)).
Defined.

(** C6 on the scene: the focus sits on [item], whose parent offers no
    next focus. *)
Lemma navigate_dead_end_witness :
  let C := Scene.collaborators true in
  navigate (C := C) DOWN Scene.focused
  = call (C := C) (EvShakeHighlight Scene.item DOWN) Scene.focused
  /\ currentFocus (navigate (C := C) DOWN Scene.focused) = Some Scene.item.
Proof.
  intro C.
  destruct (navigate_dead_end (C := C) DOWN Scene.focused) as (_ & _ & Hshake & _).
  destruct (Hshake Scene.item eq_refl eq_refl (conj eq_refl I)) as (Heq & Hfocus & _).
  split; [ exact Heq | exact Hfocus ].
Defined.

(** C2 on the scene: [dialog] is pushed over [root] and popped at once. *)
Lemma pushView_popView_restores_focus_witness :
  pushPopRestoresFocus (C := Scene.collaborators true)
    Scene.dialog FADE FADE (UserCallback 0) Scene.focused.
Proof.
  destruct (pushView_popView_restores_focus (C := Scene.collaborators true)
              Scene.dialog FADE FADE (UserCallback 0) Scene.focused
              Scene.item ltac:(discriminate) eq_refl)
    as (s1 & _ & _ & _ & _ & Hrestored).
  apply Hrestored. intros w. reflexivity.
Defined.

(** C2 as stated fails in two ways.  On the first push: with an empty
    view stack [pushView] saves no focus and the [popView] that follows
    returns at its guard, so the focus stays on the pushed view's default
    focus.  And over a view whose focused node designates another node
    once it has lost the focus: the stack is not empty and the node is
    its own default focus before the push, yet [popView] gives the focus
    to the node it designates by then. *)
Lemma pushView_popView_focus_counterexample :
  ~ pushPopRestoresFocus (C := Scene.collaborators true)
      Scene.root FADE FADE (UserCallback 0)
      (init (C := Scene.collaborators true) [])
  /\ (viewStack Shifting.focused <> []
      /\ currentFocus Shifting.focused = Some Shifting.menu
      /\ getDefaultFocus (Collaborators := Shifting.collaborators)
           (world Shifting.focused) Shifting.menu = Some Shifting.menu
      /\ ~ pushPopRestoresFocus (C := Shifting.collaborators)
            Shifting.dialog FADE FADE (UserCallback 0) Shifting.focused).
Proof.
  split; [ | split; [ discriminate | split; [ reflexivity | split;
                                                [ reflexivity | ] ] ] ].
  - intros (s1 & Hpush & Hcur & _).
    vm_compute in Hpush. injection Hpush as <-.
    vm_compute in Hcur. discriminate Hcur.
  - intros (s1 & Hpush & Hcur & _).
    vm_compute in Hpush. injection Hpush as <-.
    vm_compute in Hcur. discriminate Hcur.
Qed.

(** C7 on the scene's two-view stack. *)
Lemma popView_fade_completion_order_witness :
  let C := Scene.collaborators true in
  let s1 := popView (C := C) FADE (UserCallback 7) Scene.twoViews in
  exists s2,
    runCallback (C := C) (PopHideDone Scene.dialog FADE true (UserCallback 7)) s1
    = Some s2
    /\ traceSince s1 s2 = popFadeOrder Scene.dialog Scene.root true 7.
Proof.
  intros C s1.
  destruct (popView_fade_completion_order (C := C) 7 Scene.twoViews []
              Scene.root Scene.dialog eq_refl) as (_ & s2 & Hrun & _ & _ & Hsince).
  exists s2. split; [ exact Hrun | exact Hsince ].
Defined.

(** C7 as stated fails after an ordinary push: [root] was hidden when
    [dialog] was pushed over it, so the completion of the pop starts
    [root]'s show animation with the callback as its completion and
    unblocks input; the callback has not been invoked by then. *)
Lemma popView_fade_callback_order_counterexample :
  let C := Scene.collaborators true in
  exists s s2,
    Scene.afterTwoPushes = Some s
    /\ viewStack s = [Scene.root; Scene.dialog]
    /\ runCallback (C := C) (PopHideDone Scene.dialog FADE true (UserCallback 7))
         (popView (C := C) FADE (UserCallback 7) s) = Some s2
    /\ traceSince (popView (C := C) FADE (UserCallback 7) s) s2
       = [EvSetForceTranslucent Scene.dialog false; EvPopBack Scene.dialog;
          EvDelete Scene.dialog; EvWillAppear Scene.root false;
          EvShow Scene.root (UserCallback 7) true FADE; EvUnblockInputs]
    /\ forall wasHidden,
         traceSince (popView (C := C) FADE (UserCallback 7) s) s2
         <> popFadeOrderAsDescribed Scene.dialog Scene.root wasHidden 7.
Proof.
  intro C. eexists. eexists.
  split; [ vm_compute; reflexivity | ].
  split; [ reflexivity | ].
  split; [ vm_compute; reflexivity | ].
  split; [ vm_compute; reflexivity | ].
  intros [|]; vm_compute; discriminate.
Qed.

Lemma scene_stableActions (nearVerdict : bool) :
  stableActions (Scene.collaborators nearVerdict).
Proof. split; intros; reflexivity. Qed.

Lemma registry_stableActions : stableActions Registry.collaborators.
Proof. split; intros; reflexivity. Qed.

(** C1 on the scenes: the near listener returns true, the far action on
    the same key is not invoked; and an action that was registered is
    invoked. *)
Lemma handleAction_consumed_key_witness :
  let C := Scene.collaborators true in
  (fst (handleAction (C := C) KEY_A Scene.focused) = true
   /\ ~ In (mkFiring Scene.root Scene.farAction true)
          (firings (dispatchTrace (C := C) KEY_A Scene.focused))
   /\ ((exists v, In (mkFiring Scene.root Scene.farAction v)
                    (firings (dispatchTrace (C := C) KEY_A Scene.focused)))
       \/ (exists x, In x (firings (dispatchTrace (C := C) KEY_A Scene.focused))
                     /\ verdict x = true /\ key (action x) = KEY_A)))
  /\ ((exists v, In (mkFiring Registry.root Registry.exitAction v)
                   (firings (dispatchTrace (C := Registry.collaborators)
                               KEY_PLUS Registry.focused)))
      \/ (exists x, In x (firings (dispatchTrace (C := Registry.collaborators)
                                     KEY_PLUS Registry.focused))
                    /\ verdict x = true /\ key (action x) = KEY_PLUS)).
Proof.
  intro C. split.
  - destruct (handleAction_consumed_key (C := C) KEY_A Scene.focused Scene.item
                eq_refl)
      as (tr & _ & Hdt & _ & Hcomplete & _ & Hfar & Hret).
    rewrite Hdt.
    assert (Hnear : In (mkFiring Scene.item Scene.nearAction true) (firings tr)).
    { rewrite <- Hdt. left. reflexivity. }
    split; [ | split ].
    + apply Hret. eexists. split; [ exact Hnear | reflexivity ].
    + apply (Hfar Scene.item Scene.root Scene.nearAction Scene.farAction true).
      * right. left. reflexivity.
      * discriminate.
      * reflexivity.
      * exact Hnear.
    + apply (Hcomplete (scene_stableActions true) Scene.root Scene.farAction).
      * right. left. reflexivity.
      * left. reflexivity.
      * reflexivity.
      * reflexivity.
  - destruct (handleAction_consumed_key (C := Registry.collaborators) KEY_PLUS
                Registry.focused Registry.root eq_refl)
      as (tr & _ & Hdt & _ & Hcomplete & _).
    rewrite Hdt.
    apply (Hcomplete registry_stableActions Registry.root Registry.exitAction).
    + left. reflexivity.
    + left. reflexivity.
    + reflexivity.
    + reflexivity.
Defined.

(** C1 as stated fails when the nearer listener returns false: its key
    is not consumed and the ancestor's action on the same key is invoked
    as well. *)
Lemma handleAction_both_fire_counterexample :
  ~ onlyClosestFires (C := Scene.collaborators false) KEY_A Scene.focused.
Proof.
  intros Hclaim.
  apply (Hclaim Scene.item Scene.item Scene.root Scene.nearAction Scene.farAction
           eq_refl (or_introl eq_refl) (or_intror (or_introl eq_refl))
           ltac:(discriminate) (or_introl eq_refl) (or_introl eq_refl)
           eq_refl eq_refl eq_refl eq_refl true).
  right. left. reflexivity.
Qed.

(** C8 on the scene: both listeners return, the near one first. *)
Lemma handleAction_focus_first_witness :
  let C := Scene.collaborators false in
  firings (dispatchTrace (C := C) KEY_A Scene.focused)
  = [mkFiring Scene.item Scene.nearAction false;
     mkFiring Scene.root Scene.farAction true]
  /\ In Scene.root (chain Scene.item).
Proof.
  intro C. split; [ reflexivity | ].
  exact (proj1 (proj2 (proj2 (handleAction_focus_first (C := C) KEY_A
                                Scene.focused Scene.item eq_refl)))
           [] (mkFiring Scene.item Scene.nearAction false) []
           (mkFiring Scene.root Scene.farAction true) [] eq_refl).
Defined.

(** C8 as stated fails: with an action on one key on the focus and on
    its parent, both returning true, the code invokes the one on the
    focus and never considers the parent's; the ancestor-first order would
    invoke the parent's. *)
Lemma handleAction_ancestor_first_counterexample :
  let C := Scene.collaborators true in
  trace (snd (handleAction (C := C) KEY_A Scene.focused))
  = [EvActionListener Scene.item Scene.nearAction true]
  /\ trace (snd (handleActionAncestorFirst (C := C) KEY_A Scene.focused))
     = [EvActionListener Scene.root Scene.farAction true]
  /\ handleAction (C := C) KEY_A Scene.focused
     <> handleActionAncestorFirst (C := C) KEY_A Scene.focused.
Proof.
  intro C. split; [ reflexivity | ]. split; [ reflexivity | ].
  intros Heq. apply (f_equal (fun r => trace (snd r))) in Heq.
  vm_compute in Heq. discriminate Heq.
Qed.

(** C9 on the scene: the recorded focus is the current one. *)
Lemma held_button_repeats_witness :
  let C := Scene.collaborators true in
  let s := set_repetitionOldFocus (Some Scene.item) Scene.focused in
  onGamepadButtonPressed (C := C) KEY_DDOWN true s = s.
Proof.
  intros C s.
  exact (proj1 (proj1 (held_button_repeats (C := C) KEY_DDOWN s) eq_refl)).
Defined.

(** C10 on the scene: a frame of 4000 microseconds under the cap of 60. *)
Lemma frame_cap_sleep_witness :
  let C := Scene.collaborators true in
  let s := setMaximumFPS 60 Scene.focused in
  let inp := mkFrameInput 1000 1000 1000 5000 true 0 [] in
  exists work,
    mainLoopWork (C := C) inp s = Some work
    /\ mainLoop (C := C) inp s = Some (true, call (C := C) (EvSleep 12666) work).
Proof.
  intros C s inp.
  assert (Hrun : exists s', mainLoop (C := C) inp s = Some (true, s'))
    by (eexists; vm_compute; reflexivity).
  destruct Hrun as (s' & Hrun).
  destruct (frame_cap_sleep (C := C) inp s s' Hrun) as (work & Hwork & _ & _ & Hcap).
  exists work. split; [ exact Hwork | ].
  rewrite Hrun. do 2 f_equal.
  apply (Hcap 60); [ lia | reflexivity | reflexivity | reflexivity ].
Defined.

(** C10 as stated fails at the edge of the budget: at 60 frames per
    second a frame of 16666 microseconds costs less than 1000/60
    milliseconds, yet the budget is truncated to 16666 microseconds and
    the iteration returns without sleeping. *)
Lemma frame_cap_truncation_counterexample :
  ~ sleepsWhenUnderBudget (C := Scene.collaborators true) 60
      (mkFrameInput 0 0 0 16666 true 0 []) Scene.focused.
Proof.
  intros Hclaim.
  destruct Hclaim as (s' & usec & Hrun & Hin); [ reflexivity | ].
  vm_compute in Hrun. injection Hrun as <-.
  vm_compute in Hin.
  repeat (destruct Hin as [Hin | Hin]; [ discriminate Hin | ]).
  exact Hin.
Qed.

(** * Properties of the rest of the code *)

(** ** The driver's snapshots *)

Lemma ldiff_zero_both (a b : Z) :
  Z.ldiff a b = 0 -> Z.ldiff b a = 0 -> a = b.
Proof.
  intros Hab Hba. apply Z.bits_inj'. intros i Hi.
  apply (f_equal (fun x => Z.testbit x i)) in Hab, Hba.
  rewrite Z.ldiff_spec, Z.bits_0 in Hab, Hba.
  destruct (Z.testbit a i), (Z.testbit b i); cbn in *; congruence.
Qed.

(** X1.  On 64-bit snapshots no button is reported both newly pressed and
    newly released, a newly pressed button is held and a newly released
    one is not, the held buttons are the newly pressed ones together with
    those held in both snapshots, and [haveKeyStatesChanged] answers true
    exactly when some button is newly pressed or newly released. *)
Theorem driver_edges_consistent (d : PlatformDriver) :
  Driver.wellFormed d ->
  Z.land (Driver.keysDown d) (Driver.keysUp d) = 0
  /\ Z.land (Driver.keysDown d) (Driver.keysHeld d) = Driver.keysDown d
  /\ Z.land (Driver.keysUp d) (Driver.keysHeld d) = 0
  /\ Driver.keysHeld d
     = Z.lor (Driver.keysDown d) (Z.land (gamepadDown d) (gamepadDownOld d))
  /\ (Driver.haveKeyStatesChanged d = true
      <-> Driver.keysDown d <> 0 \/ Driver.keysUp d <> 0)
  /\ (Driver.isAnyKeyDown d = true <-> Driver.keysHeld d <> 0).
Proof.
  intros Hwf.
  rewrite (keysDown_ldiff d Hwf), (keysUp_ldiff d Hwf).
  unfold Driver.keysHeld, Driver.haveKeyStatesChanged, Driver.isAnyKeyDown.
  destruct Hwf as (Hcur & Hold).
  split; [ | split; [ | split; [ | split; [ | split ] ] ] ].
  - apply Z.bits_inj'. intros i Hi.
    rewrite Z.land_spec, !Z.ldiff_spec, Z.bits_0.
    destruct (Z.testbit (gamepadDown d) i), (Z.testbit (gamepadDownOld d) i);
      reflexivity.
  - apply Z.bits_inj'. intros i Hi.
    rewrite Z.land_spec, !Z.ldiff_spec.
    destruct (Z.testbit (gamepadDown d) i), (Z.testbit (gamepadDownOld d) i);
      reflexivity.
  - apply Z.bits_inj'. intros i Hi.
    rewrite Z.land_spec, !Z.ldiff_spec, Z.bits_0.
    destruct (Z.testbit (gamepadDown d) i), (Z.testbit (gamepadDownOld d) i);
      reflexivity.
  - apply Z.bits_inj'. intros i Hi.
    rewrite Z.lor_spec, Z.land_spec, !Z.ldiff_spec.
    destruct (Z.testbit (gamepadDown d) i), (Z.testbit (gamepadDownOld d) i);
      reflexivity.
  - destruct (Z.eqb_spec (gamepadDown d) (gamepadDownOld d)) as [Heq | Hne];
      cbn [negb]; split.
    + discriminate.
    + rewrite Heq, !Z.ldiff_diag. intros [H | H]; contradiction.
    + intros _.
      destruct (Z.eq_dec (Z.ldiff (gamepadDown d) (gamepadDownOld d)) 0) as [H0 | H0];
        [ | left; exact H0 ].
      right. intros H1. apply Hne. apply ldiff_zero_both; assumption.
    + reflexivity.
  - destruct (Z.gtb_spec (gamepadDown d) 0); split; intros; (reflexivity || lia || discriminate).
Qed.

(** X1 on the snapshots A|X then B|X. *)
Lemma driver_edges_consistent_witness :
  let d := mkPlatformDriver false (Z.lor KEY_B KEY_X) (Z.lor KEY_A KEY_X) in
  Z.land (Driver.keysDown d) (Driver.keysUp d) = 0
  /\ Driver.haveKeyStatesChanged d = true.
Proof.
  intro d.
  assert (Hwf : Driver.wellFormed d) by (unfold Driver.wellFormed; cbn; lia).
  destruct (driver_edges_consistent d Hwf) as (Hdisjoint & _ & _ & _ & _ & _).
  split; [ exact Hdisjoint | reflexivity ].
Defined.

(** X2.  A button is reported as newly pressed in the first poll that
    sees it only: when two polls in a row read the same 64-bit state, the
    second reports nothing newly pressed, nothing newly released and no
    change, while everything read is still held. *)
Theorem driver_edge_lasts_one_poll (polled : Z) (d : PlatformDriver) :
  0 <= polled < ulong_modulus ->
  let d2 := Driver.update polled (Driver.update polled d) in
  Driver.keysDown d2 = 0 /\ Driver.keysUp d2 = 0
  /\ Driver.keysHeld d2 = polled
  /\ Driver.haveKeyStatesChanged d2 = false.
Proof.
  intros Hrange d2.
  assert (Hwf : Driver.wellFormed d2) by (split; exact Hrange).
  rewrite (keysDown_ldiff d2 Hwf), (keysUp_ldiff d2 Hwf).
  unfold Driver.haveKeyStatesChanged. cbn.
  rewrite Z.ldiff_diag, Z.eqb_refl. repeat split.
Qed.

Lemma driver_edge_lasts_one_poll_witness :
  let d2 := Driver.update KEY_A (Driver.update KEY_A (mkPlatformDriver false 0 0)) in
  Driver.keysDown d2 = 0 /\ Driver.keysHeld d2 = KEY_A.
Proof.
  intro d2.
  assert (Hrange : 0 <= KEY_A < ulong_modulus) by (cbn; lia).
  destruct (driver_edge_lasts_one_poll KEY_A (mkPlatformDriver false 0 0) Hrange)
    as (Hdown & _ & Hheld & _).
  split; [ exact Hdown | exact Hheld ].
Defined.

(** X3.  When the buttons of one poll are released and a disjoint set is
    pressed by the next, the second poll reports exactly the new set as
    newly pressed and exactly the old set as newly released. *)
Theorem driver_disjoint_presses (b1 b2 : Z) (d : PlatformDriver) :
  0 <= b1 < ulong_modulus -> 0 <= b2 < ulong_modulus ->
  Z.land b1 b2 = 0 ->
  let d2 := Driver.update b2 (Driver.update b1 d) in
  Driver.keysDown d2 = b2 /\ Driver.keysUp d2 = b1.
Proof.
  intros H1 H2 Hdisjoint d2.
  assert (Hwf : Driver.wellFormed d2) by (split; assumption).
  rewrite (keysDown_ldiff d2 Hwf), (keysUp_ldiff d2 Hwf). cbn.
  split; apply Z.bits_inj'; intros i Hi; rewrite Z.ldiff_spec;
    apply (f_equal (fun x => Z.testbit x i)) in Hdisjoint;
    rewrite Z.land_spec, Z.bits_0 in Hdisjoint;
    destruct (Z.testbit b1 i), (Z.testbit b2 i); cbn in *; congruence.
Qed.

Lemma driver_disjoint_presses_witness :
  let d2 := Driver.update KEY_B (Driver.update KEY_A (mkPlatformDriver false 0 0)) in
  Driver.keysDown d2 = KEY_B /\ Driver.keysUp d2 = KEY_A.
Proof.
  intro d2.
  apply (driver_disjoint_presses KEY_A KEY_B (mkPlatformDriver false 0 0));
    cbn; (lia || reflexivity).
Defined.

(** ** The desktop driver *)

Lemma testbit_pressed (button j i : Z) :
  0 <= j < 16 -> 0 <= i ->
  Z.testbit (GLFW.pressed button (Z.shiftl 1 j)) i
  = negb (button =? 0) && (i =? j).
Proof.
  intros Hj Hi. unfold GLFW.pressed.
  rewrite Z.shiftl_1_l.
  assert (Hsmall : 2 ^ j mod 65536 = 2 ^ j).
  { apply Z.mod_small. split; [ apply Z.pow_nonneg; lia | ].
    change 65536 with (2 ^ 16). apply Z.pow_lt_mono_r; lia. }
  rewrite Hsmall.
  destruct (button =? 0); cbn [negb andb].
  - rewrite Z.mul_0_l. apply Z.bits_0.
  - rewrite Z.mul_1_l. rewrite Z.pow2_bits_eqb by lia. apply Z.eqb_sym.
Qed.

Lemma gamepadMask_bits (g : GLFW.GamepadButtons) (i : Z) :
  0 <= i ->
  Z.testbit (GLFW.gamepadMask g) i = negb (GLFW.buttonOfBit g i =? 0).
Proof.
  intros Hi. unfold GLFW.gamepadMask. cbv zeta.
  unfold KEY_A, KEY_B, KEY_X, KEY_Y, KEY_LSTICK, KEY_RSTICK, KEY_L, KEY_R,
    KEY_PLUS, KEY_MINUS, KEY_DLEFT, KEY_DUP, KEY_DRIGHT, KEY_DDOWN.
  rewrite !Z.lor_spec, Z.bits_0.
  rewrite !testbit_pressed by lia.
  unfold GLFW.buttonOfBit.
  repeat match goal with
         | |- context [i =? ?j] => destruct (Z.eqb_spec i j); [ subst i | ]
         end;
    cbn [Z.eqb Pos.eqb andb orb negb];
    rewrite ?andb_false_r, ?andb_true_r, ?orb_false_r; cbn [orb]; reflexivity.
Qed.

Lemma gamepadMask_range (g : GLFW.GamepadButtons) :
  0 <= GLFW.gamepadMask g < 2 ^ 14.
Proof.
  assert (Hmod : GLFW.gamepadMask g mod 2 ^ 14 = GLFW.gamepadMask g).
  { apply Z.bits_inj'. intros i Hi.
    destruct (Z.ltb_spec i 14) as [Hlow | Hhigh].
    - apply Z.mod_pow2_bits_low. lia.
    - rewrite Z.mod_pow2_bits_high by lia.
      rewrite gamepadMask_bits by exact Hi. unfold GLFW.buttonOfBit.
      repeat match goal with
             | |- context [i =? ?j] => destruct (Z.eqb_spec i j); [ lia | ]
             end.
      reflexivity. }
  rewrite <- Hmod. apply Z.mod_pos_bound. lia.
Qed.

(** X4.  The mask [update] builds from the gamepad (or keyboard) state
    has bit [i] set exactly when the button mapped to key [i] is down, for
    the fourteen keys, and no other bit: it is below 2^14, so a snapshot
    made of it is a well-formed 64-bit one. *)
Theorem glfw_gamepad_mask (g : GLFW.GamepadButtons) :
  0 <= GLFW.gamepadMask g < 2 ^ 14
  /\ (forall i, 0 <= i ->
        Z.testbit (GLFW.gamepadMask g) i = negb (GLFW.buttonOfBit g i =? 0))
  /\ (intersects KEY_DDOWN (GLFW.gamepadMask g)
      = negb (GLFW.BUTTON_DPAD_DOWN g =? 0))
  /\ (intersects KEY_PLUS (GLFW.gamepadMask g)
      = negb (GLFW.BUTTON_START g =? 0)).
Proof.
  assert (Hbit : forall j, 0 <= j ->
             intersects (Z.shiftl 1 j) (GLFW.gamepadMask g)
             = Z.testbit (GLFW.gamepadMask g) j).
  { intros j Hj. unfold intersects. rewrite Z.shiftl_1_l, Z.land_comm.
    destruct (Z.testbit (GLFW.gamepadMask g) j) eqn:Hb.
    - destruct (Z.eqb_spec (Z.land (GLFW.gamepadMask g) (2 ^ j)) 0) as [Hz | Hnz];
        [ | reflexivity ].
      apply (f_equal (fun x => Z.testbit x j)) in Hz.
      rewrite Z.land_spec, Hb, Z.pow2_bits_true, Z.bits_0 in Hz by exact Hj.
      discriminate Hz.
    - destruct (Z.eqb_spec (Z.land (GLFW.gamepadMask g) (2 ^ j)) 0) as [Hz | Hnz];
        [ reflexivity | ].
      exfalso. apply Hnz. apply Z.bits_inj'. intros i Hi.
      rewrite Z.land_spec, Z.bits_0.
      destruct (Z.eq_dec i j) as [-> | Hne].
      + rewrite Hb. reflexivity.
      + rewrite Z.pow2_bits_false by lia. apply andb_false_r. }
  split; [ | split; [ | split ] ].
  - apply gamepadMask_range.
  - intros i Hi. apply gamepadMask_bits. exact Hi.
  - unfold KEY_DDOWN. rewrite Hbit, gamepadMask_bits by lia. reflexivity.
  - unfold KEY_PLUS. rewrite Hbit, gamepadMask_bits by lia. reflexivity.
Qed.

Lemma find_first {A : Type} (p : A -> bool) (pre post : list A) (x : A) :
  (forall y, In y pre -> p y = false) -> p x = true ->
  find p (pre ++ x :: post) = Some x.
Proof.
  induction pre as [| y pre IH]; cbn [app find]; intros Hpre Hx.
  - rewrite Hx. reflexivity.
  - rewrite (Hpre y (or_introl eq_refl)).
    apply IH; [ | exact Hx ]. intros z Hz. apply Hpre. right. exact Hz.
Qed.

Lemma find_exists {A : Type} (p : A -> bool) (l : list A) :
  (exists x, In x l /\ p x = true) -> exists y, find p l = Some y.
Proof.
  intros (x & Hin & Hx). destruct (find p l) as [y |] eqn:Hfind.
  - exists y. reflexivity.
  - rewrite (find_none p l Hfind x Hin) in Hx. discriminate Hx.
Qed.

Lemma glfw_waitActive_quit (turn : GLFW.Observation)
  (later : list GLFW.Observation) :
  GLFW.waitActive true (turn :: later) = Some false.
Proof. cbn [GLFW.waitActive]. rewrite orb_true_r. reflexivity. Qed.

Lemma glfw_waitActive_decisive (turns : list GLFW.Observation) :
  GLFW.waitActive false turns
  = match GLFW.firstDecisive turns with
    | Some turn => Some (negb (GLFW.shouldClose turn))
    | None => None
    end.
Proof.
  unfold GLFW.firstDecisive.
  induction turns as [| turn later IH]; cbn [GLFW.waitActive find];
    [ reflexivity | ].
  unfold GLFW.idle at 1.
  destruct (GLFW.shouldClose turn) eqn:Hclose, (GLFW.iconified turn) eqn:Hicon;
    cbn [orb andb negb]; rewrite ?Hclose; try reflexivity.
  exact IH.
Qed.

(** X5.  The desktop driver's [update] is decided by the first turn of
    its event loop that is not idle (idle: the window is iconified and
    not asked to close).  With the quit flag set it returns false at the
    first turn.  Otherwise it returns false, leaving both snapshots as
    they were, when that turn sees the close request, iconified or not,
    and true when it does not: then the current snapshot becomes the old
    one and the new one is the mask of the gamepad, or of the keyboard
    when there is no gamepad; the turns that follow do not matter.  It
    returns as soon as there is such a turn, and does not return while
    every turn is idle.  With a well-formed driver before, the driver is
    well-formed after. *)
Theorem glfw_update_outcome (turns : list GLFW.Observation)
  (gamepad : option GLFW.GamepadButtons) (keyboard : GLFW.GamepadButtons)
  (d : PlatformDriver) :
  let buttons := match gamepad with
                 | Some g => g
                 | None => keyboard
                 end in
  GLFW.update turns gamepad keyboard d
  = match turns with
    | [] => None
    | _ :: _ =>
        if quitFlag d then Some (false, d)
        else match GLFW.firstDecisive turns with
             | None => None
             | Some turn =>
                 if GLFW.shouldClose turn then Some (false, d)
                 else Some (true, Driver.update (GLFW.gamepadMask buttons) d)
             end
    end
  /\ (forall pre turn post,
        turns = pre ++ turn :: post ->
        forallb GLFW.idle pre = true -> GLFW.idle turn = false ->
        GLFW.firstDecisive turns = Some turn)
  /\ ((exists turn, In turn turns /\ GLFW.idle turn = false) ->
      exists r, GLFW.update turns gamepad keyboard d = Some r)
  /\ (forallb GLFW.idle turns = true -> quitFlag d = false ->
      GLFW.update turns gamepad keyboard d = None)
  /\ (Driver.wellFormed d ->
      Driver.wellFormed (Driver.update (GLFW.gamepadMask buttons) d)).
Proof.
  intros buttons.
  assert (Heq : GLFW.update turns gamepad keyboard d
                = match turns with
                  | [] => None
                  | _ :: _ =>
                      if quitFlag d then Some (false, d)
                      else match GLFW.firstDecisive turns with
                           | None => None
                           | Some turn =>
                               if GLFW.shouldClose turn then Some (false, d)
                               else Some (true,
                                          Driver.update
                                            (GLFW.gamepadMask buttons) d)
                           end
                  end).
  { unfold GLFW.update. fold buttons. destruct (quitFlag d) eqn:Hquit.
    - destruct turns as [| turn later]; [ reflexivity | ].
      rewrite glfw_waitActive_quit. reflexivity.
    - rewrite glfw_waitActive_decisive.
      destruct turns as [| turn later]; [ reflexivity | ].
      destruct (GLFW.firstDecisive (turn :: later)) as [t |]; [ | reflexivity ].
      destruct (GLFW.shouldClose t); cbn [negb]; [ reflexivity | ].
      unfold Driver.update. rewrite Hquit. reflexivity. }
  split; [ exact Heq | ].
  split.
  { intros pre turn post -> Hpre Hturn. unfold GLFW.firstDecisive.
    apply find_first.
    - intros y Hy. rewrite forallb_forall in Hpre. rewrite (Hpre y Hy).
      reflexivity.
    - rewrite Hturn. reflexivity. }
  split.
  { intros (turn & Hin & Hturn). rewrite Heq.
    destruct turns as [| t later]; [ destruct Hin | ].
    destruct (quitFlag d); [ eexists; reflexivity | ].
    destruct (find_exists (fun x => negb (GLFW.idle x)) (t :: later)) as (y & Hy).
    { exists turn. split; [ exact Hin | rewrite Hturn; reflexivity ]. }
    unfold GLFW.firstDecisive. rewrite Hy.
    destruct (GLFW.shouldClose y); eexists; reflexivity. }
  split.
  { intros Hidle Hquit. rewrite Heq, Hquit.
    destruct turns as [| t later]; [ reflexivity | ].
    unfold GLFW.firstDecisive.
    destruct (find (fun x => negb (GLFW.idle x)) (t :: later)) as [y |] eqn:Hfind;
      [ | reflexivity ].
    apply find_some in Hfind. destruct Hfind as (Hin & Hy).
    rewrite forallb_forall in Hidle. rewrite (Hidle y Hin) in Hy.
    discriminate Hy. }
  intros (Hcur & _). split; cbn [gamepadDown gamepadDownOld Driver.update];
    [ | exact Hcur ].
  pose proof (gamepadMask_range buttons) as Hmask.
  unfold ulong_modulus, ulong_bits.
  assert (2 ^ 14 < 2 ^ 64) by (apply Z.pow_lt_mono_r; lia). lia.
Qed.

(** X5 on a window that is iconified for one turn: the second turn
    decides, and [KEY_B] is read from the gamepad. *)
Lemma glfw_update_outcome_witness :
  let d := mkPlatformDriver false KEY_A 0 in
  let pad := GLFW.mkGamepadButtons 0 1 0 0 0 0 0 0 0 0 0 0 0 0 in
  GLFW.update [GLFW.mkObservation true false; GLFW.mkObservation false false]
    (Some pad) pad d
  = Some (true, Driver.update KEY_B d)
  /\ GLFW.update [GLFW.mkObservation true true; GLFW.mkObservation false false]
       (Some pad) pad d
     = Some (false, d).
Proof.
  intros d pad. split.
  - exact (proj1 (glfw_update_outcome
                    [GLFW.mkObservation true false; GLFW.mkObservation false false]
                    (Some pad) pad d)).
  - exact (proj1 (glfw_update_outcome
                    [GLFW.mkObservation true true; GLFW.mkObservation false false]
                    (Some pad) pad d)).
Defined.

Lemma dk_waitFocused_quit (turn : DK.Turn) (later : list DK.Turn) :
  DK.waitFocused true (turn :: later) = Some false.
Proof. cbn [DK.waitFocused]. rewrite orb_true_r. reflexivity. Qed.

Lemma dk_waitFocused_decisive (turns : list DK.Turn) :
  DK.waitFocused false turns
  = match DK.firstDecisive turns with
    | Some turn => Some (DK.appletMainLoop turn)
    | None => None
    end.
Proof.
  unfold DK.firstDecisive.
  induction turns as [| turn later IH]; cbn [DK.waitFocused find];
    [ reflexivity | ].
  unfold DK.idle at 1.
  destruct (DK.appletMainLoop turn) eqn:Hloop, (DK.focused turn) eqn:Hfocus;
    cbn [orb andb negb]; rewrite ?Hloop; try reflexivity.
  exact IH.
Qed.

(** X6.  The console driver's [update] is decided by the first turn of
    its loop that is not idle (idle: [appletMainLoop] succeeds and the
    application is not focused).  With the quit flag set it returns false
    at the first turn.  Otherwise it returns false, leaving both
    snapshots as they were, when [appletMainLoop] fails in that turn,
    focused or not, and true when it succeeds: then the current snapshot
    becomes the old one and the new one is what [hidKeysHeld] delivered;
    the turns that follow do not matter.  It returns as soon as there is
    such a turn, and does not return while every turn is idle. *)
Theorem dk_update_outcome (turns : list DK.Turn) (held : Z)
  (d : PlatformDriver) :
  DK.update turns held d
  = match turns with
    | [] => None
    | _ :: _ =>
        if quitFlag d then Some (false, d)
        else match DK.firstDecisive turns with
             | None => None
             | Some turn =>
                 if DK.appletMainLoop turn
                 then Some (true, Driver.update held d)
                 else Some (false, d)
             end
    end
  /\ (forall pre turn post,
        turns = pre ++ turn :: post ->
        forallb DK.idle pre = true -> DK.idle turn = false ->
        DK.firstDecisive turns = Some turn)
  /\ ((exists turn, In turn turns /\ DK.idle turn = false) ->
      exists r, DK.update turns held d = Some r)
  /\ (forallb DK.idle turns = true -> quitFlag d = false ->
      DK.update turns held d = None).
Proof.
  assert (Heq : DK.update turns held d
                = match turns with
                  | [] => None
                  | _ :: _ =>
                      if quitFlag d then Some (false, d)
                      else match DK.firstDecisive turns with
                           | None => None
                           | Some turn =>
                               if DK.appletMainLoop turn
                               then Some (true, Driver.update held d)
                               else Some (false, d)
                           end
                  end).
  { unfold DK.update. destruct (quitFlag d) eqn:Hquit.
    - destruct turns as [| turn later]; [ reflexivity | ].
      rewrite dk_waitFocused_quit. reflexivity.
    - rewrite dk_waitFocused_decisive.
      destruct turns as [| turn later]; [ reflexivity | ].
      destruct (DK.firstDecisive (turn :: later)) as [t |]; [ | reflexivity ].
      destruct (DK.appletMainLoop t); [ | reflexivity ].
      unfold Driver.update. rewrite Hquit. reflexivity. }
  split; [ exact Heq | ].
  split.
  { intros pre turn post -> Hpre Hturn. unfold DK.firstDecisive.
    apply find_first.
    - intros y Hy. rewrite forallb_forall in Hpre. rewrite (Hpre y Hy).
      reflexivity.
    - rewrite Hturn. reflexivity. }
  split.
  { intros (turn & Hin & Hturn). rewrite Heq.
    destruct turns as [| t later]; [ destruct Hin | ].
    destruct (quitFlag d); [ eexists; reflexivity | ].
    destruct (find_exists (fun x => negb (DK.idle x)) (t :: later)) as (y & Hy).
    { exists turn. split; [ exact Hin | rewrite Hturn; reflexivity ]. }
    unfold DK.firstDecisive. rewrite Hy.
    destruct (DK.appletMainLoop y); eexists; reflexivity. }
  intros Hidle Hquit. rewrite Heq, Hquit.
  destruct turns as [| t later]; [ reflexivity | ].
  unfold DK.firstDecisive.
  destruct (find (fun x => negb (DK.idle x)) (t :: later)) as [y |] eqn:Hfind;
    [ | reflexivity ].
  apply find_some in Hfind. destruct Hfind as (Hin & Hy).
  rewrite forallb_forall in Hidle. rewrite (Hidle y Hin) in Hy.
  discriminate Hy.
Qed.

(** X6 on an application that gains the focus in the second turn, and
    on one whose [appletMainLoop] fails before it is focused. *)
Lemma dk_update_outcome_witness :
  let d := mkPlatformDriver false KEY_A 0 in
  DK.update [DK.mkTurn true false; DK.mkTurn true true] KEY_B d
  = Some (true, Driver.update KEY_B d)
  /\ DK.update [DK.mkTurn false false; DK.mkTurn true true] KEY_B d
     = Some (false, d).
Proof.
  intros d. split.
  - exact (proj1 (dk_update_outcome [DK.mkTurn true false; DK.mkTurn true true]
                    KEY_B d)).
  - exact (proj1 (dk_update_outcome [DK.mkTurn false false; DK.mkTurn true true]
                    KEY_B d)).
Defined.

(** ** The content area *)

Lemma checkedAspects_kept :
  forallb (fun ab => forallb (Window.keepsAspect (fst ab) (snd ab))
                       Window.checkedFactors)
    Window.checkedAspects = true.
Proof. vm_compute. reflexivity. Qed.

Lemma onWindowSizeChanged_no_width (height : Z) :
  Window.onWindowSizeChanged 0 height = None.
Proof.
  unfold Window.onWindowSizeChanged. cbv zeta.
  change (float_div (float_of_Z 0) (float_of_Z Window.WINDOW_WIDTH))
    with (S754_zero false).
  change (float_mul (S754_zero false) (float_of_Z Window.WINDOW_HEIGHT))
    with (S754_zero false).
  destruct (float_of_Z height) as [sg | sg | | sg m e]; reflexivity.
Qed.

(** X20.  The content area keeps the window's aspect at a width of 1280:
    a window of [16 k] by [9 k] pixels gets a content area of 1280 by
    720, one of [16 k] by [10 k] 1280 by 800, one of [4 k] by [3 k] 1280
    by 960, for every [k] from 1 to 300; the window scale stored is the
    binary32 quotient of the width by 1280. *)
Theorem content_area_keeps_aspect (a b k : Z) :
  In (a, b) Window.checkedAspects ->
  1 <= k <= 300 ->
  exists sizes,
    Window.onWindowSizeChanged (a * k) (b * k) = Some sizes
    /\ Window.contentWidth sizes = 1280
    /\ Window.contentHeight sizes = 1280 * b / a
    /\ Window.windowScale sizes
       = float_div (float_of_Z (a * k)) (float_of_Z 1280)
    /\ Window.windowWidth sizes = a * k
    /\ Window.windowHeight sizes = b * k.
Proof.
  intros Haspect Hrange.
  assert (Hin : In k Window.checkedFactors).
  { unfold Window.checkedFactors. apply in_map_iff. exists (Z.to_nat k).
    split; [ lia | apply in_seq; lia ]. }
  pose proof (proj1 (forallb_forall _ _) checkedAspects_kept (a, b) Haspect)
    as Hfactors.
  cbn [fst snd] in Hfactors.
  pose proof (proj1 (forallb_forall _ _) Hfactors k Hin) as Hkept.
  unfold Window.keepsAspect in Hkept.
  destruct (Window.onWindowSizeChanged (a * k) (b * k)) as [sizes |] eqn:Hsizes;
    [ | discriminate Hkept ].
  apply andb_true_iff in Hkept. destruct Hkept as (Hw & Hh).
  apply Z.eqb_eq in Hw, Hh.
  exists sizes. split; [ reflexivity | split; [ exact Hw | split; [ exact Hh | ] ] ].
  unfold Window.onWindowSizeChanged in Hsizes. cbv zeta in Hsizes.
  destruct (Window.roundf_to_unsigned _) as [h |]; cbn [bind] in Hsizes;
    [ | discriminate Hsizes ].
  injection Hsizes as <-. repeat split.
Qed.

(** X21.  A window without width has no content area: with a width of 0
    [onWindowSizeChanged] converts a value that is not finite to
    [unsigned], whatever the height.  The desktop driver's callback
    never asks for it: it ignores a size whose width or height is 0, and
    only such a size, and passes a positive size on as it is; the console
    driver asks for its two framebuffer sizes only, which both give a
    content area of 1280 by 720. *)
Theorem window_without_width :
  (forall height, Window.onWindowSizeChanged 0 height = None)
  /\ (forall width height,
        GLFW.windowFramebufferSizeCallback width height = GLFW.Ignored
        <-> width = 0 \/ height = 0)
  /\ (forall width height,
        0 < width < Window.uint_modulus -> 0 < height < Window.uint_modulus ->
        GLFW.windowFramebufferSizeCallback width height
        = GLFW.Forwarded (Window.onWindowSizeChanged width height))
  /\ (forall mode, exists sizes,
        DK.onOperationMode mode = Some sizes
        /\ Window.contentWidth sizes = 1280
        /\ Window.contentHeight sizes = 720).
Proof.
  split; [ exact onWindowSizeChanged_no_width | ].
  split; [ | split ].
  - intros width height. unfold GLFW.windowFramebufferSizeCallback.
    destruct (Z.eqb_spec width 0) as [Hw | Hw]; cbn [orb].
    + split; [ intros _; left; exact Hw | reflexivity ].
    + destruct (Z.eqb_spec height 0) as [Hh | Hh].
      * split; [ intros _; right; exact Hh | reflexivity ].
      * split; [ discriminate | intros [H | H]; contradiction ].
  - intros width height Hw Hh. unfold GLFW.windowFramebufferSizeCallback.
    destruct (Z.eqb_spec width 0) as [Hw0 | _]; [ lia | ].
    destruct (Z.eqb_spec height 0) as [Hh0 | _]; [ lia | ].
    cbn [orb]. rewrite !Z.mod_small by lia. reflexivity.
  - intros mode. destruct mode; eexists;
      (split; [ vm_compute; reflexivity | split; reflexivity ]).
Qed.

Section MoreProperties.

Context {W : Type} {C : Collaborators W}.

(** ** Quitting *)

Lemma quitKept_refl (s : Application W) : quitKept s s.
Proof. intros H. exact H. Qed.

Lemma quitKept_trans (a b c : Application W) :
  quitKept a b -> quitKept b c -> quitKept a c.
Proof. unfold quitKept. auto. Qed.

Lemma quitKept_same_driver (s s' : Application W) :
  platformDriver s' = platformDriver s -> quitKept s s'.
Proof. intros Heq H. rewrite Heq. exact H. Qed.

Lemma quitKept_runListener (node : View) (a : Action) (s : Application W) :
  quitKept s (snd (runListener node a s)).
Proof.
  unfold runListener. destruct (actionListener a) as [| | id]; cbn [snd].
  - intros _. reflexivity.
  - apply quitKept_same_driver.
    unfold toggleFramerateDisplay, setDisplayFramerate, resizeFramerateCounter.
    cbn [framerateCounter call].
    destruct (framerateCounter s); reflexivity.
  - apply quitKept_same_driver. reflexivity.
Qed.

Lemma quitKept_actionStep (button : Z) (node : View) (a : Action)
  (acc : list Key * Application W) :
  quitKept (snd acc) (snd (actionStep button node acc a)).
Proof.
  destruct acc as [c s]. unfold actionStep. cbn [snd].
  destruct (negb (intersects (key a) button)); [ apply quitKept_refl | ].
  destruct (consumedFind (key a) c); [ apply quitKept_refl | ].
  destruct (available a); [ | apply quitKept_refl ].
  pose proof (quitKept_runListener node a s) as Hk.
  destruct (runListener node a s) as [v s']. cbn [snd] in Hk.
  destruct v; exact Hk.
Qed.

Lemma quitKept_visitNode (button : Z) (node : View)
  (acc : list Key * Application W) :
  quitKept (snd acc) (snd (visitNode button node acc)).
Proof.
  unfold visitNode. generalize (getActions (world (snd acc)) node) as l.
  intros l. revert acc. induction l as [| a l IH]; intros acc; cbn [fold_left].
  - apply quitKept_refl.
  - eapply quitKept_trans; [ apply quitKept_actionStep | apply IH ].
Qed.

Lemma quitKept_handleActionFrom (button : Z) (node : View) :
  forall acc : list Key * Application W,
    quitKept (snd acc) (snd (handleActionFrom button node acc)).
Proof.
  induction node as [i | i parent IH] using View_parent_ind;
    intros acc; cbn [handleActionFrom].
  - apply quitKept_visitNode.
  - eapply quitKept_trans; [ apply quitKept_visitNode | apply IH ].
Qed.

Lemma quitKept_handleAction (button : Z) (s : Application W) :
  quitKept s (snd (handleAction button s)).
Proof.
  unfold handleAction. destruct (currentFocus s) as [focus |];
    [ | apply quitKept_refl ].
  pose proof (quitKept_handleActionFrom button focus ([], s)) as Hk.
  destruct (handleActionFrom button focus ([], s)) as [c s']. exact Hk.
Qed.

Lemma giveFocus_platformDriver (view : option View) (s : Application W) :
  platformDriver (giveFocus view s) = platformDriver s.
Proof.
  unfold giveFocus. destruct (negb _); [ | reflexivity ].
  destruct (match view with
            | Some v => getDefaultFocus (world s) v
            | None => None
            end), (currentFocus s); reflexivity.
Qed.

Lemma navigate_platformDriver (direction : FocusDirection) (s : Application W) :
  platformDriver (navigate direction s) = platformDriver s.
Proof.
  unfold navigate. destruct (currentFocus s) as [focus |]; [ | reflexivity ].
  destruct (negb (hasParent focus)); [ reflexivity | ].
  destruct (findNextFocus (world s) direction focus);
    [ apply giveFocus_platformDriver | reflexivity ].
Qed.

Lemma quitKept_dispatchButton (button : Z) (s : Application W) :
  quitKept s (dispatchButton button s).
Proof.
  unfold dispatchButton.
  pose proof (quitKept_handleAction button
                (set_repetitionOldFocus (currentFocus s) s)) as Hk.
  destruct (handleAction button (set_repetitionOldFocus (currentFocus s) s))
    as [consumed s']. cbn [snd] in Hk.
  change (quitKept s s') in Hk.
  destruct consumed; [ exact Hk | ].
  repeat match goal with
         | |- context [if ?b then _ else _] => destruct b
         end;
    try exact Hk;
    (eapply quitKept_trans; [ exact Hk | ];
     apply quitKept_same_driver; apply navigate_platformDriver).
Qed.

Lemma quitKept_triggerGamepadEvents (s : Application W) :
  quitKept s (triggerGamepadEvents s).
Proof.
  unfold triggerGamepadEvents, onGamepadButtonPressed.
  repeat match goal with
         | |- context [if ?b then _ else _] => destruct b
         end; try apply quitKept_refl; apply quitKept_dispatchButton.
Qed.

Lemma platformDriver_unblockInputs (s : Application W) :
  platformDriver (unblockInputs s) = platformDriver s.
Proof. unfold unblockInputs. destruct (_ >? 0); reflexivity. Qed.

Lemma platformDriver_runCallback (cb : Callback) :
  forall s s' : Application W,
    runCallback cb s = Some s' -> platformDriver s' = platformDriver s.
Proof.
  induction cb as [id | | animation wait | last animation wait cb IH];
    intros s s' Hrun; cbn [runCallback] in Hrun.
  - injection Hrun as <-. reflexivity.
  - injection Hrun as <-. apply platformDriver_unblockInputs.
  - destruct (back (viewStack s)) as [newLast |]; cbn [bind] in Hrun;
      [ | discriminate Hrun ].
    injection Hrun as <-. destruct wait; reflexivity.
  - change (viewStack (call (EvSetForceTranslucent last false) s))
      with (viewStack s) in Hrun.
    destruct (back (viewStack s)) as [popped |]; cbn [bind] in Hrun;
      [ | discriminate Hrun ].
    cbv zeta in Hrun.
    match type of Hrun with
    | bind ?m _ = _ => destruct m as [s1 |] eqn:Hm
    end; cbn [bind] in Hrun; [ | discriminate Hrun ].
    injection Hrun as <-. rewrite platformDriver_unblockInputs.
    destruct (_ && wait) in Hm.
    + match type of Hm with
      | bind ?m _ = _ => destruct m as [newLast |]
      end; cbn [bind] in Hm; [ | discriminate Hm ].
      destruct (isHidden _ newLast) in Hm.
      * injection Hm as <-. reflexivity.
      * apply IH in Hm. rewrite Hm. reflexivity.
    + injection Hm as <-. reflexivity.
Qed.

Lemma platformDriver_runCallbacks (cbs : list Callback) :
  forall s s' : Application W,
    runCallbacks cbs s = Some s' -> platformDriver s' = platformDriver s.
Proof.
  induction cbs as [| cb cbs IH]; intros s s' Hrun; cbn [runCallbacks] in Hrun.
  - injection Hrun as <-. reflexivity.
  - destruct (runCallback cb s) as [s1 |] eqn:Hcb; cbn [bind] in Hrun;
      [ | discriminate Hrun ].
    rewrite (IH _ _ Hrun). apply (platformDriver_runCallback _ _ _ Hcb).
Qed.

Lemma platformDriver_frame (s : Application W) :
  platformDriver (frame s) = platformDriver s.
Proof.
  unfold frame. cbv zeta.
  assert (Hfold : forall (l : list View) (st : Application W),
             platformDriver (fold_left (fun s v => call (EvViewFrame v) s) l st)
             = platformDriver st).
  { induction l as [| v l IH]; intros st; cbn [fold_left]; [ reflexivity | ].
    rewrite IH. reflexivity. }
  destruct (framerateCounter _); cbn [platformDriver call]; rewrite Hfold;
    reflexivity.
Qed.

Lemma quitKept_mainLoop (inp : FrameInput) (s s' : Application W) :
  mainLoop inp s = Some (true, s') -> quitKept s s'.
Proof.
  unfold mainLoop. intros Hloop. cbv zeta in Hloop.
  destruct (negb (pollOk inp)); [ discriminate Hloop | ].
  destruct (mainLoopWork inp s) as [work |] eqn:Hwork; cbn [bind] in Hloop;
    [ | discriminate Hloop ].
  injection Hloop as <-.
  unfold mainLoopWork in Hwork. cbv zeta in Hwork.
  match type of Hwork with
  | bind ?m _ = _ => destruct m as [s1 |] eqn:Hcbs
  end; cbn [bind] in Hwork; [ | discriminate Hwork ].
  injection Hwork as <-.
  apply platformDriver_runCallbacks in Hcbs. cbn [platformDriver call] in Hcbs.
  eapply quitKept_trans; [ | apply quitKept_same_driver ].
  - eapply quitKept_trans;
      [ | apply (quitKept_triggerGamepadEvents
                   (set_platformDriver
                      (Driver.update (polled inp) (platformDriver s)) s)) ].
    intros H. exact H.
  - unfold sleepIfNecessary.
    repeat match goal with
           | |- context [if ?b then _ else _] => destruct b
           end; cbn [platformDriver call]; rewrite platformDriver_frame;
      cbn [platformDriver call]; rewrite Hcbs; unfold updateRepeatTimer;
      repeat match goal with
             | |- context [if ?b then _ else _] => destruct b
             end; reflexivity.
Qed.

(** X7.  Quitting stops the loop.  [Application::quit], and so the
    listener of the "Exit" action, sets the driver's quit flag; an
    iteration of the main loop that runs to its end never clears it; and
    with the flag set the next iteration, on the desktop as on the console
    driver, returns false from the first turn of the driver's event loop,
    having cleared the view stack through [exit]. *)
Theorem quit_stops_main_loop :
  (forall s : Application W, quitFlag (platformDriver (quit s)) = true)
  /\ (forall node a (s : Application W),
        actionListener a = QuitListener ->
        fst (runListener node a s) = true
        /\ quitFlag (platformDriver (snd (runListener node a s))) = true)
  /\ (forall inp (s s' : Application W),
        quitFlag (platformDriver s) = true ->
        mainLoop inp s = Some (true, s') ->
        quitFlag (platformDriver s') = true)
  /\ (forall turn turns gamepad keyboard clocks animations (s : Application W),
        quitFlag (platformDriver s) = true ->
        mainLoopOver (GLFW.update (turn :: turns) gamepad keyboard)
          clocks animations s = Some (false, exit s))
  /\ (forall turn turns held clocks animations (s : Application W),
        quitFlag (platformDriver s) = true ->
        mainLoopOver (DK.update (turn :: turns) held) clocks animations s
        = Some (false, exit s)).
Proof.
  split; [ | split; [ | split; [ | split ] ] ].
  - reflexivity.
  - intros node a s Hquit. unfold runListener. rewrite Hquit. split; reflexivity.
  - intros inp s s' Hflag Hloop. exact (quitKept_mainLoop inp s s' Hloop Hflag).
  - intros turn turns gamepad keyboard [[[t0 t1] t2] t3] animations s Hflag.
    unfold mainLoopOver, GLFW.update. cbn [GLFW.waitActive]. rewrite Hflag.
    rewrite orb_true_r. reflexivity.
  - intros turn turns held [[[t0 t1] t2] t3] animations s Hflag.
    unfold mainLoopOver, DK.update. cbn [DK.waitFocused]. rewrite Hflag.
    rewrite orb_true_r. reflexivity.
Qed.

(** ** giveFocus *)

(** X8.  [giveFocus] notifies at most once: when the view's default
    focus is the node that has the focus already it changes and calls
    nothing; otherwise the old node, if any, loses the focus first, the
    global focus-change event fires with the new node, and the new node,
    if any, gains the focus last.  A second [giveFocus] of the same view,
    its default focus being the same, changes and calls nothing. *)
Theorem giveFocus_notifies_once (view : option View) (s : Application W) :
  let newFocus := match view with
                  | Some v => getDefaultFocus (world s) v
                  | None => None
                  end in
  (currentFocus s = newFocus -> giveFocus view s = s)
  /\ (currentFocus s <> newFocus ->
      currentFocus (giveFocus view s) = newFocus
      /\ trace (giveFocus view s)
         = trace s
           ++ match currentFocus s with
              | Some old => [EvOnFocusLost old]
              | None => []
              end
           ++ [EvFocusChange newFocus]
           ++ match newFocus with
              | Some new => [EvOnFocusGained new]
              | None => []
              end)
  /\ ((match view with
       | Some v => getDefaultFocus (world (giveFocus view s)) v
       | None => None
       end) = newFocus ->
      giveFocus view (giveFocus view s) = giveFocus view s).
Proof.
  intros newFocus.
  assert (Hsame : forall st : Application W,
             currentFocus st = match view with
                               | Some v => getDefaultFocus (world st) v
                               | None => None
                               end ->
             giveFocus view st = st).
  { intros st Heq. unfold giveFocus. apply focus_eqb_eq in Heq.
    rewrite Heq. reflexivity. }
  split; [ | split ].
  - apply Hsame.
  - intros Hdiff. unfold giveFocus. fold newFocus.
    destruct (focus_eqb (currentFocus s) newFocus) eqn:Hcmp.
    + apply focus_eqb_eq in Hcmp. contradiction.
    + cbn [negb]. destruct newFocus as [new |], (currentFocus s) as [old |];
        cbn [currentFocus trace call set_currentFocus app];
        rewrite <- ?app_assoc; split; reflexivity.
  - intros Hstable. apply Hsame.
    rewrite giveFocus_currentFocus. fold newFocus. symmetry. exact Hstable.
Qed.

(** ** navigate *)

Lemma chain_head (v : View) : exists rest, chain v = v :: rest.
Proof. destruct v as [i [p |]]; eexists; reflexivity. Qed.

Lemma findNextFocus_nearest (w : W) (direction : FocusDirection)
  (before : list View) :
  forall cur node after parent candidate,
    chain cur = before ++ node :: after ->
    getParent node = Some parent ->
    (forall c p, In c before -> getParent c = Some p ->
       getNextFocus w p direction (getParentUserData w c) = None) ->
    getNextFocus w parent direction (getParentUserData w node) = Some candidate ->
    hasParent cur = true
    /\ findNextFocus w direction cur = Some candidate.
Proof.
  induction before as [| c before IH];
    intros cur node after parent candidate Hchain Hparent Hnone Hsome.
  - cbn [app] in Hchain. destruct (chain_head cur) as (rest & Hcur).
    rewrite Hcur in Hchain. injection Hchain as -> _.
    destruct node as [i [p |]]; [ | discriminate Hparent ].
    injection Hparent as ->.
    split; [ reflexivity | ].
    cbn [findNextFocus]. rewrite Hsome. reflexivity.
  - cbn [app] in Hchain. destruct cur as [i [p |]]; cbn [chain] in Hchain.
    + injection Hchain as <- Hrest.
      destruct (IH p node after parent candidate Hrest Hparent) as (Hp & Hfind).
      * intros c' p' Hin. apply Hnone. right. exact Hin.
      * exact Hsome.
      * split; [ reflexivity | ].
        cbn [findNextFocus].
        rewrite (Hnone (MkView i (Some p)) p (or_introl eq_refl) eq_refl).
        rewrite Hp. cbn [hasParent getParent negb orb]. exact Hfind.
    + injection Hchain as _ Hrest. destruct before; discriminate Hrest.
Qed.

(** X9.  [navigate] takes the candidate of the nearest ancestor that has
    one: when, going up from the focus, every parent asked before [node]'s
    answers with no candidate and [node]'s parent answers [candidate], the
    focus is given to [candidate], that is, it moves to [candidate]'s
    default focus, whatever the ancestors further up would answer. *)
Theorem navigate_nearest_ancestor (direction : FocusDirection)
  (s : Application W) (focus : View) (before : list View)
  (node : View) (after : list View) (parent candidate : View) :
  currentFocus s = Some focus ->
  chain focus = before ++ node :: after ->
  getParent node = Some parent ->
  (forall c p, In c before -> getParent c = Some p ->
     getNextFocus (world s) p direction (getParentUserData (world s) c) = None) ->
  getNextFocus (world s) parent direction (getParentUserData (world s) node)
  = Some candidate ->
  navigate direction s = giveFocus (Some candidate) s
  /\ currentFocus (navigate direction s) = getDefaultFocus (world s) candidate.
Proof.
  intros Hfocus Hchain Hparent Hnone Hsome.
  destruct (findNextFocus_nearest (world s) direction before focus node after
              parent candidate Hchain Hparent Hnone Hsome) as (Hhas & Hfind).
  assert (Heq : navigate direction s = giveFocus (Some candidate) s).
  { unfold navigate. rewrite Hfocus, Hhas, Hfind. reflexivity. }
  rewrite Heq. split; [ reflexivity | ].
  exact (giveFocus_currentFocus (Some candidate) s).
Qed.

(** ** handleAction, further *)

Lemma dispatchTrace_no_focus (button : Z) (s : Application W) :
  currentFocus s = None -> dispatchTrace button s = [].
Proof.
  intros Hnone. unfold dispatchTrace, handleAction. rewrite Hnone.
  cbn [snd]. apply skipn_all.
Qed.

(** X10.  [handleAction] never invokes the listener of an action that is
    not available or whose key is not in the button mask; with an empty
    mask, or without a current focus, it invokes nothing and returns
    false. *)
Theorem handleAction_skips (button : Z) (s : Application W) :
  (forall x, In x (firings (dispatchTrace button s)) ->
     available (action x) = true /\ intersects (key (action x)) button = true)
  /\ (currentFocus s = None -> handleAction button s = (false, s))
  /\ (button = 0 ->
      firings (dispatchTrace button s) = []
      /\ fst (handleAction button s) = false).
Proof.
  assert (Hfired : forall x, In x (firings (dispatchTrace button s)) ->
            available (action x) = true
            /\ intersects (key (action x)) button = true).
  { intros x Hin. destruct (currentFocus s) as [focus |] eqn:Hfocus.
    - destruct (handleAction_inv button s focus Hfocus)
        as (c & s' & top & _ & Hresult & Hinv).
      destruct Hinv as (_ & tr & Htr & _ & _ & _ & _ & Hprops & _).
      cbn [snd] in Htr.
      assert (Hdt : dispatchTrace button s = tr).
      { unfold dispatchTrace. rewrite Hresult. cbn [snd]. rewrite Htr.
        apply skipn_length_app. }
      rewrite Hdt in Hin. destruct (Hprops x Hin) as (_ & _ & Ha & Hb).
      split; assumption.
    - rewrite (dispatchTrace_no_focus button s Hfocus) in Hin. destruct Hin. }
  split; [ exact Hfired | split ].
  - intros Hnone. unfold handleAction. rewrite Hnone. reflexivity.
  - intros ->.
    assert (Hnil : firings (dispatchTrace 0 s) = []).
    { destruct (firings (dispatchTrace 0 s)) as [| x l] eqn:Hl; [ reflexivity | ].
      destruct (Hfired x) as (_ & Hhit); [ left; reflexivity | ].
      unfold intersects in Hhit. rewrite Z.land_0_r in Hhit. discriminate Hhit. }
    split; [ exact Hnil | ].
    destruct (currentFocus s) as [focus |] eqn:Hfocus.
    + destruct (handleAction_inv 0 s focus Hfocus)
        as (c & s' & top & _ & Hresult & Hinv).
      destruct Hinv as (_ & tr & Htr & _ & Hcons & _).
      cbn [fst snd] in *.
      assert (Hdt : dispatchTrace 0 s = tr).
      { unfold dispatchTrace. rewrite Hresult. cbn [snd]. rewrite Htr.
        apply skipn_length_app. }
      rewrite Hresult. cbn [fst]. destruct c as [| k c]; [ reflexivity | ].
      destruct (Hcons k) as (x & Hin & _).
      * rewrite consumedFind_cons, Z.eqb_refl. reflexivity.
      * rewrite <- Hdt, Hnil in Hin. destruct Hin.
    + unfold handleAction. rewrite Hfocus. reflexivity.
Qed.

Lemma consumers_distinct (l : list Firing) :
  ForallOrdPairs consumedSkips l ->
  NoDup (map (fun x => key (action x)) (filter verdict l)).
Proof.
  induction 1 as [| x l Hx Hl IH]; cbn [filter map]; [ constructor | ].
  destruct (verdict x) eqn:Hv; [ | exact IH ].
  cbn [map]. constructor; [ | exact IH ].
  intros Hin. apply in_map_iff in Hin. destruct Hin as (y & Hkey & Hy).
  apply filter_In in Hy. destruct Hy as (Hy & _).
  rewrite Forall_forall in Hx. exact (Hx y Hy Hv Hkey).
Qed.

(** X11.  In one [handleAction] dispatch at most one listener per key
    returns true: the keys of the invocations that returned true are
    pairwise distinct. *)
Theorem handleAction_one_consumer_per_key (button : Z) (s : Application W) :
  NoDup (map (fun x => key (action x))
           (filter verdict (firings (dispatchTrace button s)))).
Proof.
  destruct (currentFocus s) as [focus |] eqn:Hfocus.
  - destruct (handleAction_inv button s focus Hfocus)
      as (c & s' & top & _ & Hresult & Hinv).
    destruct Hinv as (_ & tr & Htr & _ & _ & Hskip & _).
    cbn [snd] in Htr.
    assert (Hdt : dispatchTrace button s = tr).
    { unfold dispatchTrace. rewrite Hresult. cbn [snd]. rewrite Htr.
      apply skipn_length_app. }
    rewrite Hdt. apply consumers_distinct. exact Hskip.
  - rewrite (dispatchTrace_no_focus button s Hfocus). constructor.
Qed.

(** ** frame *)

Lemma collectViews_translucent (w : W) (l rest : list View) :
  Forall (fun x => isTranslucent w x = true) l ->
  collectViews w (l ++ rest) = l ++ collectViews w rest.
Proof.
  induction 1 as [| x l Hx _ IH]; [ reflexivity | ].
  cbn [app collectViews]. rewrite Hx. cbn [negb]. rewrite IH. reflexivity.
Qed.

Lemma viewFrames_fold (l : list View) :
  forall s : Application W,
    let r := fold_left (fun s v => call (EvViewFrame v) s) l s in
    trace r = trace s ++ map EvViewFrame l
    /\ framerateCounter r = framerateCounter s.
Proof.
  induction l as [| v l IH]; intros s; cbn [fold_left map].
  - rewrite app_nil_r. split; reflexivity.
  - destruct (IH (call (EvViewFrame v) s)) as (Ht & Hf).
    cbv zeta. rewrite Ht, Hf. cbn [trace framerateCounter call].
    rewrite <- app_assoc. split; reflexivity.
Qed.

Lemma frame_trace (s : Application W) :
  trace (frame s)
  = trace s ++ [EvDriverFrame; EvBeginFrame]
    ++ map EvViewFrame
         (rev (viewsToDraw (call EvBeginFrame (call EvDriverFrame s))))
    ++ (if framerateCounter s then [EvFramerateCounterFrame] else [])
    ++ [EvNotificationFrame; EvEndFrame].
Proof.
  unfold frame. cbv zeta.
  set (s0 := call EvBeginFrame (call EvDriverFrame s)).
  destruct (viewFrames_fold (rev (viewsToDraw s0)) s0) as (Ht & Hf).
  cbv zeta in Ht, Hf.
  set (r := fold_left (fun s v => call (EvViewFrame v) s) (rev (viewsToDraw s0)) s0) in *.
  rewrite Hf. change (framerateCounter s0) with (framerateCounter s).
  destruct (framerateCounter s); cbn [trace call]; rewrite Ht;
    subst s0; cbn [trace call]; rewrite <- !app_assoc; reflexivity.
Qed.

(** X12.  [frame] draws the top of the stack only: the views from the
    topmost view that is not translucent up to the top, that one first
    and the top last; no view under it is drawn.  When every view is
    translucent the whole stack is drawn, bottom first.  The frame-rate
    overlay, when enabled, comes after the views and before the
    notifications. *)
Theorem frame_draws_visible_views (s : Application W) :
  let w := world (call EvBeginFrame (call EvDriverFrame s)) in
  let overlay := if framerateCounter s then [EvFramerateCounterFrame] else [] in
  (forall below v above,
      viewStack s = below ++ v :: above ->
      isTranslucent w v = false ->
      Forall (fun x => isTranslucent w x = true) above ->
      traceSince s (frame s)
      = [EvDriverFrame; EvBeginFrame] ++ map EvViewFrame (v :: above)
        ++ overlay ++ [EvNotificationFrame; EvEndFrame])
  /\ (Forall (fun x => isTranslucent w x = true) (viewStack s) ->
      traceSince s (frame s)
      = [EvDriverFrame; EvBeginFrame] ++ map EvViewFrame (viewStack s)
        ++ overlay ++ [EvNotificationFrame; EvEndFrame]).
Proof.
  intros w overlay. unfold traceSince. rewrite frame_trace, skipn_length_app.
  fold overlay. unfold viewsToDraw.
  cbn [viewStack call]. fold w.
  split.
  - intros below v above Hstack Hopaque Habove.
    rewrite Hstack, rev_app_distr. cbn [rev]. rewrite <- app_assoc.
    rewrite collectViews_translucent
      by (apply Forall_rev; exact Habove).
    cbn [app collectViews]. rewrite Hopaque. cbn [negb].
    rewrite rev_app_distr, rev_involutive. reflexivity.
  - intros Hall.
    rewrite <- (app_nil_r (rev (viewStack s))).
    rewrite collectViews_translucent by (apply Forall_rev; exact Hall).
    cbn [collectViews]. rewrite app_nil_r, rev_involutive. reflexivity.
Qed.

(** ** clear, exit *)

Lemma teardown_fold (l : list View) :
  forall s : Application W,
    let r := fold_left
               (fun s v => call (EvDelete v) (call (EvWillDisappear v true) s))
               l s in
    trace r = trace s ++ teardown l
    /\ currentFocus r = currentFocus s
    /\ focusStack r = focusStack s
    /\ blockInputsTokens r = blockInputsTokens s.
Proof.
  induction l as [| v l IH]; intros s; cbn [fold_left].
  - unfold teardown. cbn [flat_map]. rewrite app_nil_r. repeat split.
  - destruct (IH (call (EvDelete v) (call (EvWillDisappear v true) s)))
      as (Ht & Hc & Hf & Hb).
    cbv zeta. rewrite Ht, Hc, Hf, Hb. unfold teardown. cbn [flat_map app].
    cbn [trace currentFocus focusStack blockInputsTokens call].
    rewrite <- !app_assoc. repeat split.
Qed.

(** X13.  [mainLoop] returns what the driver's poll returned; when the
    poll fails nothing of the iteration runs but [exit].  [exit] tells
    every view of the stack, bottom first, that it disappears and deletes
    it, empties the view stack, then shuts the driver and the animation
    engine down; it leaves the current focus and the focus stack as they
    were, pointing at views that are deleted. *)
Theorem exit_deletes_views_keeps_focus (s : Application W) :
  viewStack (exit s) = []
  /\ traceSince s (exit s)
     = teardown (viewStack s) ++ [EvDriverExit; EvAnimationFree]
  /\ currentFocus (exit s) = currentFocus s
  /\ focusStack (exit s) = focusStack s
  /\ (forall inp, pollOk inp = false -> mainLoop inp s = Some (false, exit s))
  /\ (forall inp b s', mainLoop inp s = Some (b, s') -> b = pollOk inp).
Proof.
  destruct (teardown_fold (viewStack s) s) as (Ht & Hc & Hf & _).
  cbv zeta in Ht, Hc, Hf.
  split; [ reflexivity | ].
  split.
  { unfold traceSince, exit, clear.
    cbn [trace call set_viewStack]. rewrite Ht, <- !app_assoc.
    apply skipn_length_app. }
  split; [ unfold exit, clear; cbn [currentFocus call set_viewStack]; exact Hc | ].
  split; [ unfold exit, clear; cbn [focusStack call set_viewStack]; exact Hf | ].
  split.
  - intros inp Hpoll. unfold mainLoop. rewrite Hpoll. reflexivity.
  - intros inp b s' Hrun. unfold mainLoop in Hrun.
    destruct (pollOk inp); cbn [negb] in Hrun.
    + destruct (mainLoopWork inp s) as [s1 |]; cbn [bind] in Hrun;
        [ injection Hrun as <- _; reflexivity | discriminate Hrun ].
    + injection Hrun as <- _. reflexivity.
Qed.

(** ** pushView, further *)

Lemma giveFocus_viewStack (view : option View) (s : Application W) :
  viewStack (giveFocus view s) = viewStack s.
Proof. apply giveFocus_frame. Qed.

Lemma giveFocus_focusStack (view : option View) (s : Application W) :
  focusStack (giveFocus view s) = focusStack s.
Proof. apply giveFocus_frame. Qed.

Lemma giveFocus_tokens (view : option View) (s : Application W) :
  blockInputsTokens (giveFocus view s) = blockInputsTokens s.
Proof. apply giveFocus_frame. Qed.

Lemma pushView_effect (view : View) (animation : ViewAnimation)
  (s s1 : Application W) :
  pushView view animation s = Some s1 ->
  viewStack s1 = viewStack s ++ [view]
  /\ blockInputsTokens s1 = blockInputsTokens s + 1
  /\ focusStack s1
     = focusStack s
       ++ match viewStack s, currentFocus s with
          | _ :: _, Some focus => [focus]
          | _, _ => []
          end.
Proof.
  intros Hpush. unfold pushView in Hpush. cbv zeta in Hpush.
  destruct (pushViewAnimate_frame view animation s) as (Hv & Hf & Hc & Hb).
  set (s0 := pushViewAnimate view animation s) in *.
  unfold pushViewFocus in Hpush. rewrite Hv, Hc, Hf in Hpush.
  destruct (viewStack s) as [| v0 rest] eqn:Hstack.
  - cbn [length Nat.ltb Nat.leb bind] in Hpush.
    injection Hpush as <-.
    cbn [viewStack focusStack blockInputsTokens set_viewStack].
    rewrite giveFocus_viewStack, giveFocus_focusStack, giveFocus_tokens.
    cbn [viewStack focusStack blockInputsTokens call].
    rewrite Hv, Hf, Hb, app_nil_r. repeat split.
  - cbn [length Nat.ltb Nat.leb] in Hpush.
    destruct (currentFocus s) as [focus |]; cbn [bind] in Hpush;
      [ | discriminate Hpush ].
    injection Hpush as <-.
    cbn [viewStack focusStack blockInputsTokens set_viewStack].
    rewrite giveFocus_viewStack, giveFocus_focusStack, giveFocus_tokens.
    cbn [viewStack focusStack blockInputsTokens call set_focusStack].
    rewrite Hv, Hb. repeat split.
Qed.

Lemma pushView_None_iff (view : View) (animation : ViewAnimation)
  (s : Application W) :
  pushView view animation s = None
  <-> viewStack s <> [] /\ currentFocus s = None.
Proof.
  unfold pushView. cbv zeta.
  destruct (pushViewAnimate_frame view animation s) as (Hv & Hf & Hc & Hb).
  unfold pushViewFocus. rewrite Hv, Hc.
  destruct (viewStack s) as [| v0 rest]; cbn [length Nat.ltb Nat.leb bind].
  - split; [ discriminate | intros (Hne & _); contradiction ].
  - destruct (currentFocus s) as [focus |]; cbn [bind].
    + split; [ discriminate | intros (_ & Hnone); discriminate Hnone ].
    + split; [ intros _; split; [ discriminate | reflexivity ] | reflexivity ].
Qed.

(** X14.  [pushView] fails only by dereferencing a null focus: over a
    stack that is not empty while nothing has the focus.  Otherwise it
    appends the view to the view stack, takes one input-block token, and
    saves the current focus on the focus stack unless the view is the
    first of the stack; the two stacks stay in step. *)
Theorem pushView_outcome (view : View) (animation : ViewAnimation)
  (s : Application W) :
  (pushView view animation s = None
   <-> viewStack s <> [] /\ currentFocus s = None)
  /\ (forall s1, pushView view animation s = Some s1 ->
        viewStack s1 = viewStack s ++ [view]
        /\ blockInputsTokens s1 = blockInputsTokens s + 1
        /\ focusStack s1
           = focusStack s
             ++ match viewStack s, currentFocus s with
                | _ :: _, Some focus => [focus]
                | _, _ => []
                end
        /\ (stacksAligned s -> stacksAligned s1)).
Proof.
  split; [ apply pushView_None_iff | ].
  intros s1 Hpush.
  destruct (pushView_effect view animation s s1 Hpush) as (Hv & Hb & Hf).
  split; [ exact Hv | split; [ exact Hb | split; [ exact Hf | ] ] ].
  intros Haligned. unfold stacksAligned in *. left.
  rewrite Hv, Hf, !length_app. cbn [length].
  destruct (viewStack s) as [| v0 rest] eqn:Hstack.
  - destruct Haligned as [Hlen | (_ & Hfocus)]; [ discriminate Hlen | ].
    rewrite Hfocus. reflexivity.
  - destruct (currentFocus s) as [focus |] eqn:Hfocus.
    + destruct Haligned as [Hlen | (Hnil & _)]; [ | discriminate Hnil ].
      cbn [length] in *. lia.
    + exfalso. assert (Hnone : pushView view animation s = None).
      { apply pushView_None_iff. rewrite Hstack. split; [ discriminate | exact Hfocus ]. }
      rewrite Hnone in Hpush. discriminate Hpush.
Qed.

(** ** Blocked input *)

Lemma blocked_input_dropped (s : Application W) :
  blockInputsTokens s <> 0 ->
  (forall button repeating, onGamepadButtonPressed button repeating s = s)
  /\ triggerGamepadEvents s = s.
Proof.
  intros Hblocked.
  assert (Hdrop : forall button repeating,
             onGamepadButtonPressed button repeating s = s).
  { intros button repeating. unfold onGamepadButtonPressed.
    destruct (Z.eqb_spec (blockInputsTokens s) 0) as [Hz | _];
      [ contradiction | reflexivity ]. }
  split; [ exact Hdrop | ].
  unfold triggerGamepadEvents. cbv zeta. rewrite Hdrop.
  destruct (negb (Driver.keysHeld (platformDriver s) =? 0)); [ | reflexivity ].
  match goal with |- (if ?c then _ else _) = _ => destruct c; reflexivity end.
Qed.

(** X15.  From the call of [pushView] or [popView] on, button presses
    are dropped: while the transition's input-block token is held,
    [onGamepadButtonPressed] and the gamepad block of [mainLoop] change
    and call nothing, whatever the button, the actions and the focus. *)
Theorem input_dropped_during_transition (s : Application W) :
  0 <= blockInputsTokens s ->
  (forall view animation s1,
      pushView view animation s = Some s1 ->
      (forall button repeating, onGamepadButtonPressed button repeating s1 = s1)
      /\ triggerGamepadEvents s1 = s1)
  /\ (forall animation cb,
        (2 <= length (viewStack s))%nat ->
        let s1 := popView animation cb s in
        (forall button repeating, onGamepadButtonPressed button repeating s1 = s1)
        /\ triggerGamepadEvents s1 = s1).
Proof.
  intros Hnonneg. split.
  - intros view animation s1 Hpush.
    destruct (pushView_effect view animation s s1 Hpush) as (_ & Hb & _).
    apply blocked_input_dropped. lia.
  - intros animation cb Hlen s1. apply blocked_input_dropped.
    subst s1. unfold popView.
    destruct (Nat.leb_spec (length (viewStack s)) 1) as [Hle | _]; [ lia | ].
    destruct (popViewFocus_frame (popViewAnimate animation cb s)) as (_ & Hb & _).
    destruct (popViewAnimate_frame animation cb s) as (_ & _ & _ & Hb').
    rewrite Hb, Hb'. lia.
Qed.

(** ** The gamepad block of mainLoop *)

Lemma keysDown_needs_held (d : PlatformDriver) :
  Driver.keysDown d <> 0 -> Driver.keysHeld d <> 0.
Proof.
  unfold Driver.keysDown, Driver.keysHeld. intros Hdown Hheld.
  apply Hdown. rewrite Hheld. apply Z.land_0_r.
Qed.

(** X16.  A press is dispatched with the whole mask of the held buttons,
    not with the newly pressed ones; and the repeat flag does not
    depend on the press being new: a button newly pressed in an iteration
    that is a repeat tick (the count above 15 and a multiple of 5) is
    passed as a repeat, and is dropped when the focus is the one the last
    dispatch recorded. *)
Theorem new_press_on_repeat_tick (s : Application W) :
  Driver.keysDown (platformDriver s) <> 0 ->
  let tick := (repeatingButtonTimer s >? BUTTON_REPEAT_DELAY)
              && (Z.rem (repeatingButtonTimer s) BUTTON_REPEAT_CADENCY =? 0) in
  triggerGamepadEvents s
  = onGamepadButtonPressed (Driver.keysHeld (platformDriver s)) tick s
  /\ (tick = false -> blockInputsTokens s = 0 ->
      triggerGamepadEvents s
      = dispatchButton (Driver.keysHeld (platformDriver s)) s)
  /\ (tick = true -> repetitionOldFocus s = currentFocus s ->
      triggerGamepadEvents s = s).
Proof.
  intros Hdown tick.
  assert (Hheld := keysDown_needs_held _ Hdown).
  assert (Heq : triggerGamepadEvents s
                = onGamepadButtonPressed (Driver.keysHeld (platformDriver s)) tick s).
  { unfold triggerGamepadEvents. cbv zeta. fold tick.
    destruct (Z.eqb_spec (Driver.keysHeld (platformDriver s)) 0) as [Hz | _];
      [ contradiction | ].
    destruct (Z.eqb_spec (Driver.keysDown (platformDriver s)) 0) as [Hz | _];
      [ contradiction | ].
    reflexivity. }
  split; [ exact Heq | split ].
  - intros Htick Hfree. rewrite Heq, Htick.
    unfold onGamepadButtonPressed. rewrite Hfree. reflexivity.
  - intros Htick Hsame. rewrite Heq, Htick.
    apply repeat_is_suppressed. exact Hsame.
Qed.

(** ** Transitions and their completions *)

Lemma scheduled_app (a b : list Event) :
  scheduled (a ++ b) = scheduled a ++ scheduled b.
Proof.
  induction a as [| e a IH]; [ reflexivity | ].
  destruct e; cbn [app scheduled]; rewrite IH; reflexivity.
Qed.

Lemma occurrences_app (p : Event -> bool) (a b : list Event) :
  occurrences p (a ++ b) = (occurrences p a + occurrences p b)%nat.
Proof. unfold occurrences. rewrite filter_app, length_app. reflexivity. Qed.

Lemma scheduled_focus (l : list Event) :
  forallb focusEvent l = true -> scheduled l = [].
Proof.
  induction l as [| e l IH]; [ reflexivity | ].
  cbn [forallb]. intros Hall. apply andb_prop in Hall. destruct Hall as (He & Hl).
  destruct e; try discriminate He; cbn [scheduled]; exact (IH Hl).
Qed.

Lemma occurrences_focus (p : Event -> bool) (l : list Event) :
  (forall e, focusEvent e = true -> p e = false) ->
  forallb focusEvent l = true -> occurrences p l = 0%nat.
Proof.
  intros Hp. unfold occurrences. induction l as [| e l IH]; [ reflexivity | ].
  cbn [forallb filter]. intros Hall. apply andb_prop in Hall.
  destruct Hall as (He & Hl). rewrite (Hp e He). exact (IH Hl).
Qed.

Lemma focusEvent_not_show (v : View) (e : Event) :
  focusEvent e = true -> isShowOf v e = false.
Proof. destruct e; intros H; try discriminate H; reflexivity. Qed.

Lemma focusEvent_not_delete (v : View) (e : Event) :
  focusEvent e = true -> isDeleteOf v e = false.
Proof. destruct e; intros H; try discriminate H; reflexivity. Qed.

Lemma focusEvent_not_callback (id : nat) (e : Event) :
  focusEvent e = true -> isUserCallback id e = false.
Proof. destruct e; intros H; try discriminate H; reflexivity. Qed.

Lemma view_eqb_refl (v : View) : view_eqb v v = true.
Proof. apply view_eqb_eq. reflexivity. Qed.

Lemma giveFocus_events (view : option View) (s : Application W) :
  exists events,
    trace (giveFocus view s) = trace s ++ events
    /\ forallb focusEvent events = true.
Proof.
  unfold giveFocus.
  destruct (negb _); [ | exists []; split; [ symmetry; apply app_nil_r | reflexivity ] ].
  destruct (match view with
            | Some v => getDefaultFocus (world s) v
            | None => None
            end), (currentFocus s); cbn; rewrite <- ?app_assoc;
    eexists; (split; [ reflexivity | reflexivity ]).
Qed.

Lemma popViewFocus_events (s : Application W) :
  viewStack (popViewFocus s) = viewStack s
  /\ blockInputsTokens (popViewFocus s) = blockInputsTokens s
  /\ focusStack (popViewFocus s) = removelast (focusStack s)
  /\ exists events,
       trace (popViewFocus s) = trace s ++ events
       /\ forallb focusEvent events = true.
Proof.
  unfold popViewFocus.
  destruct (focusStack s) as [| f rest] eqn:Hstack.
  - cbn [length Nat.ltb Nat.leb]. rewrite Hstack. repeat split.
    exists []. split; [ symmetry; apply app_nil_r | reflexivity ].
  - cbn [length Nat.ltb Nat.leb].
    destruct (back (f :: rest)) as [newFocus |] eqn:Hback.
    + cbv zeta. cbn [viewStack blockInputsTokens focusStack trace set_focusStack].
      rewrite giveFocus_viewStack, giveFocus_tokens, giveFocus_focusStack, Hstack.
      repeat split. apply giveFocus_events.
    + exfalso. unfold back in Hback. apply nth_error_None in Hback.
      cbn [length] in Hback. lia.
Qed.

Lemma unblockInputs_held (s : Application W) :
  0 < blockInputsTokens s ->
  unblockInputs s
  = note EvUnblockInputs (set_blockInputsTokens (blockInputsTokens s - 1) s).
Proof.
  intros Hpos. unfold unblockInputs.
  destruct (Z.gtb_spec (blockInputsTokens s) 0) as [_ | Hle]; [ reflexivity | lia ].
Qed.

Lemma back_two {A : Type} (l : list A) (x y : A) :
  back (l ++ [x; y]) = Some y.
Proof.
  change [x; y] with ([x] ++ [y]). rewrite app_assoc. apply back_snoc.
Qed.

Lemma removelast_snoc {A : Type} (l : list A) (x : A) :
  removelast (l ++ [x]) = l.
Proof. apply removelast_last. Qed.

(** The completion closure of [popView] on a stack whose top is [top]:
    it pops [top], whatever view it captured. *)
Lemma popHideDone_run (last : View) (animation : ViewAnimation) (wait : bool)
  (id : nat) (s : Application W) (below : list View) (top : View) :
  viewStack s = below ++ [top] ->
  0 < blockInputsTokens s ->
  let w := perform (EvDelete last)
             (perform (EvSetForceTranslucent last false) (world s)) in
  let tail := match back below with
              | Some newLast =>
                  if wait then
                    if isHidden w newLast
                    then [EvWillAppear newLast false;
                          EvShow newLast (UserCallback id) true animation]
                    else [EvUserCallback id]
                  else []
              | None => []
              end in
  exists s',
    runCallback (PopHideDone last animation wait (UserCallback id)) s = Some s'
    /\ viewStack s' = below
    /\ focusStack s' = focusStack s
    /\ blockInputsTokens s' = blockInputsTokens s - 1
    /\ trace s' = trace s
                  ++ [EvSetForceTranslucent last false; EvPopBack top; EvDelete last]
                  ++ tail ++ [EvUnblockInputs].
Proof.
  intros Hstack Hpos w tail. subst tail.
  cbn [runCallback]. cbn [viewStack call]. rewrite Hstack, back_snoc.
  cbn [bind]. rewrite removelast_snoc.
  cbn [viewStack call note set_viewStack world]. fold w.
  destruct (back below) as [newLast |] eqn:Hback.
  - assert (Hlen : (0 <? length below)%nat = true).
    { apply Nat.ltb_lt. unfold back in Hback.
      assert (Hsome : nth_error below (length below - 1) <> None)
        by (rewrite Hback; discriminate).
      apply nth_error_Some in Hsome. lia. }
    rewrite Hlen. cbn [andb].
    destruct wait; cbn [bind].
    + destruct (isHidden w newLast); cbn [bind runCallback].
      * rewrite unblockInputs_held by exact Hpos.
        eexists. split; [ reflexivity | ].
        cbn. rewrite <- !app_assoc. repeat split.
      * rewrite unblockInputs_held by exact Hpos.
        eexists. split; [ reflexivity | ].
        cbn. rewrite <- !app_assoc. repeat split.
    + rewrite unblockInputs_held by exact Hpos.
      eexists. split; [ reflexivity | ].
      cbn. rewrite <- !app_assoc. repeat split.
  - assert (Hnil : below = []).
    { unfold back in Hback. apply nth_error_None in Hback.
      apply length_zero_iff_nil. lia. }
    rewrite Hnil. cbn [length Nat.ltb Nat.leb andb bind].
    rewrite unblockInputs_held by exact Hpos.
    eexists. split; [ reflexivity | ].
    cbn. rewrite <- !app_assoc. repeat split.
Qed.

Lemma popViewAnimate_trace (animation : ViewAnimation) (cb : Callback)
  (s : Application W) (below : list View) (under last : View) :
  viewStack s = below ++ [under; last] ->
  trace (popViewAnimate animation cb s)
  = trace s
    ++ [EvBlockInputs; EvWillDisappear last true;
        EvSetForceTranslucent last true;
        EvHide last (PopHideDone last animation (isFade animation) cb)
          true animation]
    ++ (if isFade animation then []
        else [EvWillAppear under false; EvShow under cb true animation]).
Proof.
  intros Hstack. unfold popViewAnimate. cbv zeta.
  change (viewStack (blockInputs s)) with (viewStack s).
  rewrite Hstack, back_two.
  cbn [viewStack call].
  change (viewStack (blockInputs s)) with (viewStack s). rewrite Hstack.
  destruct (isFade animation); cbn [negb andb].
  - cbn [trace call blockInputs note set_blockInputsTokens].
    rewrite <- !app_assoc. reflexivity.
  - assert (Hlen : length (below ++ [under; last]) = S (S (length below)))
      by (rewrite length_app; cbn [length]; lia).
    rewrite Hlen. cbn [Nat.ltb Nat.leb Nat.sub].
    rewrite Nat.sub_0_r, nth_error_app2, Nat.sub_diag by lia.
    cbn [nth_error trace call blockInputs note set_blockInputsTokens].
    rewrite <- !app_assoc. reflexivity.
Qed.

Lemma popView_started (animation : ViewAnimation) (cb : Callback)
  (s : Application W) (below : list View) (under last : View) :
  viewStack s = below ++ [under; last] ->
  viewStack (popView animation cb s) = viewStack s
  /\ blockInputsTokens (popView animation cb s) = blockInputsTokens s + 1
  /\ focusStack (popView animation cb s) = removelast (focusStack s)
  /\ exists focusEvents,
       forallb focusEvent focusEvents = true
       /\ trace (popView animation cb s)
          = trace s
            ++ ([EvBlockInputs; EvWillDisappear last true;
                 EvSetForceTranslucent last true;
                 EvHide last (PopHideDone last animation (isFade animation) cb)
                   true animation]
                ++ (if isFade animation then []
                    else [EvWillAppear under false;
                          EvShow under cb true animation]))
            ++ focusEvents.
Proof.
  intros Hstack. unfold popView.
  assert (Hlen : (length (viewStack s) <=? 1)%nat = false).
  { apply Nat.leb_gt. rewrite Hstack, length_app. cbn [length]. lia. }
  rewrite Hlen.
  destruct (popViewFocus_events (popViewAnimate animation cb s))
    as (Hv & Hb & Hf & fe & Ht & Hfe).
  destruct (popViewAnimate_frame animation cb s) as (Hv' & Hf' & _ & Hb').
  rewrite Hv, Hb, Hf, Hv', Hb', Hf'.
  split; [ reflexivity | split; [ reflexivity | split; [ reflexivity | ] ] ].
  exists fe. split; [ exact Hfe | ].
  rewrite Ht, (popViewAnimate_trace animation cb s below under last Hstack).
  rewrite <- !app_assoc. reflexivity.
Qed.


Lemma traceSince_ext (s s' : Application W) (events : list Event) :
  trace s' = trace s ++ events -> traceSince s s' = events.
Proof. intros Ht. unfold traceSince. rewrite Ht. apply skipn_length_app. Qed.

Lemma traceSince_three (s s1 s2 s3 : Application W) (e1 e2 e3 : list Event) :
  trace s1 = trace s ++ e1 -> trace s2 = trace s1 ++ e2 ->
  trace s3 = trace s2 ++ e3 ->
  traceSince s s3 = e1 ++ e2 ++ e3.
Proof.
  intros H1 H2 H3. apply traceSince_ext. rewrite H3, H2, H1, <- !app_assoc.
  reflexivity.
Qed.

Ltac count_events :=
  unfold occurrences;
  cbn [filter isDeleteOf isUserCallback isShowOf app];
  rewrite ?view_eqb_refl, ?Nat.eqb_refl;
  cbn [filter length app Nat.add]; try reflexivity.

(** X18.  [popView] on a stack of at least two views runs to an end:
    when the completions it scheduled are invoked, and then those they
    scheduled, nothing is left scheduled; the top view has left the
    stack and was destroyed exactly once, the caller's callback was
    invoked exactly once, the input-block token was given back, the
    focus stack lost its top, and the two stacks are in step again if
    they were. *)
Theorem popView_transition_settles (animation : ViewAnimation) (id : nat)
  (s : Application W) (below : list View) (under last : View) :
  0 <= blockInputsTokens s ->
  viewStack s = below ++ [under; last] ->
  let s1 := popView animation (UserCallback id) s in
  exists s2 s3,
    completeRound s s1 = Some s2
    /\ completeRound s1 s2 = Some s3
    /\ scheduled (traceSince s2 s3) = []
    /\ viewStack s3 = below ++ [under]
    /\ focusStack s3 = removelast (focusStack s)
    /\ blockInputsTokens s3 = blockInputsTokens s
    /\ occurrences (isUserCallback id) (traceSince s s3) = 1%nat
    /\ occurrences (isDeleteOf last) (traceSince s s3) = 1%nat
    /\ (stacksAligned s -> stacksAligned s3).
Proof.
  intros Hnonneg Hstack s1.
  destruct (popView_started animation (UserCallback id) s below under last Hstack)
    as (Hv1 & Hb1 & Hf1 & fe & Hfe & Ht1).
  fold s1 in Hv1, Hb1, Hf1, Ht1.
  assert (Hstack1 : viewStack s1 = (below ++ [under]) ++ [last])
    by (rewrite Hv1, Hstack, <- app_assoc; reflexivity).
  assert (Hpos1 : 0 < blockInputsTokens s1) by (rewrite Hb1; lia).
  assert (Haligned : forall s3 : Application W,
             viewStack s3 = below ++ [under] ->
             focusStack s3 = removelast (focusStack s) ->
             stacksAligned s -> stacksAligned s3).
  { intros s3 Hv3 Hf3 [Hlen | (Hnil & _)].
    - left. rewrite Hv3, Hf3. rewrite Hstack in Hlen.
      rewrite length_app in *. cbn [length] in *.
      destruct (focusStack s) as [| f rest] eqn:Hfs; [ cbn in Hlen; lia | ].
      destruct (exists_last (l := f :: rest)) as (init & x & Hlast);
        [ discriminate | ].
      rewrite Hlast, removelast_snoc. rewrite Hlast, length_app in Hlen.
      cbn [length] in Hlen. lia.
    - rewrite Hstack in Hnil. destruct below; discriminate Hnil. }
  destruct (popHideDone_run last animation (isFade animation) id s1
              (below ++ [under]) last Hstack1 Hpos1)
    as (sd & Hrun & Hvd & Hfd & Hbd & Htd).
  rewrite back_snoc in Htd.
  assert (Hcount_fe_cb : occurrences (isUserCallback id) fe = 0%nat)
    by (apply occurrences_focus;
        [ apply focusEvent_not_callback | exact Hfe ]).
  assert (Hcount_fe_del : occurrences (isDeleteOf last) fe = 0%nat)
    by (apply occurrences_focus;
        [ apply focusEvent_not_delete | exact Hfe ]).
  assert (Hsched1 : scheduled (traceSince s s1)
                    = PopHideDone last animation (isFade animation) (UserCallback id)
                      :: (if isFade animation then [] else [UserCallback id])).
  { rewrite (traceSince_ext s s1 _ Ht1), !scheduled_app, (scheduled_focus fe Hfe).
    destruct (isFade animation); reflexivity. }
  unfold completeRound. rewrite Hsched1.
  destruct (isFade animation) eqn:Hfade.
  - (* the show of the exposed view waits for the hide *)
    cbn [runCallbacks]. rewrite Hrun. cbn [bind].
    destruct (isHidden _ under) eqn:Hhidden.
    + exists sd, (call (EvUserCallback id) sd).
      rewrite (traceSince_ext s1 sd _ Htd).
      split; [ reflexivity | ].
      split; [ reflexivity | ].
      split; [ unfold traceSince; cbn [trace call];
               rewrite skipn_length_app; reflexivity | ].
      split; [ exact Hvd | ].
      split; [ cbn [focusStack call]; rewrite Hfd; exact Hf1 | ].
      split; [ cbn [blockInputsTokens call]; rewrite Hbd, Hb1; lia | ].
      assert (Hall : traceSince s (call (EvUserCallback id) sd) = _)
        by (apply (traceSince_three s s1 sd _ _ _ [EvUserCallback id] Ht1 Htd);
            reflexivity).
      rewrite Hall, !occurrences_app, Hcount_fe_cb, Hcount_fe_del.
      split; [ count_events | split; [ count_events | ] ].
      apply Haligned; [ exact Hvd | cbn [focusStack call]; rewrite Hfd; exact Hf1 ].
    + exists sd, sd.
      rewrite (traceSince_ext s1 sd _ Htd).
      split; [ reflexivity | ].
      split; [ reflexivity | ].
      split; [ unfold traceSince; rewrite skipn_all; reflexivity | ].
      split; [ exact Hvd | ].
      split; [ rewrite Hfd; exact Hf1 | ].
      split; [ rewrite Hbd, Hb1; lia | ].
      rewrite (traceSince_ext s sd _
                 ltac:(rewrite Htd, Ht1, <- !app_assoc; reflexivity)).
      rewrite !occurrences_app, Hcount_fe_cb, Hcount_fe_del.
      split; [ count_events | split; [ count_events | ] ].
      apply Haligned; [ exact Hvd | rewrite Hfd; exact Hf1 ].
  - (* the show of the exposed view was started by popView *)
    cbn [runCallbacks]. rewrite Hrun. cbn [bind runCallback].
    exists (call (EvUserCallback id) sd), (call (EvUserCallback id) sd).
    assert (Ht2 : trace (call (EvUserCallback id) sd)
                  = trace s1
                    ++ [EvSetForceTranslucent last false; EvPopBack last;
                        EvDelete last; EvUnblockInputs; EvUserCallback id]).
    { cbn [trace call]. rewrite Htd, <- !app_assoc. reflexivity. }
    rewrite (traceSince_ext s1 _ _ Ht2).
    split; [ reflexivity | ].
    split; [ reflexivity | ].
    split; [ unfold traceSince; rewrite skipn_all; reflexivity | ].
    split; [ exact Hvd | ].
    split; [ cbn [focusStack call]; rewrite Hfd; exact Hf1 | ].
    split; [ cbn [blockInputsTokens call]; rewrite Hbd, Hb1; lia | ].
    rewrite (traceSince_ext s _ _
               ltac:(rewrite Ht2, Ht1, <- !app_assoc; reflexivity)).
    rewrite !occurrences_app, Hcount_fe_cb, Hcount_fe_del.
    split; [ count_events | split; [ count_events | ] ].
    apply Haligned; [ exact Hvd | cbn [focusStack call]; rewrite Hfd; exact Hf1 ].
Qed.

Lemma pushViewAnimate_shapes (view : View) (animation : ViewAnimation)
  (s : Application W) :
  exists events,
    trace (pushViewAnimate view animation s) = trace s ++ events
    /\ ((scheduled events = [UnblockCallback]
         /\ occurrences (isShowOf view) events = 1%nat)
        \/ (scheduled events = [PushHideDone animation true]
            /\ occurrences (isShowOf view) events = 0%nat)
        \/ (scheduled events = [UnblockCallback; PushHideDone animation false]
            /\ occurrences (isShowOf view) events = 1%nat)).
Proof.
  unfold pushViewAnimate. cbv zeta.
  destruct (back (viewStack (blockInputs s))) as [l |];
    [ destruct (isTranslucent (world (blockInputs s)) l),
               (isTranslucent (world (blockInputs s)) view) | ];
    destruct animation;
    cbn [negb andb isFade trace call note blockInputs set_blockInputsTokens];
    rewrite <- ?app_assoc; eexists; (split; [ reflexivity | ]);
    first [ left; split; [ reflexivity | count_events ]
          | right; left; split; [ reflexivity | count_events ]
          | right; right; split; [ reflexivity | count_events ] ].
Qed.

Lemma pushView_trace (view : View) (animation : ViewAnimation)
  (s s1 : Application W) :
  pushView view animation s = Some s1 ->
  exists focusEvents,
    forallb focusEvent focusEvents = true
    /\ trace s1
       = trace (pushViewAnimate view animation s)
         ++ [EvInvalidate view true; EvWillAppear view true] ++ focusEvents.
Proof.
  intros Hpush. unfold pushView in Hpush. cbv zeta in Hpush.
  set (s0 := pushViewAnimate view animation s) in *.
  destruct (pushViewFocus s0) as [sf |] eqn:Hfocus; cbn [bind] in Hpush;
    [ | discriminate Hpush ].
  assert (Hsf : trace sf = trace s0).
  { unfold pushViewFocus in Hfocus.
    destruct (0 <? length (viewStack s0))%nat.
    - destruct (currentFocus s0); [ | discriminate Hfocus ].
      injection Hfocus as <-. reflexivity.
    - injection Hfocus as <-. reflexivity. }
  injection Hpush as <-. cbn [trace set_viewStack].
  match goal with
  | |- context [trace (giveFocus ?v ?x)] =>
      destruct (giveFocus_events v x) as (ge & Hge & Hall)
  end.
  exists ge. split; [ exact Hall | ].
  rewrite Hge. cbn [trace call]. rewrite Hsf, <- !app_assoc. reflexivity.
Qed.

(** X19.  [pushView] runs to an end: when the completions it scheduled
    are invoked, and then those they scheduled, nothing is left
    scheduled; the pushed view is on top of the stack, its show animation
    was started exactly once, whether at once or by the completion of the
    hide of the view under it, and the input-block token was given
    back. *)
Theorem pushView_transition_settles (view : View) (animation : ViewAnimation)
  (s s1 : Application W) :
  0 <= blockInputsTokens s ->
  pushView view animation s = Some s1 ->
  exists s2 s3,
    completeRound s s1 = Some s2
    /\ completeRound s1 s2 = Some s3
    /\ scheduled (traceSince s2 s3) = []
    /\ viewStack s3 = viewStack s ++ [view]
    /\ blockInputsTokens s3 = blockInputsTokens s
    /\ occurrences (isShowOf view) (traceSince s s3) = 1%nat.
Proof.
  intros Hnonneg Hpush.
  destruct (pushView_effect view animation s s1 Hpush) as (Hv1 & Hb1 & _).
  destruct (pushView_trace view animation s s1 Hpush) as (fe & Hfe & Ht1).
  destruct (pushViewAnimate_shapes view animation s) as (pa & Hpa & Hshape).
  rewrite Hpa, <- app_assoc in Ht1.
  assert (Hpos1 : 0 < blockInputsTokens s1) by (rewrite Hb1; lia).
  assert (Hsched1 : scheduled (traceSince s s1) = scheduled pa).
  { rewrite (traceSince_ext s s1 _ Ht1), !scheduled_app, (scheduled_focus fe Hfe).
    cbn [scheduled]. rewrite app_nil_r. reflexivity. }
  assert (Hcount1 : occurrences (isShowOf view) (traceSince s s1)
                    = occurrences (isShowOf view) pa).
  { rewrite (traceSince_ext s s1 _ Ht1), !occurrences_app.
    rewrite (occurrences_focus _ fe (focusEvent_not_show view) Hfe).
    unfold occurrences at 2. cbn [filter isShowOf length]. lia. }
  assert (Hsplit : forall s3 e2 : _,
             trace s3 = trace s1 ++ e2 ->
             occurrences (isShowOf view) (traceSince s s3)
             = (occurrences (isShowOf view) pa
                + occurrences (isShowOf view) e2)%nat).
  { intros s3 e2 Ht3. rewrite <- Hcount1, <- occurrences_app. f_equal.
    apply traceSince_ext. rewrite (traceSince_ext s s1 _ Ht1), Ht3, Ht1.
    rewrite <- !app_assoc. reflexivity. }
  unfold completeRound. rewrite Hsched1.
  destruct Hshape as [(Hcbs & Hocc) | [(Hcbs & Hocc) | (Hcbs & Hocc)]];
    rewrite Hcbs; cbn [runCallbacks runCallback bind].
  - (* shown at once *)
    rewrite (unblockInputs_held s1 Hpos1).
    set (s2 := note EvUnblockInputs _).
    assert (Ht2 : trace s2 = trace s1 ++ [EvUnblockInputs]) by reflexivity.
    exists s2, s2. rewrite (traceSince_ext s1 s2 _ Ht2).
    split; [ reflexivity | ].
    split; [ reflexivity | ].
    split; [ unfold traceSince; rewrite skipn_all; reflexivity | ].
    split; [ exact Hv1 | ].
    split; [ subst s2; cbn [blockInputsTokens note set_blockInputsTokens]; lia | ].
    rewrite (Hsplit s2 _ Ht2), Hocc. count_events.
  - (* shown by the completion of the hide *)
    rewrite Hv1, back_snoc. cbn [bind].
    set (s2 := call (EvShow view UnblockCallback true animation) _).
    assert (Ht2 : trace s2
                  = trace s1 ++ [EvSetForceTranslucent view false;
                                 EvShow view UnblockCallback true animation]).
    { subst s2. cbn [trace call]. rewrite <- !app_assoc. reflexivity. }
    assert (Hpos2 : 0 < blockInputsTokens s2) by exact Hpos1.
    exists s2, (unblockInputs s2). rewrite (traceSince_ext s1 s2 _ Ht2).
    split; [ reflexivity | ].
    split; [ reflexivity | ].
    rewrite (unblockInputs_held s2 Hpos2).
    split; [ unfold traceSince; cbn [trace note set_blockInputsTokens];
             rewrite skipn_length_app; reflexivity | ].
    split; [ exact Hv1 | ].
    split; [ cbn [blockInputsTokens note set_blockInputsTokens];
             change (blockInputsTokens s2) with (blockInputsTokens s1); lia | ].
    assert (Ht3 : trace (note EvUnblockInputs
                           (set_blockInputsTokens (blockInputsTokens s2 - 1) s2))
                  = trace s1 ++ [EvSetForceTranslucent view false;
                                 EvShow view UnblockCallback true animation;
                                 EvUnblockInputs]).
    { cbn [trace note set_blockInputsTokens]. rewrite Ht2, <- !app_assoc.
      reflexivity. }
    rewrite (Hsplit _ _ Ht3), Hocc. count_events.
  - (* shown at once, beside the hide *)
    rewrite (unblockInputs_held s1 Hpos1).
    cbn [viewStack note set_blockInputsTokens]. rewrite Hv1, back_snoc.
    cbn [bind].
    set (s2 := call (EvSetForceTranslucent view false) _).
    assert (Ht2 : trace s2
                  = trace s1 ++ [EvUnblockInputs;
                                 EvSetForceTranslucent view false]).
    { subst s2. cbn [trace call note set_blockInputsTokens].
      rewrite <- !app_assoc. reflexivity. }
    exists s2, s2. rewrite (traceSince_ext s1 s2 _ Ht2).
    split; [ reflexivity | ].
    split; [ reflexivity | ].
    split; [ unfold traceSince; rewrite skipn_all; reflexivity | ].
    split; [ exact Hv1 | ].
    split; [ subst s2;
             cbn [blockInputsTokens call note set_blockInputsTokens]; lia | ].
    rewrite (Hsplit s2 _ Ht2), Hocc. count_events.
Qed.

Lemma popHideDone_deletes (last : View) (animation : ViewAnimation)
  (wait : bool) (id : nat) (s : Application W) (below : list View) (top : View) :
  viewStack s = below ++ [top] ->
  0 < blockInputsTokens s ->
  exists s' rest,
    runCallback (PopHideDone last animation wait (UserCallback id)) s = Some s'
    /\ viewStack s' = below
    /\ blockInputsTokens s' = blockInputsTokens s - 1
    /\ trace s' = trace s
                  ++ [EvSetForceTranslucent last false; EvPopBack top; EvDelete last]
                  ++ rest
    /\ (forall v, occurrences (isDeleteOf v) rest = 0%nat).
Proof.
  intros Hstack Hpos.
  destruct (popHideDone_run last animation wait id s below top Hstack Hpos)
    as (s' & Hrun & Hv & _ & Hb & Ht).
  exists s'. eexists.
  split; [ exact Hrun | split; [ exact Hv | split; [ exact Hb | ] ] ].
  split; [ exact Ht | ].
  intros v. rewrite occurrences_app.
  destruct (back below) as [newLast |]; [ destruct wait | ];
    try destruct (isHidden _ newLast); reflexivity.
Qed.

(** X23.  [popView] is not re-entrant: called again before the hide
    animation of the first call has finished, it hides the same top view
    once more; when the two completions have run, two views have left
    the stack, the top view was destroyed twice, and the view that was
    under it was removed without being destroyed. *)
Theorem popView_twice_deletes_twice (s : Application W) (below : list View)
  (under last : View) (animation animation' : ViewAnimation) (id id' : nat) :
  0 <= blockInputsTokens s ->
  viewStack s = below ++ [under; last] ->
  under <> last ->
  let first := PopHideDone last animation (isFade animation) (UserCallback id) in
  let second := PopHideDone last animation' (isFade animation') (UserCallback id') in
  let s1 := popView animation (UserCallback id) s in
  let s2 := popView animation' (UserCallback id') s1 in
  In (EvHide last first true animation) (traceSince s s1)
  /\ In (EvHide last second true animation') (traceSince s1 s2)
  /\ exists s3 s4,
       runCallback first s2 = Some s3
       /\ runCallback second s3 = Some s4
       /\ viewStack s4 = below
       /\ occurrences (isDeleteOf last) (traceSince s2 s4) = 2%nat
       /\ occurrences (isDeleteOf under) (traceSince s2 s4) = 0%nat
       /\ In (EvPopBack under) (traceSince s2 s4).
Proof.
  intros Hnonneg Hstack Hdiff first second s1 s2.
  destruct (popView_started animation (UserCallback id) s below under last Hstack)
    as (Hv1 & Hb1 & _ & fe1 & _ & Ht1).
  fold s1 in Hv1, Hb1, Ht1.
  assert (Hstack1 : viewStack s1 = below ++ [under; last])
    by (rewrite Hv1; exact Hstack).
  destruct (popView_started animation' (UserCallback id') s1 below under last Hstack1)
    as (Hv2 & Hb2 & _ & fe2 & _ & Ht2).
  fold s2 in Hv2, Hb2, Ht2.
  split; [ rewrite (traceSince_ext s s1 _ Ht1); cbn [app];
           right; right; right; left; reflexivity | ].
  split; [ rewrite (traceSince_ext s1 s2 _ Ht2); cbn [app];
           right; right; right; left; reflexivity | ].
  destruct (popHideDone_deletes last animation (isFade animation) id s2
              (below ++ [under]) last) as (s3 & rest3 & Hrun3 & Hv3 & Hb3 & Ht3 & Hr3).
  { rewrite Hv2, Hstack1, <- app_assoc. reflexivity. }
  { rewrite Hb2, Hb1. lia. }
  destruct (popHideDone_deletes last animation' (isFade animation') id' s3
              below under Hv3) as (s4 & rest4 & Hrun4 & Hv4 & _ & Ht4 & Hr4).
  { rewrite Hb3, Hb2, Hb1. lia. }
  exists s3, s4.
  split; [ exact Hrun3 | split; [ exact Hrun4 | split; [ exact Hv4 | ] ] ].
  assert (Hall : traceSince s2 s4
                 = ([EvSetForceTranslucent last false; EvPopBack last; EvDelete last]
                    ++ rest3)
                   ++ [EvSetForceTranslucent last false; EvPopBack under;
                       EvDelete last] ++ rest4).
  { apply traceSince_ext. rewrite Ht4, Ht3, <- !app_assoc. reflexivity. }
  assert (Hnot : view_eqb last under = false).
  { destruct (view_eqb last under) eqn:Heq; [ | reflexivity ].
    apply view_eqb_eq in Heq. congruence. }
  rewrite Hall, !occurrences_app, !Hr3, !Hr4.
  split; [ count_events | ].
  split; [ unfold occurrences; cbn [filter isDeleteOf app]; rewrite Hnot;
           reflexivity | ].
  apply in_or_app. right. right. left. reflexivity.
Qed.

(** ** The repeat timer *)

Lemma inputState_runListener (node : View) (a : Action) (s : Application W) :
  inputState (snd (runListener node a s)) = inputState s.
Proof.
  unfold runListener. destruct (actionListener a) as [| | id]; cbn [snd].
  - reflexivity.
  - unfold toggleFramerateDisplay, setDisplayFramerate, resizeFramerateCounter.
    cbn [framerateCounter call]. destruct (framerateCounter s); reflexivity.
  - reflexivity.
Qed.

Lemma inputState_actionStep (button : Z) (node : View) (a : Action)
  (acc : list Key * Application W) :
  inputState (snd (actionStep button node acc a)) = inputState (snd acc).
Proof.
  destruct acc as [c s]. unfold actionStep. cbn [snd].
  destruct (negb (intersects (key a) button)); [ reflexivity | ].
  destruct (consumedFind (key a) c); [ reflexivity | ].
  destruct (available a); [ | reflexivity ].
  pose proof (inputState_runListener node a s) as Hk.
  destruct (runListener node a s) as [v s']. cbn [snd] in Hk.
  destruct v; exact Hk.
Qed.

Lemma inputState_visitNode (button : Z) (node : View)
  (acc : list Key * Application W) :
  inputState (snd (visitNode button node acc)) = inputState (snd acc).
Proof.
  unfold visitNode. generalize (getActions (world (snd acc)) node) as l.
  intros l. revert acc. induction l as [| a l IH]; intros acc; cbn [fold_left].
  - reflexivity.
  - rewrite IH. apply inputState_actionStep.
Qed.

Lemma inputState_handleActionFrom (button : Z) (node : View) :
  forall acc : list Key * Application W,
    inputState (snd (handleActionFrom button node acc)) = inputState (snd acc).
Proof.
  induction node as [i | i parent IH] using View_parent_ind;
    intros acc; cbn [handleActionFrom].
  - apply inputState_visitNode.
  - rewrite IH. apply inputState_visitNode.
Qed.

Lemma inputState_handleAction (button : Z) (s : Application W) :
  inputState (snd (handleAction button s)) = inputState s.
Proof.
  unfold handleAction. destruct (currentFocus s) as [focus |]; [ | reflexivity ].
  pose proof (inputState_handleActionFrom button focus ([], s)) as Hk.
  destruct (handleActionFrom button focus ([], s)) as [c s']. exact Hk.
Qed.

Lemma inputState_giveFocus (view : option View) (s : Application W) :
  inputState (giveFocus view s) = inputState s.
Proof.
  unfold giveFocus. destruct (negb _); [ | reflexivity ].
  destruct (match view with
            | Some v => getDefaultFocus (world s) v
            | None => None
            end), (currentFocus s); reflexivity.
Qed.

Lemma inputState_navigate (direction : FocusDirection) (s : Application W) :
  inputState (navigate direction s) = inputState s.
Proof.
  unfold navigate. destruct (currentFocus s) as [focus |]; [ | reflexivity ].
  destruct (negb (hasParent focus)); [ reflexivity | ].
  destruct (findNextFocus (world s) direction focus);
    [ apply inputState_giveFocus | reflexivity ].
Qed.

Lemma inputState_dispatchButton (button : Z) (s : Application W) :
  inputState (dispatchButton button s) = inputState s.
Proof.
  unfold dispatchButton.
  pose proof (inputState_handleAction button
                (set_repetitionOldFocus (currentFocus s) s)) as Hk.
  destruct (handleAction button (set_repetitionOldFocus (currentFocus s) s))
    as [consumed s']. cbn [snd] in Hk.
  change (inputState s' = inputState s) in Hk.
  destruct consumed; [ exact Hk | ].
  repeat match goal with
         | |- context [if ?b then _ else _] => destruct b
         end;
    try exact Hk; rewrite inputState_navigate; exact Hk.
Qed.

Lemma inputState_triggerGamepadEvents (s : Application W) :
  inputState (triggerGamepadEvents s) = inputState s.
Proof.
  unfold triggerGamepadEvents, onGamepadButtonPressed.
  repeat match goal with
         | |- context [if ?b then _ else _] => destruct b
         end; try reflexivity; apply inputState_dispatchButton.
Qed.

Lemma inputState_unblockInputs (s : Application W) :
  inputState (unblockInputs s) = inputState s.
Proof. unfold unblockInputs. destruct (_ >? 0); reflexivity. Qed.

Lemma inputState_runCallback (cb : Callback) :
  forall s s' : Application W,
    runCallback cb s = Some s' -> inputState s' = inputState s.
Proof.
  induction cb as [id | | animation wait | last animation wait cb IH];
    intros s s' Hrun; cbn [runCallback] in Hrun.
  - injection Hrun as <-. reflexivity.
  - injection Hrun as <-. apply inputState_unblockInputs.
  - destruct (back (viewStack s)) as [newLast |]; cbn [bind] in Hrun;
      [ | discriminate Hrun ].
    injection Hrun as <-. destruct wait; reflexivity.
  - change (viewStack (call (EvSetForceTranslucent last false) s))
      with (viewStack s) in Hrun.
    destruct (back (viewStack s)) as [popped |]; cbn [bind] in Hrun;
      [ | discriminate Hrun ].
    cbv zeta in Hrun.
    match type of Hrun with
    | bind ?m _ = _ => destruct m as [s1 |] eqn:Hm
    end; cbn [bind] in Hrun; [ | discriminate Hrun ].
    injection Hrun as <-. rewrite inputState_unblockInputs.
    destruct (_ && wait) in Hm.
    + match type of Hm with
      | bind ?m _ = _ => destruct m as [newLast |]
      end; cbn [bind] in Hm; [ | discriminate Hm ].
      destruct (isHidden _ newLast) in Hm.
      * injection Hm as <-. reflexivity.
      * apply IH in Hm. rewrite Hm. reflexivity.
    + injection Hm as <-. reflexivity.
Qed.

Lemma inputState_runCallbacks (cbs : list Callback) :
  forall s s' : Application W,
    runCallbacks cbs s = Some s' -> inputState s' = inputState s.
Proof.
  induction cbs as [| cb cbs IH]; intros s s' Hrun; cbn [runCallbacks] in Hrun.
  - injection Hrun as <-. reflexivity.
  - destruct (runCallback cb s) as [s1 |] eqn:Hcb; cbn [bind] in Hrun;
      [ | discriminate Hrun ].
    rewrite (IH _ _ Hrun). apply (inputState_runCallback _ _ _ Hcb).
Qed.

Lemma inputState_frame (s : Application W) :
  inputState (frame s) = inputState s.
Proof.
  unfold frame. cbv zeta.
  assert (Hfold : forall (l : list View) (st : Application W),
             inputState (fold_left (fun s v => call (EvViewFrame v) s) l st)
             = inputState st).
  { induction l as [| v l IH]; intros st; cbn [fold_left]; [ reflexivity | ].
    rewrite IH. reflexivity. }
  destruct (framerateCounter _);
    match goal with
    | |- inputState (call ?e (call ?e' ?x)) = _ =>
        change (inputState x = inputState s)
    | |- inputState (call ?e ?x) = _ =>
        change (inputState x = inputState s)
    end;
    try (match goal with
         | |- inputState (call ?e ?x) = _ =>
             change (inputState x = inputState s)
         end);
    rewrite Hfold; reflexivity.
Qed.

Lemma inputState_sleepIfNecessary (frameStart now : Z) (s : Application W) :
  inputState (sleepIfNecessary frameStart now s) = inputState s.
Proof.
  unfold sleepIfNecessary.
  repeat match goal with
         | |- context [if ?b then _ else _] => destruct b
         end; reflexivity.
Qed.

(** X22.  What one iteration of [mainLoop] does to the repeat count,
    whatever the listeners, the focus changes and the animations of the
    iteration do: when the buttons polled differ from those of the
    iteration before, the count and the time of the last increment restart
    from 0; then, when a button is held and more than 1000 microseconds
    have passed since the last increment, the count goes up by one and
    the time is taken again.  So the count goes up by at most one in an
    iteration, and a change of the held buttons leaves it at 0 or 1. *)
Theorem repeat_count_per_iteration (inp : FrameInput) (s s' : Application W) :
  mainLoop inp s = Some (true, s') ->
  let changed := negb (polled inp =? gamepadDown (platformDriver s)) in
  let held := negb (polled inp =? 0) in
  let count := if changed then 0 else repeatingButtonTimer s in
  let since := if changed then 0 else buttonPressTime s in
  let due := held && (clockRepeatTest inp - since >? 1000) in
  repeatingButtonTimer s' = (if due then count + 1 else count)
  /\ buttonPressTime s' = (if due then clockRepeatSet inp else since)
  /\ gamepadDown (platformDriver s') = polled inp
  /\ gamepadDownOld (platformDriver s') = gamepadDown (platformDriver s).
Proof.
  intros Hloop changed held count since due.
  unfold mainLoop in Hloop. cbv zeta in Hloop.
  destruct (negb (pollOk inp)); [ discriminate Hloop | ].
  destruct (mainLoopWork inp s) as [work |] eqn:Hwork; cbn [bind] in Hloop;
    [ | discriminate Hloop ].
  injection Hloop as <-.
  unfold mainLoopWork in Hwork. cbv zeta in Hwork.
  match type of Hwork with
  | bind ?m _ = _ => destruct m as [s1 |] eqn:Hcbs
  end; cbn [bind] in Hwork; [ | discriminate Hwork ].
  injection Hwork as <-.
  apply inputState_runCallbacks in Hcbs.
  set (s0 := set_platformDriver (Driver.update (polled inp) (platformDriver s)) s)
    in *.
  assert (Hstate : inputState
                     (sleepIfNecessary
                        (if float_gt (frameTime s) float_zero
                         then clockStart inp else 0)
                        (clockEnd inp)
                        (call EvSwapBuffers (frame (call EvTaskFrame s1))))
                   = inputState
                       (updateRepeatTimer inp
                          (negb (Driver.keysHeld (platformDriver s0) =? 0))
                          (triggerGamepadEvents s0))).
  { rewrite inputState_sleepIfNecessary.
    change (inputState (call EvSwapBuffers (frame (call EvTaskFrame s1))))
      with (inputState (frame (call EvTaskFrame s1))).
    rewrite inputState_frame.
    change (inputState (call EvTaskFrame s1)) with (inputState s1).
    rewrite Hcbs. reflexivity. }
  pose proof (inputState_triggerGamepadEvents s0) as Htrigger.
  set (t := triggerGamepadEvents s0) in *.
  unfold inputState in Htrigger. subst s0.
  cbn [platformDriver set_platformDriver Driver.update gamepadDown gamepadDownOld
       buttonPressTime repeatingButtonTimer Driver.keysHeld] in Htrigger, Hstate.
  injection Htrigger as Hdown Hold Htime Hcount.
  unfold updateRepeatTimer, Driver.haveKeyStatesChanged in Hstate.
  rewrite Hdown, Hold in Hstate. fold changed held in Hstate.
  unfold inputState in Hstate.
  subst due since count.
  destruct changed; cbv iota in Hstate |- *.
  - cbn [buttonPressTime repeatingButtonTimer set_repeatTimers] in Hstate.
    destruct (held && (clockRepeatTest inp - 0 >? 1000));
      cbn [platformDriver buttonPressTime repeatingButtonTimer set_repeatTimers]
        in Hstate;
      injection Hstate as -> -> -> ->; rewrite ?Hdown, ?Hold; repeat split.
  - rewrite Htime, Hcount in Hstate.
    destruct (held && (clockRepeatTest inp - buttonPressTime s >? 1000));
      cbn [platformDriver buttonPressTime repeatingButtonTimer set_repeatTimers]
        in Hstate;
      injection Hstate as -> -> -> ->; rewrite ?Hdown, ?Hold, ?Hcount, ?Htime;
      repeat split.
Qed.

End MoreProperties.

(** ** The further properties on the scenes *)

(** X9 on the grid: from [cell] the focus goes to [sibling], offered by
    [container], the parent of [row]. *)
Lemma navigate_nearest_ancestor_witness :
  currentFocus (navigate (C := Grid.collaborators) DOWN Grid.focused)
  = Some Grid.sibling.
Proof.
  refine (proj2 (navigate_nearest_ancestor (C := Grid.collaborators) DOWN
                   Grid.focused Grid.cell [Grid.cell] Grid.row [Grid.container]
                   Grid.container Grid.sibling eq_refl eq_refl eq_refl _ eq_refl)).
  intros c p [<- | []] Hp. injection Hp as <-. reflexivity.
Defined.

(** X12 on the overlay: [middle] and [panel] are drawn, [base] is not. *)
Lemma frame_draws_visible_views_witness :
  traceSince Overlay.stacked (frame (C := Overlay.collaborators) Overlay.stacked)
  = [EvDriverFrame; EvBeginFrame; EvViewFrame Overlay.middle;
     EvViewFrame Overlay.panel; EvFramerateCounterFrame;
     EvNotificationFrame; EvEndFrame].
Proof.
  refine (proj1 (frame_draws_visible_views (C := Overlay.collaborators)
                   Overlay.stacked)
            [Overlay.base] Overlay.middle [Overlay.panel] eq_refl eq_refl _).
  constructor; [ reflexivity | constructor ].
Defined.

(** X15 on the scene: a press of [KEY_A] after the push of [dialog] is
    dropped. *)
Lemma input_dropped_during_transition_witness :
  let C := Scene.collaborators true in
  exists s1,
    pushView (C := C) Scene.dialog FADE Scene.focused = Some s1
    /\ onGamepadButtonPressed (C := C) KEY_A false s1 = s1.
Proof.
  intros C.
  assert (Hpush : exists s1,
             pushView (C := C) Scene.dialog FADE Scene.focused = Some s1)
    by (eexists; vm_compute; reflexivity).
  destruct Hpush as (s1 & Hpush). exists s1. split; [ exact Hpush | ].
  exact (proj1 (proj1 (input_dropped_during_transition (C := C) Scene.focused
                         (Z.le_refl 0))
                  Scene.dialog FADE s1 Hpush) KEY_A false).
Defined.

(** X16 on the scene: the press of [KEY_B] is dropped. *)
Lemma new_press_on_repeat_tick_witness :
  triggerGamepadEvents (C := Scene.collaborators true) secondPress = secondPress.
Proof.
  refine (proj2 (proj2 (new_press_on_repeat_tick (C := Scene.collaborators true)
                          secondPress _)) eq_refl eq_refl).
  vm_compute. discriminate.
Defined.


(** X18 on the scene: the pop of [dialog] runs to its end. *)
Lemma popView_transition_settles_witness :
  let C := Scene.collaborators true in
  let s1 := popView (C := C) FADE (UserCallback 0) Scene.twoViews in
  exists s2 s3,
    completeRound (C := C) Scene.twoViews s1 = Some s2
    /\ completeRound (C := C) s1 s2 = Some s3
    /\ viewStack s3 = [Scene.root]
    /\ blockInputsTokens s3 = 0.
Proof.
  intros C s1.
  destruct (popView_transition_settles (C := C) FADE 0 Scene.twoViews []
              Scene.root Scene.dialog (Z.le_refl 0) eq_refl)
    as (s2 & s3 & H1 & H2 & _ & Hstack & _ & Htokens & _).
  exists s2, s3.
  split; [ exact H1 | split; [ exact H2 | split; [ exact Hstack | exact Htokens ] ] ].
Defined.

(** X19 on the scene: the push of [dialog] runs to its end. *)
Lemma pushView_transition_settles_witness :
  let C := Scene.collaborators true in
  exists s1 s2 s3,
    pushView (C := C) Scene.dialog FADE Scene.focused = Some s1
    /\ completeRound (C := C) Scene.focused s1 = Some s2
    /\ completeRound (C := C) s1 s2 = Some s3
    /\ viewStack s3 = [Scene.root; Scene.dialog]
    /\ blockInputsTokens s3 = 0.
Proof.
  intros C.
  assert (Hpush : exists s1,
             pushView (C := C) Scene.dialog FADE Scene.focused = Some s1)
    by (eexists; vm_compute; reflexivity).
  destruct Hpush as (s1 & Hpush).
  destruct (pushView_transition_settles (C := C) Scene.dialog FADE Scene.focused
              s1 (Z.le_refl 0) Hpush)
    as (s2 & s3 & H1 & H2 & _ & Hstack & Htokens & _).
  exists s1, s2, s3.
  split; [ exact Hpush | ].
  split; [ exact H1 | split; [ exact H2 | split; [ exact Hstack | exact Htokens ] ] ].
Defined.

(** X20 on a window of 1920 by 1080. *)
Lemma content_area_keeps_aspect_witness :
  exists sizes,
    Window.onWindowSizeChanged 1920 1080 = Some sizes
    /\ Window.contentWidth sizes = 1280
    /\ Window.contentHeight sizes = 720.
Proof.
  destruct (content_area_keeps_aspect 16 9 120 (or_introl eq_refl)
              (conj (Zle_bool_imp_le 1 120 eq_refl)
                 (Zle_bool_imp_le 120 300 eq_refl)))
    as (sizes & Hsizes & Hw & Hh & _).
  exists sizes. split; [ exact Hsizes | split; [ exact Hw | exact Hh ] ].
Defined.

(** X22 on the scene: the first iteration with [KEY_A] held counts
    one. *)
Lemma repeat_count_per_iteration_witness :
  let C := Scene.collaborators true in
  exists s',
    mainLoop (C := C) firstPress Scene.focused = Some (true, s')
    /\ repeatingButtonTimer s' = 1
    /\ buttonPressTime s' = 5000.
Proof.
  intros C.
  assert (Hloop : exists s',
             mainLoop (C := C) firstPress Scene.focused = Some (true, s'))
    by (eexists; vm_compute; reflexivity).
  destruct Hloop as (s' & Hloop).
  destruct (repeat_count_per_iteration (C := C) firstPress Scene.focused s' Hloop)
    as (Hcount & Htime & _).
  exists s'. split; [ exact Hloop | split; [ exact Hcount | exact Htime ] ].
Defined.

(** X23 on the scene: [dialog] popped twice. *)
Lemma popView_twice_deletes_twice_witness :
  let C := Scene.collaborators true in
  let s2 := popView (C := C) FADE (UserCallback 1)
              (popView (C := C) FADE (UserCallback 0) Scene.twoViews) in
  exists s3 s4,
    runCallback (C := C) (PopHideDone Scene.dialog FADE true (UserCallback 0)) s2
    = Some s3
    /\ runCallback (C := C) (PopHideDone Scene.dialog FADE true (UserCallback 1)) s3
       = Some s4
    /\ viewStack s4 = []
    /\ occurrences (isDeleteOf Scene.dialog) (traceSince s2 s4) = 2%nat.
Proof.
  intros C s2.
  destruct (popView_twice_deletes_twice (C := C) Scene.twoViews []
              Scene.root Scene.dialog FADE FADE 0 1 (Z.le_refl 0) eq_refl)
    as (_ & _ & s3 & s4 & H3 & H4 & Hstack & Hcount & _).
  { discriminate. }
  exists s3, s4.
  split; [ exact H3 | split; [ exact H4 | split; [ exact Hstack | exact Hcount ] ] ].
Defined.
